(** * TMDB monthly backfill pipeline (src/movie.py): a shallow embedding

    The pipeline harvests movie records month by month from a paginated,
    rate-limited HTTP API, keeps a checkpoint of the months already done
    and merges the monthly parts into master files.  This file embeds the
    functions of [src/movie.py] and states the properties of the
    specification over them.

    Conventions.
    - Python exceptions are the type [exn]; a call that may raise returns
      a [result].
    - Code with effects (network, clock, log, file system) runs in the
      monad [M]: a function from a [world] to a result and a new world.
    - Library functions whose full behaviour is out of reach
      ([pandas.to_datetime], [int] on strings) are section variables. *)

From Stdlib Require Import ZArith QArith Lia String Ascii List DecimalString.
From Stdlib Require DecimalZ.
From Equations Require Import Equations.
From stdpp Require Import base gmap strings list sorting.
Import ListNotations.
Local Open Scope string_scope.
Local Open Scope list_scope.
Local Open Scope Z_scope.

(** ** Exceptions and results *)

Inductive exn : Type :=
  | RuntimeError (msg : string)
  | ValueError
  | OverflowError
  | TypeError
  | AttributeError
  | OSError
  | UnicodeDecodeError
  | JSONDecodeError
  | KeyError
  | ArrowInvalid.

Inductive result (A : Type) : Type :=
  | Ok (a : A)
  | Raise (e : exn).
Arguments Ok {A} a.
Arguments Raise {A} e.

(** ** Calendar dates ([datetime.date]) *)

Module Calendar.

Record date : Type := mkdate { year : Z; month : Z; day : Z }.

Definition MINYEAR : Z := 1.
Definition MAXYEAR : Z := 9999.

Definition is_leap (y : Z) : bool :=
  (y mod 4 =? 0) && (negb (y mod 100 =? 0) || (y mod 400 =? 0)).

Definition days_in_month (y m : Z) : Z :=
  match m with
  | 1 => 31 | 2 => if is_leap y then 29 else 28 | 3 => 31 | 4 => 30
  | 5 => 31 | 6 => 30 | 7 => 31 | 8 => 31 | 9 => 30 | 10 => 31
  | 11 => 30 | 12 => 31
  | _ => 0
  end.

Definition days_before_month (y m : Z) : Z :=
  match m with
  | 1 => 0 | 2 => 31 | 3 => 59 | 4 => 90 | 5 => 120 | 6 => 151
  | 7 => 181 | 8 => 212 | 9 => 243 | 10 => 273 | 11 => 304 | 12 => 334
  | _ => 0
  end + (if (2 <? m) && is_leap y then 1 else 0).

Definition days_before_year (y : Z) : Z :=
  let y := y - 1 in y * 365 + y / 4 - y / 100 + y / 400.

(** [date.toordinal]: 0001-01-01 is day 1. *)
Definition toordinal (d : date) : Z :=
  days_before_year (year d) + days_before_month (year d) (month d) + day d.

(** The check made by the [date] constructor. *)
Definition valid_dateb (d : date) : bool :=
  (MINYEAR <=? year d) && (year d <=? MAXYEAR)
  && (1 <=? month d) && (month d <=? 12)
  && (1 <=? day d) && (day d <=? days_in_month (year d) (month d)).

Definition valid_date (d : date) : Prop := valid_dateb d = true.

(** [date(y, m, d)]: raises [ValueError] outside the calendar. *)
Definition make_date (y m d : Z) : result date :=
  let r := mkdate y m d in
  if valid_dateb r then Ok r else Raise ValueError.

(** Dates compare as the tuples (year, month, day). *)
Definition date_ltb (a b : date) : bool :=
  (year a <? year b)
  || ((year a =? year b)
      && ((month a <? month b)
          || ((month a =? month b) && (day a <? day b)))).

Definition date_leb (a b : date) : bool := negb (date_ltb b a).

(** [min(a, b)] returns [a] unless [b < a]. *)
Definition date_min (a b : date) : date := if date_ltb b a then b else a.

(** [d + relativedelta(months=1)]: the month moves on by one, the year
    with it after December, and the day is clipped to the new month. *)
Definition add_one_month (d : date) : result date :=
  let y := year d in
  let m := month d + 1 in
  let '(y, m) := if 12 <? m then (y + 1, m - 12) else (y, m) in
  make_date y m (Z.min (days_in_month y m) (day d)).

(** [d - timedelta(days=1)]: the day before, [OverflowError] before
    0001-01-01. *)
Definition sub_one_day (d : date) : result date :=
  if 1 <? day d then Ok (mkdate (year d) (month d) (day d - 1))
  else if 1 <? month d then
    Ok (mkdate (year d) (month d - 1) (days_in_month (year d) (month d - 1)))
  else if MINYEAR <? year d then Ok (mkdate (year d - 1) 12 31)
  else Raise OverflowError.

(** *** [date.isoformat]: "%04d-%02d-%02d" *)

Definition digit (n : Z) : ascii :=
  ascii_of_nat (48 + Z.to_nat (n mod 10)).

Definition pad2 (n : Z) : string :=
  String (digit (n / 10)) (String (digit n) EmptyString).

Definition pad4 (n : Z) : string :=
  String (digit (n / 1000)) (String (digit (n / 100))
    (String (digit (n / 10)) (String (digit n) EmptyString))).

Definition isoformat (d : date) : string :=
  pad4 (year d) +:+ "-" +:+ pad2 (month d) +:+ "-" +:+ pad2 (day d).

(** The number of days of year [y]. *)
Definition year_length (y : Z) : Z := if is_leap y then 366 else 365.

End Calendar.
Import Calendar.

(** ** The month partitioner *)

(** A window is a pair (first day, last day); [month_ranges] returns
    the two days in ISO format. *)
Definition window : Type := date * date.

Definition iso_window (w : window) : string * string :=
  (isoformat (fst w), isoformat (snd w)).

(** What the [while] loop of [month_ranges] still has to cover: it
    decreases at every turn of the loop. *)
Definition loop_measure (cur e : date) : nat :=
  Z.to_nat (13 * (year e - year cur) + (12 - month cur) + 13).

(** A value together with the equation that names it, so that the
    branches of a loop remember the test they passed. *)
Definition inspect {A : Type} (x : A) : {y : A | x = y} := exist _ x eq_refl.

(** The loop of [month_ranges], from the first day of the start month. *)
Equations month_ranges_loop (cur e : date) (out : list (string * string))
  : result (list (string * string)) by wf (loop_measure cur e) lt :=
  month_ranges_loop cur e out with inspect (date_leb cur e) => {
    | exist _ false _ => Ok out
    | exist _ true Hle with inspect (add_one_month cur) => {
        | exist _ (Raise ex) _ => Raise ex
        | exist _ (Ok nxt) Hn with sub_one_day nxt => {
            | Raise ex => Raise ex
            | Ok last_day =>
                month_ranges_loop nxt e
                  (out ++ [(isoformat cur, isoformat (date_min last_day e))])
          }
      }
  }.
Next Obligation.
  intros cur nxt _ Hn e Hle _ _. simpl in Hn, Hle. revert Hle Hn.
  unfold date_leb, date_ltb, add_one_month, make_date, valid_dateb, loop_measure.
  intros Hle Hn.
  destruct (12 <? month cur + 1) eqn:Hm; simpl in Hn;
    match type of Hn with (if ?c then _ else _) = _ => destruct c eqn:Hv end;
    try discriminate; injection Hn as <-; simpl in *; lia.
Qed.

(** ** Python values

    The values found in the provider's records: [None], booleans,
    integers, floats, strings and lists of integers.  A float is held by
    its [repr], which names it uniquely. *)

Inductive pyval : Type :=
  | PyNone
  | PyBool (b : bool)
  | PyInt (n : Z)
  | PyFloat (repr : string)
  | PyStr (s : string)
  | PyInts (l : list Z).

Global Instance pyval_eq_dec : EqDecision pyval.
Proof. solve_decision. Defined.

(** [str(n)] for an integer. *)
Definition str_int (n : Z) : string :=
  DecimalString.NilZero.string_of_int (Z.to_int n).

(** [sep.join(parts)]. *)
Fixpoint join (sep : string) (parts : list string) : string :=
  match parts with
  | [] => ""
  | [p] => p
  | p :: rest => p +:+ sep +:+ join sep rest
  end.

(** [bool(v)]: what an [if v] tests. *)
Definition truthy (v : pyval) : bool :=
  match v with
  | PyNone => false
  | PyBool b => b
  | PyInt n => negb (n =? 0)
  | PyFloat r => negb (String.eqb r "0.0" || String.eqb r "-0.0")
  | PyStr s => negb (String.eqb s "")
  | PyInts l => match l with [] => false | _ => true end
  end.

(** [str(v)], which is also what an f-string writes for [{v}]. *)
Definition py_str (v : pyval) : string :=
  match v with
  | PyNone => "None"
  | PyBool b => if b then "True" else "False"
  | PyInt n => str_int n
  | PyFloat r => r
  | PyStr s => s
  | PyInts l => "[" +:+ join ", " (map str_int l) +:+ "]"
  end.

(** The one-character strings of [s], as iterating over a string
    gives them. *)
Fixpoint chars (s : string) : list string :=
  match s with
  | EmptyString => []
  | String c rest => String c EmptyString :: chars rest
  end.

(** A raw record is a dictionary from field names to values;
    [m.get(k)] is [None] for a missing key. *)
Definition dict_get (m : gmap string pyval) (k : string) : pyval :=
  default PyNone (m !! k).

(** ** JSON documents of the checkpoint file

    Scalars and arrays of strings, and objects of these: the shape of
    the checkpoint and of the values that may stand in its place. *)

Inductive jval : Type :=
  | JNull
  | JBool (b : bool)
  | JInt (n : Z)
  | JStr (s : string)
  | JStrs (l : list string).

Inductive json : Type :=
  | JVal (v : jval)
  | JObj (d : gmap string jval).

Global Instance jval_eq_dec : EqDecision jval.
Proof. solve_decision. Defined.

Global Instance json_eq_dec : EqDecision json.
Proof. solve_decision. Defined.

(** ** Tables ([pandas.DataFrame])

    A table has ordered column names and rows of cells, one cell per
    column.  A missing cell (Python [None], pandas [NaN]) is [PyNone]. *)

Record frame : Type := mkframe {
  columns : list string;
  rows : list (list pyval)
}.

(** A row being built, as the dict literal of [normalize_to_df]: keys in
    the order written. *)
Definition row_dict : Type := list (string * pyval).

Fixpoint row_get (r : row_dict) (k : string) : pyval :=
  match r with
  | [] => PyNone
  | (k', v) :: rest => if String.eqb k' k then v else row_get rest k
  end.

(** Keys in order of first appearance. *)
Fixpoint first_seen (seen : list string) (ks : list string) : list string :=
  match ks with
  | [] => []
  | k :: rest =>
      if bool_decide (k ∈ seen) then first_seen seen rest
      else k :: first_seen (k :: seen) rest
  end.

(** [pd.DataFrame(rows)] for a list of dicts: the columns are the keys
    met, in order of first appearance; a row lacking a key has a missing
    cell there. *)
Definition DataFrame (ds : list row_dict) : frame :=
  let cols := first_seen [] (concat (map (map fst) ds)) in
  mkframe cols (map (fun d => map (row_get d) cols) ds).

(** The cell of a row under a column name. *)
Fixpoint cell (cols : list string) (r : list pyval) (c : string) : pyval :=
  match cols, r with
  | k :: cols', v :: r' => if String.eqb k c then v else cell cols' r' c
  | _, _ => PyNone
  end.

(** [df.reindex(columns=cols)]: exactly the columns [cols], in that
    order; a column the table did not have is filled with missing
    cells. *)
Definition reindex (cols : list string) (df : frame) : frame :=
  mkframe cols (map (fun r => map (cell (columns df) r) cols) (rows df)).

(** ** The remote API *)

(** A call of [SESSION.get(url, params=params, timeout=25)]. *)
Record request : Type := mkreq {
  req_url : string;
  req_params : gmap string pyval
}.

(** The JSON documents of the API, by the keys the pipeline reads; a key
    may be missing. *)
Record images_doc : Type := mkimages {
  secure_base_url : option string;
  base_url : option string;
  poster_sizes : option (list string)
}.

Record genre_doc : Type := mkgenre { g_id : Z; g_name : string }.

Record api_doc : Type := mkdoc {
  doc_images : option images_doc;
  doc_genres : option (list genre_doc);
  doc_total_pages : option Z;
  doc_results : option (list (gmap string pyval))
}.

(** A response: [resp.json()] gives [body], the parsed document or the
    exception of the decoder. *)
Record response : Type := mkresp {
  status_code : Z;
  headers : gmap string string;
  text : string;
  body : result api_doc
}.

(** What a call of [SESSION.get] comes to: a response, or a
    [requests.RequestException]. *)
Inductive http_event : Type :=
  | RequestException
  | Reply (resp : response).

(** ** The log *)

Inductive level : Type := DEBUG | INFO | WARNING | ERROR.

(** One constructor per logging call of the module, with its
    arguments. *)
Inductive log_record : Type :=
  | LogRequestError (attempt max_retries : Z) (wait : Q)
  | LogRateLimited (wait : Q) (attempt : Z)
  | LogServerError (status : Z) (wait : Q)
  | LogPageCap (total_pages : Z) (date_from date_to : string) (cap missed : Z)
  | LogCheckpointCorrupted
  | LogFetchingConfig
  | LogImageBase (image_base poster_size : pyval)
  | LogGenreSample
  | LogSkip (a b : string)
  | LogProcessing (a b : string)
  | LogRawItems (n : nat)
  | LogSavedPart (path : string) (n : nat)
  | LogErrorMonth (a b : string)
  | LogConcatenating
  | LogNoParts
  | LogFinalRows (n : nat)
  | LogSavedMaster (csv parquet : string).

Definition level_of (r : log_record) : level :=
  match r with
  | LogRequestError _ _ _ | LogRateLimited _ _ | LogServerError _ _
  | LogPageCap _ _ _ _ _ | LogCheckpointCorrupted | LogNoParts => WARNING
  | LogGenreSample => DEBUG
  | LogErrorMonth _ _ => ERROR
  | _ => INFO
  end.

(** ** The file system *)

(** What is found at a path. *)
Inductive node : Type :=
  | Directory
  | Denied                        (* a file this process may not open *)
  | Garbled                       (* a file whose bytes are not UTF-8 *)
  | Text (s : string)             (* text that is not a JSON document *)
  | JsonFile (d : json)           (* the text of a JSON document *)
  | ParquetFile (df : frame)
  | CsvFile (df : frame).

(** ** The world and the monad of effects *)

Record world : Type := mkworld {
  net : nat -> http_event;   (* what the n-th call of SESSION.get meets *)
  sent : list request;       (* the calls of SESSION.get so far *)
  slept : list Q;            (* the calls of time.sleep so far, in seconds *)
  logged : list log_record;  (* the log so far *)
  fs : gmap string node      (* the files *)
}.

Definition M (A : Type) : Type := world -> result A * world.

Global Instance M_ret : MRet M := fun A (a : A) w => (Ok a, w).

Global Instance M_bind : MBind M := fun A B (f : A -> M B) (m : M A) w =>
  match m w with
  | (Ok a, w') => f a w'
  | (Raise e, w') => (Raise e, w')
  end.

Definition raise {A : Type} (e : exn) : M A := fun w => (Raise e, w).

Definition lift {A : Type} (r : result A) : M A := fun w => (r, w).

(** [try: m except Exception: handler; raise]. *)
Definition on_exception {A : Type} (m : M A) (handler : M unit) : M A :=
  fun w =>
    match m w with
    | (Ok a, w') => (Ok a, w')
    | (Raise e, w') =>
        match handler w' with
        | (Ok _, w'') => (Raise e, w'')
        | (Raise e', w'') => (Raise e', w'')
        end
    end.

Global Instance result_ret : MRet result := fun A (a : A) => Ok a.

Global Instance result_bind : MBind result := fun A B (f : A -> result B) r =>
  match r with
  | Ok a => f a
  | Raise e => Raise e
  end.

Definition log (r : log_record) : M unit := fun w =>
  (Ok tt, mkworld (net w) (sent w) (slept w) (logged w ++ [r]) (fs w)).

(** [SESSION.get]: the call is recorded and meets the next event of the
    network. *)
Definition session_get (url : string) (params : gmap string pyval)
  : M http_event := fun w =>
  (Ok (net w (length (sent w))),
   mkworld (net w) (sent w ++ [mkreq url params]) (slept w) (logged w) (fs w)).

(** [time.sleep(secs)]: [ValueError] for a negative length. *)
Definition time_sleep (secs : Q) : M unit := fun w =>
  if Qle_bool 0 secs
  then (Ok tt, mkworld (net w) (sent w) (slept w ++ [secs]) (logged w) (fs w))
  else (Raise ValueError, w).

Definition get_fs : M (gmap string node) := fun w => (Ok (fs w), w).

Definition put_fs (f : gmap string node) : M unit := fun w =>
  (Ok tt, mkworld (net w) (sent w) (slept w) (logged w) f).

(** ** The pipeline of [src/movie.py] *)

Definition TMDB_MAX_PAGES : Z := 500.

Definition COLS : list string :=
  [ "tmdb_id"; "title"; "original_title"; "release_date"; "genres";
    "vote_average"; "vote_count"; "popularity"; "original_language";
    "overview"; "poster_url" ].

Definition BASE : string := "https://api.themoviedb.org/3".
Definition OUT_DIR : string := "tmdb_monthly_parts".
Definition CHECKPOINT_MONTHS : string := "tmdb_monthly_checkpoint.json".

Section Pipeline.

(** [pd.to_datetime(s).date()], with the exception it may raise. *)
Variable pd_to_datetime : string -> result date.

(** [int(s)] on a string; [None] when it raises. *)
Variable py_int : string -> option Z.

(** *** HTTP helper with retries *)

(** [backoff_base * (2 ** attempt)]. *)
Definition backoff (backoff_base : Q) (attempt : Z) : Q :=
  (backoff_base * inject_Z (2 ^ attempt))%Q.

(** The wait after a 429:
    [int(ra) if ra else backoff], and [backoff] when [int] raises. *)
Definition rate_limit_wait (resp : response) (backoff_base : Q) (attempt : Z) : Q :=
  match headers resp !! "Retry-After" with
  | None => backoff backoff_base attempt
  | Some ra =>
      if String.eqb ra "" then backoff backoff_base attempt
      else match py_int ra with
           | Some n => inject_Z n
           | None => backoff backoff_base attempt
           end
  end.

(** The body of [for attempt in range(max_retries)], over the attempts
    still to make. *)
Fixpoint safe_get_loop (url : string) (params : gmap string pyval)
    (max_retries : Z) (backoff_base : Q) (attempts : list Z) : M api_doc :=
  match attempts with
  | [] => raise (RuntimeError ("Max retries exceeded for " +:+ url))
  | attempt :: rest =>
      ev ← session_get url params;
      match ev with
      | RequestException =>
          let wait := backoff backoff_base attempt in
          log (LogRequestError (attempt + 1) max_retries wait);;
          time_sleep wait;;
          safe_get_loop url params max_retries backoff_base rest
      | Reply resp =>
          if status_code resp =? 200 then lift (body resp)
          else if status_code resp =? 429 then
            let wait := rate_limit_wait resp backoff_base attempt in
            log (LogRateLimited wait (attempt + 1));;
            time_sleep wait;;
            safe_get_loop url params max_retries backoff_base rest
          else if (500 <=? status_code resp) && (status_code resp <? 600) then
            let wait := backoff backoff_base attempt in
            log (LogServerError (status_code resp) wait);;
            time_sleep wait;;
            safe_get_loop url params max_retries backoff_base rest
          else
            raise (RuntimeError ("HTTP " +:+ str_int (status_code resp)
                                 +:+ " - " +:+ text resp))
      end
  end.

Definition safe_get (path : string) (params : gmap string pyval)
    (max_retries : Z) (backoff_base : Q) : M api_doc :=
  safe_get_loop (BASE +:+ path) params max_retries backoff_base
    (seqZ 0 max_retries).

(** The defaults of [safe_get]: [max_retries=6], [backoff_base=1.0]. *)
Definition safe_get_default (path : string) (params : gmap string pyval)
  : M api_doc := safe_get path params 6 1%Q.

(** *** TMDB helpers *)

Definition opt_str (o : option string) : pyval :=
  match o with Some s => PyStr s | None => PyNone end.

(** [a or b]. *)
Definition py_or (a b : pyval) : pyval := if truthy a then a else b.

Definition get_image_base_and_size : M (pyval * pyval) :=
  cfg ← safe_get_default "/configuration" ∅;
  let imgs := default (mkimages None None None) (doc_images cfg) in
  let base := py_or (opt_str (secure_base_url imgs)) (opt_str (base_url imgs)) in
  let sizes := default [] (poster_sizes imgs) in
  let size :=
    if bool_decide ("w500" ∈ sizes) then "w500"
    else match sizes with
         | [] => "original"
         | _ => nth (Nat.div (length sizes) 2) sizes "original"
         end in
  mret (base, PyStr size).

Definition get_genre_map (lang : string) : M (gmap Z string) :=
  j ← safe_get_default "/genre/movie/list" {[ "language" := PyStr lang ]};
  mret (foldl (fun (m : gmap Z string) g => <[g_id g := g_name g]> m)
          ∅ (default [] (doc_genres j))).

(** *** Discover (paged) *)

Definition discover_params (date_from date_to language : string)
    (min_votes : Z) : gmap string pyval :=
  <["page" := PyInt 1]>
  (<["include_adult" := PyStr "false"]>
  (<["sort_by" := PyStr "popularity.desc"]>
  (<["vote_count.gte" := PyInt min_votes]>
  (<["language" := PyStr language]>
  (<["primary_release_date.lte" := PyStr date_to]>
  (<["primary_release_date.gte" := PyStr date_from]> ∅)))))).

(** The loop over the pages 2..N. *)
Fixpoint discover_pages (params : gmap string pyval) (polite_sleep : Q)
    (pages : list Z) (movies : list (gmap string pyval))
  : M (list (gmap string pyval)) :=
  match pages with
  | [] => mret movies
  | p :: rest =>
      let params := <["page" := PyInt p]> params in
      j ← safe_get_default "/discover/movie" params;
      let movies := movies ++ default [] (doc_results j) in
      time_sleep polite_sleep;;
      discover_pages params polite_sleep rest movies
  end.

(** [if max_pages: total_pages = min(total_pages, max_pages)]. *)
Definition apply_max_pages (total_pages : Z) (max_pages : option Z) : Z :=
  match max_pages with
  | Some n => if n =? 0 then total_pages else Z.min total_pages n
  | None => total_pages
  end.

Definition discover_all (date_from date_to language : string) (min_votes : Z)
    (max_pages : option Z) (polite_sleep : Q) : M (list (gmap string pyval)) :=
  let params := discover_params date_from date_to language min_votes in
  first ← safe_get_default "/discover/movie" params;
  let total_pages := default 1 (doc_total_pages first) in
  total_pages ←
    (if TMDB_MAX_PAGES <? total_pages then
       let missed := (total_pages - TMDB_MAX_PAGES) * 20 in
       log (LogPageCap total_pages date_from date_to TMDB_MAX_PAGES missed);;
       mret TMDB_MAX_PAGES
     else mret total_pages);
  let total_pages := apply_max_pages total_pages max_pages in
  let movies := default [] (doc_results first) in
  if 2 <=? total_pages
  then discover_pages params polite_sleep (seqZ 2 (total_pages - 1)) movies
  else mret movies.


(** *** Normalize *)

(** Iterating over a value: the items of a list, the characters of a
    string, [TypeError] for a value that is not iterable. *)
Definition py_iter (v : pyval) : result (list pyval) :=
  match v with
  | PyInts l => Ok (map PyInt l)
  | PyStr s => Ok (map PyStr (chars s))
  | _ => Raise TypeError
  end.

(** [genres_map.get(gid, str(gid))] for an item of the iteration above:
    an integer is looked up, a string is no key of the map. *)
Definition genre_name (genres_map : gmap Z string) (gid : pyval) : string :=
  match gid with
  | PyInt n => default (str_int n) (genres_map !! n)
  | _ => py_str gid
  end.

Definition normalize_row (image_base poster_size : pyval)
    (genres_map : gmap Z string) (m : gmap string pyval) : result row_dict :=
  gids ← py_iter (default (PyInts []) (m !! "genre_ids"));
  let genre_names := map (genre_name genres_map) gids in
  let poster_path := dict_get m "poster_path" in
  let poster_url :=
    if truthy poster_path
    then PyStr (py_str image_base +:+ py_str poster_size +:+ py_str poster_path)
    else PyNone in
  mret [ ("tmdb_id", dict_get m "id");
         ("title", dict_get m "title");
         ("original_title", dict_get m "original_title");
         ("release_date", dict_get m "release_date");
         ("genres", PyStr (join "|" genre_names));
         ("vote_average", dict_get m "vote_average");
         ("vote_count", dict_get m "vote_count");
         ("popularity", dict_get m "popularity");
         ("original_language", dict_get m "original_language");
         ("overview", dict_get m "overview");
         ("poster_url", poster_url) ].

(** The loop [for m in raw_movies: ... rows.append(...)]. *)
Fixpoint normalize_rows (image_base poster_size : pyval)
    (genres_map : gmap Z string) (raw_movies : list (gmap string pyval))
    (rows : list row_dict) : result (list row_dict) :=
  match raw_movies with
  | [] => Ok rows
  | m :: rest =>
      r ← normalize_row image_base poster_size genres_map m;
      normalize_rows image_base poster_size genres_map rest (rows ++ [r])
  end.

Definition normalize_to_df (raw_movies : list (gmap string pyval))
    (image_base poster_size : pyval) (genres_map : gmap Z string)
  : result frame :=
  rows ← normalize_rows image_base poster_size genres_map raw_movies [];
  mret (reindex COLS (DataFrame rows)).

(** [df.drop_duplicates(subset=[c]).reset_index(drop=True)]: the first
    row of each value of column [c] is kept. *)
Fixpoint keep_first (cols : list string) (c : string) (seen : list pyval)
    (rs : list (list pyval)) : list (list pyval) :=
  match rs with
  | [] => []
  | r :: rest =>
      let k := cell cols r c in
      if bool_decide (k ∈ seen) then keep_first cols c seen rest
      else r :: keep_first cols c (k :: seen) rest
  end.

Definition drop_duplicates (c : string) (df : frame) : result frame :=
  if bool_decide (c ∈ columns df)
  then Ok (mkframe (columns df) (keep_first (columns df) c [] (rows df)))
  else Raise KeyError.

(** [pd.concat(dfs, ignore_index=True)]. *)
Definition pd_concat (dfs : list frame) : frame :=
  let cols := first_seen [] (concat (map columns dfs)) in
  mkframe cols (concat (map (fun df => rows (reindex cols df)) dfs)).

(** *** Files *)

(** [open(path, "w")] and the writing of a whole file. *)
Definition write_file (path : string) (content : node) : M unit :=
  f ← get_fs;
  match f !! path with
  | Some Directory | Some Denied => raise OSError
  | _ => put_fs (<[path := content]> f)
  end.

(** [src.replace(dst)]: the file at [src] takes the place of whatever
    was at [dst], in one step; a directory at [dst] refuses it. *)
Definition path_replace (src dst : string) : M unit :=
  f ← get_fs;
  match f !! src with
  | None => raise OSError
  | Some n =>
      match f !! dst with
      | Some Directory => raise OSError
      | _ => put_fs (<[dst := n]> (delete src f))
      end
  end.

(** Reading a file as [json.load(open(path, "r", encoding="utf-8"))]. *)
Definition read_json (n : node) : result json :=
  match n with
  | Directory | Denied => Raise OSError
  | Garbled | ParquetFile _ => Raise UnicodeDecodeError
  | Text _ | CsvFile _ => Raise JSONDecodeError
  | JsonFile d => Ok d
  end.

(** [pd.read_parquet(path)]. *)
Definition read_parquet (path : string) : M frame :=
  f ← get_fs;
  match f !! path with
  | Some (ParquetFile df) => mret df
  | Some Directory | Some Denied | None => raise OSError
  | Some _ => raise ArrowInvalid
  end.

(** *** Checkpoint helpers *)

Definition empty_checkpoint : json := JObj {[ "done_months" := JStrs [] ]}.

Definition save_checkpoint (d : json) : M unit :=
  let tmp := CHECKPOINT_MONTHS +:+ ".tmp" in
  write_file tmp (JsonFile d);;
  path_replace tmp CHECKPOINT_MONTHS.

Definition load_checkpoint : M json :=
  f ← get_fs;
  match f !! CHECKPOINT_MONTHS with
  | None => mret empty_checkpoint
  | Some n =>
      match read_json n with
      | Ok d => mret d
      | Raise JSONDecodeError | Raise OSError =>
          log LogCheckpointCorrupted;; mret empty_checkpoint
      | Raise e => raise e
      end
  end.

Definition part_filename (start end_ : string) : string :=
  OUT_DIR +:+ "/" +:+ "tmdb_" +:+ start +:+ "_to_" +:+ end_ +:+ ".parquet".

(** *** Date partitioning *)

Definition month_ranges (start_date_str end_date_str : string)
  : result (list (string * string)) :=
  s ← pd_to_datetime start_date_str;
  e ← pd_to_datetime end_date_str;
  cur ← make_date (year s) (month s) 1;
  month_ranges_loop cur e [].

(** *** Dynamic output paths *)

Definition master_paths (start end_ : string) : string * string :=
  let year_from := substring 0 4 start in
  let year_to := substring 0 4 end_ in
  let suffix :=
    if String.eqb year_from year_to then year_from
    else year_from +:+ "-" +:+ year_to in
  ("tmdb_movies_" +:+ suffix +:+ ".csv",
   "tmdb_movies_" +:+ suffix +:+ ".parquet").

(** *** Monthly backfill runner *)

(** [sorted(done)]: strings in code point order. *)
Definition sorted_strings (X : gset string) : list string :=
  merge_sort (fun a b : string => String.leb a b) (elements X).

(** [set(cp.get("done_months", []))]: [cp] has to be a dict, and the
    value an iterable. *)
Definition done_months_of (cp : json) : result (gset string) :=
  match cp with
  | JVal _ => Raise AttributeError
  | JObj d =>
      match d !! "done_months" with
      | None => Ok ∅
      | Some (JStrs l) => Ok (list_to_set l)
      | Some (JStr s) => Ok (list_to_set (chars s))
      | Some _ => Raise TypeError
      end
  end.

(** [df.to_parquet(path, index=False)] and [df.to_csv(path, ...)]. *)
Definition to_parquet (df : frame) (path : string) : M unit :=
  write_file path (ParquetFile df).

Definition to_csv (df : frame) (path : string) : M unit :=
  write_file path (CsvFile df).

(** The key of a window in the checkpoint: [f"{a}_{b}"]. *)
Definition window_key (a b : string) : string := a +:+ "_" +:+ b.

(** What the run needs in the loop over the windows. *)
Record run_config : Type := mkconfig {
  language : string;
  min_votes : Z;
  max_pages : option Z;
  image_base : pyval;
  poster_size : pyval;
  genres_map : gmap Z string
}.

(** The body of the [try] of one window. *)
Definition process_window (cfg : run_config) (a b : string)
    (done : gset string) : M (gset string) :=
  raw ← discover_all a b (language cfg) (min_votes cfg) (max_pages cfg)
          (8 # 100)%Q;
  log (LogRawItems (length raw));;
  df_part ←
    match raw with
    | [] => mret (mkframe COLS [])
    | _ =>
        df ← lift (normalize_to_df raw (image_base cfg) (poster_size cfg)
                     (genres_map cfg));
        lift (drop_duplicates "tmdb_id" df)
    end;
  let outp := part_filename a b in
  to_parquet df_part outp;;
  log (LogSavedPart outp (length (rows df_part)));;
  let done := {[ window_key a b ]} ∪ done in
  save_checkpoint (JObj {[ "done_months" := JStrs (sorted_strings done) ]});;
  mret done.

(** [for a, b in ranges: ...]. *)
Fixpoint backfill_loop (cfg : run_config) (ranges : list (string * string))
    (done : gset string) : M (gset string) :=
  match ranges with
  | [] => mret done
  | (a, b) :: rest =>
      if bool_decide (window_key a b ∈ done) then
        log (LogSkip a b);;
        backfill_loop cfg rest done
      else
        log (LogProcessing a b);;
        done ← on_exception (process_window cfg a b done)
                  (log (LogErrorMonth a b));
        backfill_loop cfg rest done
  end.

(** [OUT_DIR.glob("tmdb_*.parquet")]: the names in [OUT_DIR] that begin
    with "tmdb_" and end with ".parquet". *)
Fixpoint drop_prefix (pre s : string) : option string :=
  match pre, s with
  | EmptyString, _ => Some s
  | String a pre', String b s' =>
      if Ascii.eqb a b then drop_prefix pre' s' else None
  | _, EmptyString => None
  end.

Fixpoint ends_with (suf s : string) : bool :=
  String.eqb suf s
  || match s with
     | EmptyString => false
     | String _ s' => ends_with suf s'
     end.

Fixpoint has_slash (s : string) : bool :=
  match s with
  | EmptyString => false
  | String c s' => Ascii.eqb c "/" || has_slash s'
  end.

Definition is_part (path : string) : bool :=
  match drop_prefix (OUT_DIR +:+ "/tmdb_") path with
  | Some rest => ends_with ".parquet" rest && negb (has_slash rest)
  | None => false
  end.

Definition glob_parts (f : gmap string node) : list string :=
  filter (fun p => is_part p = true) (elements (dom f)).

Fixpoint read_all (paths : list string) : M (list frame) :=
  match paths with
  | [] => mret []
  | p :: rest =>
      df ← read_parquet p;
      dfs ← read_all rest;
      mret (df :: dfs)
  end.

(** The concatenation of the monthly parts into the master files. *)
Definition merge_parts (master_csv master_parquet : string) : M unit :=
  log LogConcatenating;;
  f ← get_fs;
  let parts := merge_sort (fun a b : string => String.leb a b) (glob_parts f) in
  match parts with
  | [] => log LogNoParts
  | _ =>
      dfs ← read_all parts;
      df ← lift (drop_duplicates "tmdb_id" (pd_concat dfs));
      log (LogFinalRows (length (rows df)));;
      to_csv df master_csv;;
      to_parquet df master_parquet;;
      log (LogSavedMaster master_csv master_parquet)
  end.

(** What [run_monthly_backfill] does before its loop: configuration and
    genres, the windows and the checkpoint. *)
Definition backfill_setup (start end_ language : string) (min_votes : Z)
    (max_pages : option Z)
  : M (run_config * list (string * string) * gset string) :=
  log LogFetchingConfig;;
  base_size ← get_image_base_and_size;
  genres_map ← get_genre_map language;
  log (LogImageBase base_size.1 base_size.2);;
  log LogGenreSample;;
  ranges ← lift (month_ranges start end_);
  cp ← load_checkpoint;
  done ← lift (done_months_of cp);
  mret (mkconfig language min_votes max_pages base_size.1 base_size.2
          genres_map, ranges, done).

Definition run_monthly_backfill (start end_ language : string)
    (min_votes : Z) (max_pages : option Z) : M unit :=
  st ← backfill_setup start end_ language min_votes max_pages;
  let master := master_paths start end_ in
  backfill_loop st.1.1 st.1.2 st.2;;
  merge_parts master.1 master.2.

End Pipeline.

(** ** Instances of the library functions, for running the model *)

(** [pd.to_datetime] on the documented input format YYYY-MM-DD: the
    date has to exist and to lie within the range of a [Timestamp]
    (1677-09-22 to 2262-04-11). *)
Definition digit_value (c : ascii) : option Z :=
  let n := Z.of_nat (nat_of_ascii c) in
  if (48 <=? n) && (n <=? 57) then Some (n - 48) else None.

Definition parse_iso (s : string) : result date :=
  match s with
  | String y1 (String y2 (String y3 (String y4 (String s1
      (String m1 (String m2 (String s2
        (String d1 (String d2 EmptyString))))))))) =>
      match digit_value y1, digit_value y2, digit_value y3, digit_value y4,
            digit_value m1, digit_value m2, digit_value d1, digit_value d2 with
      | Some a, Some b, Some c, Some d, Some e, Some f, Some g, Some h =>
          if Ascii.eqb s1 "-" && Ascii.eqb s2 "-" then
            day ← make_date (1000 * a + 100 * b + 10 * c + d) (10 * e + f)
                    (10 * g + h);
            if date_leb (mkdate 1677 9 22) day && date_leb day (mkdate 2262 4 11)
            then Ok day
            else Raise ValueError
          else Raise ValueError
      | _, _, _, _, _, _, _, _ => Raise ValueError
      end
  | _ => Raise ValueError
  end.

(** [int] on plain decimal numerals. *)
Definition int_of_decimal (s : string) : option Z :=
  Z.of_int <$> NilZero.int_of_string s.

(** ** Vocabulary of the specification *)

(** The record's [genre_ids], when present, can be iterated over. *)
Definition genre_ids_iterable (m : gmap string pyval) : Prop :=
  match m !! "genre_ids" with
  | Some v => exists items, py_iter v = Ok items
  | None => True
  end.

(** The raw fields copied as they are, each with its column. *)
Definition passed_through : list (string * string) :=
  [ ("id", "tmdb_id"); ("title", "title");
    ("original_title", "original_title"); ("release_date", "release_date");
    ("vote_average", "vote_average"); ("vote_count", "vote_count");
    ("popularity", "popularity"); ("original_language", "original_language");
    ("overview", "overview") ].

(** Genre resolution in the words of the specification: a known code is
    its mapped name, an unknown code its decimal string... *)
Definition render_genre (genres_map : gmap Z string) (code : Z) : string :=
  match genres_map !! code with
  | Some name => name
  | None => str_int code
  end.

(** ... no code gives the empty string, and several are joined by "|"
    in the order of the list. *)
Fixpoint pipe_joined (names : list string) : string :=
  match names with
  | [] => ""
  | n :: rest =>
      match rest with
      | [] => n
      | _ :: _ => n +:+ "|" +:+ pipe_joined rest
      end
  end.

(** ** Sample data, for running the model *)

(** The raw record of the test suite. *)
Definition sample_movie : gmap string pyval :=
  list_to_map
    [ ("id", PyInt 1); ("title", PyStr "Test Movie");
      ("original_title", PyStr "Test Movie OT");
      ("release_date", PyStr "2023-06-15"); ("genre_ids", PyInts [28; 9999]);
      ("vote_average", PyFloat "7.5"); ("vote_count", PyInt 1000);
      ("popularity", PyFloat "120.5"); ("original_language", PyStr "en");
      ("overview", PyStr "A test movie."); ("poster_path", PyStr "/abc123.jpg") ].

Definition sample_genres : gmap Z string :=
  list_to_map [ (28, "Action"); (35, "Comedy") ].

(** The row of the table for [sample_movie], and for the same record
    with an empty poster path. *)
Definition sample_row : list pyval :=
  [ PyInt 1; PyStr "Test Movie"; PyStr "Test Movie OT"; PyStr "2023-06-15";
    PyStr "Action|9999"; PyFloat "7.5"; PyInt 1000; PyFloat "120.5";
    PyStr "en"; PyStr "A test movie."; PyStr "https://cdn/w500/abc123.jpg" ].

Definition sample_movie_no_poster : gmap string pyval :=
  <["poster_path" := PyStr ""]> sample_movie.

Definition sample_row_no_poster : list pyval :=
  [ PyInt 1; PyStr "Test Movie"; PyStr "Test Movie OT"; PyStr "2023-06-15";
    PyStr "Action|9999"; PyFloat "7.5"; PyInt 1000; PyFloat "120.5";
    PyStr "en"; PyStr "A test movie."; PyNone ].

(** *** Vocabulary for the retrying fetcher *)

Section FetcherVocabulary.

Variable py_int : string -> option Z.

(** The failures the fetcher absorbs: a transport exception, HTTP 429,
    HTTP 5xx. *)
Definition retryable (ev : http_event) : bool :=
  match ev with
  | RequestException => true
  | Reply resp =>
      (status_code resp =? 429)
      || ((500 <=? status_code resp) && (status_code resp <? 600))
  end.

(** The integer the [Retry-After] header parses as, if any. *)
Definition retry_after (resp : response) : option Z :=
  headers resp !! "Retry-After" ≫= py_int.

(** The wait before the next attempt: [base * 2^attempt], except on a
    429 whose [Retry-After] parses as an integer, where it is that
    integer. *)
Definition retry_wait (backoff_base : Q) (attempt : Z) (ev : http_event) : Q :=
  match ev with
  | RequestException => backoff backoff_base attempt
  | Reply resp =>
      if status_code resp =? 429 then
        match retry_after resp with
        | Some n => inject_Z n
        | None => backoff backoff_base attempt
        end
      else backoff backoff_base attempt
  end.

(** The attempt is followed by another one: its event is retryable and
    [time.sleep] takes the wait (it is not negative). *)
Definition retried (backoff_base : Q) (attempt : Z) (ev : http_event) : Prop :=
  retryable ev = true /\ Qle_bool 0 (retry_wait backoff_base attempt ev) = true.

(** The warning logged before the wait. *)
Definition retry_record (max_retries : Z) (backoff_base : Q) (attempt : Z)
    (ev : http_event) : log_record :=
  match ev with
  | RequestException =>
      LogRequestError (attempt + 1) max_retries (retry_wait backoff_base attempt ev)
  | Reply resp =>
      if status_code resp =? 429
      then LogRateLimited (retry_wait backoff_base attempt ev) (attempt + 1)
      else LogServerError (status_code resp) (retry_wait backoff_base attempt ev)
  end.

(** The event that the [i]-th call of [SESSION.get] from now meets. *)
Definition event_at (w : world) (i : nat) : http_event :=
  net w (length (sent w) + i)%nat.

(** The world after one retried attempt, and after [k] of them from
    attempt number [attempt] on. *)
Definition after_retry (url : string) (params : gmap string pyval)
    (max_retries : Z) (backoff_base : Q) (attempt : Z) (w : world) : world :=
  mkworld (net w) (sent w ++ [mkreq url params])
    (slept w ++ [retry_wait backoff_base attempt (event_at w 0)])
    (logged w ++ [retry_record max_retries backoff_base attempt (event_at w 0)])
    (fs w).

Fixpoint after_retries (url : string) (params : gmap string pyval)
    (max_retries : Z) (backoff_base : Q) (k : nat) (attempt : Z) (w : world)
  : world :=
  match k with
  | O => w
  | S k' =>
      after_retries url params max_retries backoff_base k' (attempt + 1)
        (after_retry url params max_retries backoff_base attempt w)
  end.

(** The world once the call of an attempt is made. *)
Definition called (url : string) (params : gmap string pyval) (w : world)
  : world :=
  mkworld (net w) (sent w ++ [mkreq url params]) (slept w) (logged w) (fs w).

(** The world when [time.sleep] refuses a negative wait. *)
Definition refused (url : string) (params : gmap string pyval)
    (max_retries : Z) (backoff_base : Q) (attempt : Z) (w : world) : world :=
  mkworld (net w) (sent w ++ [mkreq url params]) (slept w)
    (logged w ++ [retry_record max_retries backoff_base attempt (event_at w 0)])
    (fs w).

(** The outcomes of the loop over [n] attempts numbered from [attempt]:
    after [j] retried attempts it runs out of attempts, or meets a 200,
    or a status that is not retried, or a wait that [time.sleep]
    refuses. *)
Inductive loop_outcome (url : string) (params : gmap string pyval)
    (max_retries : Z) (backoff_base : Q) (n : nat) (attempt : Z) (w : world)
  : result api_doc * world -> Prop :=
  | Exhausted :
      (forall i, (i < n)%nat ->
         retried backoff_base (attempt + Z.of_nat i) (event_at w i)) ->
      loop_outcome url params max_retries backoff_base n attempt w
        (Raise (RuntimeError ("Max retries exceeded for " +:+ url)),
         after_retries url params max_retries backoff_base n attempt w)
  | Answered (j : nat) (resp : response) :
      (j < n)%nat ->
      (forall i, (i < j)%nat ->
         retried backoff_base (attempt + Z.of_nat i) (event_at w i)) ->
      event_at w j = Reply resp -> status_code resp = 200 ->
      loop_outcome url params max_retries backoff_base n attempt w
        (body resp,
         called url params
           (after_retries url params max_retries backoff_base j attempt w))
  | Rejected (j : nat) (resp : response) :
      (j < n)%nat ->
      (forall i, (i < j)%nat ->
         retried backoff_base (attempt + Z.of_nat i) (event_at w i)) ->
      event_at w j = Reply resp -> retryable (Reply resp) = false ->
      status_code resp <> 200 ->
      loop_outcome url params max_retries backoff_base n attempt w
        (Raise (RuntimeError ("HTTP " +:+ str_int (status_code resp) +:+ " - "
                              +:+ text resp)),
         called url params
           (after_retries url params max_retries backoff_base j attempt w))
  | SleepRefused (j : nat) :
      (j < n)%nat ->
      (forall i, (i < j)%nat ->
         retried backoff_base (attempt + Z.of_nat i) (event_at w i)) ->
      retryable (event_at w j) = true ->
      Qle_bool 0 (retry_wait backoff_base (attempt + Z.of_nat j) (event_at w j))
        = false ->
      loop_outcome url params max_retries backoff_base n attempt w
        (Raise ValueError,
         refused url params max_retries backoff_base (attempt + Z.of_nat j)
           (after_retries url params max_retries backoff_base j attempt w)).

End FetcherVocabulary.

Definition sample_doc : api_doc :=
  mkdoc None None (Some 1) (Some [sample_movie]).

(** A network that fails three times before it answers: a transport
    error, a 429 asking for 3 seconds, a 503, then the document. *)
Definition flaky_net (i : nat) : http_event :=
  match i with
  | 0%nat => RequestException
  | 1%nat =>
      Reply (mkresp 429 {[ "Retry-After" := "3" ]} "slow down"
               (Raise JSONDecodeError))
  | 2%nat => Reply (mkresp 503 ∅ "unavailable" (Raise JSONDecodeError))
  | _ => Reply (mkresp 200 ∅ "{}" (Ok sample_doc))
  end.

Definition flaky_world : world := mkworld flaky_net [] [] [] ∅.

(** The records that the fetching of pages writes to the log. *)
Definition fetch_record (r : log_record) : bool :=
  match r with
  | LogRequestError _ _ _ | LogRateLimited _ _ | LogServerError _ _
  | LogPageCap _ _ _ _ _ => true
  | _ => false
  end.

(** The page numbers asked for by a list of requests. *)
Definition requested_pages (reqs : list request) : list Z :=
  omap (fun r => match req_params r !! "page" with
                 | Some (PyInt p) => Some p
                 | _ => None
                 end) reqs.

(** The number of pages to fetch, in the words of the specification as
    amended: the reported total, capped at 500 and at [max_pages] when
    one is supplied and is not 0, and never less than the first page. *)
Definition effective_pages (total_pages : Z) (max_pages : option Z) : Z :=
  let capped := Z.min total_pages TMDB_MAX_PAGES in
  let limited :=
    match max_pages with
    | Some n => if n =? 0 then capped else Z.min capped n
    | None => capped
    end in
  Z.max 1 limited.

(** A network that always answers with an empty page out of
    [total_pages], and the world that starts on it. *)
Definition page_doc (total_pages : Z) : api_doc :=
  mkdoc None None (Some total_pages) (Some []).

Definition steady_net (total_pages : Z) : nat -> http_event :=
  fun _ => Reply (mkresp 200 ∅ "{}" (Ok (page_doc total_pages))).

Definition steady_world (total_pages : Z) : world :=
  mkworld (steady_net total_pages) [] [] [] ∅.

(** *** Vocabulary for the run *)

(** The windows that a stretch of the log reports as skipped, and as
    taken up for processing. *)
Definition skipped (lg : list log_record) : list (string * string) :=
  omap (fun r => match r with LogSkip a b => Some (a, b) | _ => None end) lg.

Definition processed (lg : list log_record) : list (string * string) :=
  omap (fun r => match r with LogProcessing a b => Some (a, b) | _ => None end) lg.

(** The records written while one window is processed. *)
Definition inner_record (r : log_record) : bool :=
  match r with
  | LogSkip _ _ | LogProcessing _ _ => false
  | _ => true
  end.

(** What [load_checkpoint] returns, as a function of the files. *)
Definition checkpoint_of (f : gmap string node) : result json :=
  match f !! CHECKPOINT_MONTHS with
  | None => Ok empty_checkpoint
  | Some n =>
      match read_json n with
      | Ok d => Ok d
      | Raise JSONDecodeError | Raise OSError => Ok empty_checkpoint
      | Raise e => Raise e
      end
  end.

(** The set of done windows that a run would start from, given the
    files: those listed by the checkpoint on disk. *)
Definition done_on_disk (f : gmap string node) : result (gset string) :=
  checkpoint_of f ≫= done_months_of.

Definition key_of (w : string * string) : string := window_key w.1 w.2.

(** A step that moves only the network side of the world and logs only
    records for which [P] holds. *)
Definition quiet (P : log_record -> bool) (w w' : world) : Prop :=
  net w' = net w /\ fs w' = fs w
  /\ exists lg, logged w' = logged w ++ lg /\ Forall (fun r => P r = true) lg.

(** The world with one more record in its log. *)
Definition logging (r : log_record) (w : world) : world :=
  mkworld (net w) (sent w) (slept w) (logged w ++ [r]) (fs w).

(** A run resumed after January 2023 was done, on a network that
    answers three calls and then fails with a 404. *)
Definition outage_net (i : nat) : http_event :=
  match i with
  | 0%nat | 1%nat | 2%nat => Reply (mkresp 200 ∅ "{}" (Ok sample_doc))
  | _ => Reply (mkresp 404 ∅ "not found" (Raise JSONDecodeError))
  end.

Definition resumed_files : gmap string node :=
  {[ CHECKPOINT_MONTHS :=
       JsonFile (JObj {[ "done_months" := JStrs ["2023-01-01_2023-01-31"] ]}) ]}.

Definition outage_world : world := mkworld outage_net [] [] [] resumed_files.

(** A run over two windows, across a year boundary. *)
Definition two_year_run : result unit * world :=
  run_monthly_backfill parse_iso int_of_decimal "2022-12-01" "2023-01-31"
    "en-US" 0 None (steady_world 1).

(** *** Vocabulary for the windows: intervals of day numbers *)

(** [tiles ws lo hi]: the windows of [ws], in order, are non-empty,
    follow one another without gap and make up the days [lo..hi]. *)
Fixpoint tiles (ws : list window) (lo hi : Z) : Prop :=
  match ws with
  | [] => hi < lo
  | w :: rest =>
      toordinal (fst w) = lo /\ lo <= toordinal (snd w) <= hi
      /\ tiles rest (toordinal (snd w) + 1) hi
  end.

(** Day [n] lies in one of the windows. *)
Definition covered (ws : list window) (n : Z) : Prop :=
  exists w, w ∈ ws /\ toordinal (fst w) <= n <= toordinal (snd w).

(** Each window begins the day after the previous one ends. *)
Definition contiguous (ws : list window) : Prop :=
  forall (i : nat) a b,
    ws !! i = Some a -> ws !! S i = Some b ->
    toordinal (fst b) = toordinal (snd a) + 1.

(** A later window begins after an earlier one has ended. *)
Definition non_overlapping (ws : list window) : Prop :=
  forall (i j : nat) a b,
    (i < j)%nat -> ws !! i = Some a -> ws !! j = Some b ->
    toordinal (snd a) < toordinal (fst b).

(** *** Vocabulary for the checkpoint store *)

(** The temporary file of [save_checkpoint]. *)
Definition TMP : string := CHECKPOINT_MONTHS +:+ ".tmp".

(** [save_checkpoint] can write: nothing bars the temporary path from
    being opened for writing, and the checkpoint path is no directory. *)
Definition checkpoint_writable (f : gmap string node) : Prop :=
  f !! TMP <> Some Directory /\ f !! TMP <> Some Denied
  /\ f !! CHECKPOINT_MONTHS <> Some Directory.

(** The world after a warning that the checkpoint is corrupted. *)
Definition warned (w : world) : world :=
  mkworld (net w) (sent w) (slept w) (logged w ++ [LogCheckpointCorrupted]) (fs w).

(** A fresh world over the files [f]: nothing sent, slept or logged yet,
    and a network on which every call fails. *)
Definition world_with_files (f : gmap string node) : world :=
  mkworld (fun _ => RequestException) [] [] [] f.

(** *** Vocabulary for the paginator *)

(** The world after the warning about the page cap. *)
Definition cap_warned (total_pages : Z) (date_from date_to : string) (w : world)
  : world :=
  mkworld (net w) (sent w) (slept w)
    (logged w ++ [LogPageCap total_pages date_from date_to TMDB_MAX_PAGES
                    ((total_pages - TMDB_MAX_PAGES) * 20)])
    (fs w).

(** The rest of [discover_all] once the number of pages is settled. *)
Definition fetch_rest (py_int : string -> option Z) (params : gmap string pyval)
    (polite_sleep : Q) (first : api_doc) (pages : Z)
  : M (list (gmap string pyval)) :=
  if 2 <=? pages
  then discover_pages py_int params polite_sleep (seqZ 2 (pages - 1))
         (default [] (doc_results first))
  else mret (default [] (doc_results first)).

(** *** Vocabulary for tables *)

(** The cells of a table under one column name, row by row. *)
Definition column (df : frame) (c : string) : list pyval :=
  map (fun r => cell (columns df) r c) (rows df).

(** The keys that [normalize_to_df] reads in a raw record. *)
Definition source_keys : list string :=
  [ "id"; "title"; "original_title"; "release_date"; "genre_ids";
    "vote_average"; "vote_count"; "popularity"; "original_language";
    "overview"; "poster_path" ].

(** The test record with a null [genre_ids]. *)
Definition sample_movie_null_genres : gmap string pyval :=
  <["genre_ids" := PyNone]> sample_movie.

(** The test record with fields that the schema does not know. *)
Definition sample_movie_more_fields : gmap string pyval :=
  <["adult" := PyBool false]> (<["backdrop_path" := PyStr "/x.jpg"]> sample_movie).

(** *** Vocabulary for the TMDB helpers *)

(** The images part of a configuration document, empty when the
    document has none ([cfg.get("images", {})]). *)
Definition images_of (cfg : api_doc) : images_doc :=
  default (mkimages None None None) (doc_images cfg).

(** A configuration that offers sizes but no "w500", and a genre list
    that names one code twice. *)
Definition sizes_doc : api_doc :=
  mkdoc (Some (mkimages (Some "https://cdn/") None
                 (Some ["w92"; "w154"; "w185"; "w342"; "original"])))
    None None None.

Definition genres_doc : api_doc :=
  mkdoc None (Some [mkgenre 28 "Action"; mkgenre 35 "Comedy"; mkgenre 28 "Aksiyon"])
    None None.

Definition answering (doc : api_doc) : world :=
  mkworld (fun _ => Reply (mkresp 200 ∅ "{}" (Ok doc))) [] [] [] ∅.

(** A store whose checkpoint path is taken by a directory, and one whose
    checkpoint file holds bytes that are not UTF-8. *)
Definition blocked_files : gmap string node :=
  {[ CHECKPOINT_MONTHS := Directory ]}.

Definition garbled_files : gmap string node :=
  {[ CHECKPOINT_MONTHS := Garbled ]}.

(** *** Vocabulary for effects *)

(** A computation that leaves the files alone, whatever it returns. *)
Definition keeps_fs {A : Type} (m : M A) : Prop :=
  forall w r w', m w = (r, w') -> fs w' = fs w.

(** A store whose checkpoint file holds the JSON document [[]], which is
    no checkpoint. *)
Definition list_checkpoint_files : gmap string node :=
  {[ CHECKPOINT_MONTHS := JsonFile (JVal (JStrs [])) ]}.

(** The run over December 2022 and January 2023 once more, on the files
    that the first run left. *)
Definition two_year_rerun_world : world :=
  mkworld (steady_net 1) [] [] [] (fs two_year_run.2).

(** The values that a list of raw records carries under [id]. *)
Definition raw_ids (raw : list (gmap string pyval)) : list pyval :=
  map (fun m => dict_get m "id") raw.

(** A record like the test record under another [id], and a network
    that answers every call with a page of three records, two of them
    with the same [id]. *)
Definition movie_with_id (n : Z) : gmap string pyval :=
  <["id" := PyInt n]> sample_movie.

Definition repeating_doc : api_doc :=
  mkdoc None None (Some 1)
    (Some [movie_with_id 7; movie_with_id 8; movie_with_id 7]).

Definition repeating_world : world := answering repeating_doc.


(** The configuration that the run draws from [repeating_world]. *)
Definition plain_config : run_config :=
  mkconfig "en-US" 0 None PyNone (PyStr "original") ∅.

(** *** Vocabulary for the windows: months by number *)

(** The months of the calendar counted in one row: month [m] of year
    [y] has the number [12 * y + (m - 1)]. *)
Definition month_number (d : date) : Z := 12 * year d + (month d - 1).

(** The first and the last day of the month of a given number. *)
Definition month_first (i : Z) : date := mkdate (i / 12) (i mod 12 + 1) 1.

Definition month_last (i : Z) : date :=
  mkdate (i / 12) (i mod 12 + 1) (days_in_month (i / 12) (i mod 12 + 1)).

(** The window of the month of number [i] in a partition that ends on
    [e]: the whole month, cut at [e]. *)
Definition month_window (e : date) (i : Z) : window :=
  (month_first i, date_min (month_last i) e).

(** *** Vocabulary for the waits of the fetcher *)

(** The sum of a list of waits, in seconds. *)
Definition total_wait (waits : list Q) : Q := fold_right Qplus 0%Q waits.

(** A network on which every call fails in transport, one that always
    answers 429 with a negative [Retry-After], and one that answers 200
    with a body that is no JSON. *)
Definition dead_world : world := world_with_files ∅.

Definition hostile_world : world :=
  mkworld (fun _ => Reply (mkresp 429 {[ "Retry-After" := "-1" ]} "slow down"
                            (Raise JSONDecodeError))) [] [] [] ∅.

Definition html_world : world :=
  mkworld (fun _ => Reply (mkresp 200 ∅ "<html>" (Raise JSONDecodeError)))
    [] [] [] ∅.

(** *** Vocabulary for a fetch without failures *)

(** The call [i] from now is answered by a 200 whose body parses as
    [doc]. *)
Definition answers (w : world) (i : nat) (doc : api_doc) : Prop :=
  exists resp, event_at w i = Reply resp /\ status_code resp = 200
               /\ body resp = Ok doc.

(** The request of [discover_all] for one page. *)
Definition page_request (params : gmap string pyval) (p : Z) : request :=
  mkreq (BASE +:+ "/discover/movie") (<["page" := PyInt p]> params).

(** The records of a page. *)
Definition results_of (doc : api_doc) : list (gmap string pyval) :=
  default [] (doc_results doc).

(** A catalogue of three pages: page [i] holds one record, of id [i]. *)
Definition catalogue_page (i : nat) : api_doc :=
  mkdoc None None (Some 3) (Some [movie_with_id (Z.of_nat i + 1)]).

Definition catalogue_world : world :=
  mkworld (fun i => Reply (mkresp 200 ∅ "{}" (Ok (catalogue_page i)))) [] [] [] ∅.

(** A computation that changes no path outside of [S], whatever it
    returns. *)
Definition touches {A : Type} (S : string -> Prop) (m : M A) : Prop :=
  forall w r w', m w = (r, w') ->
    forall p, ~ S p -> fs w' !! p = fs w !! p.

(** The path holds a Parquet table. *)
Definition holds_table (f : gmap string node) (p : string) : Prop :=
  exists df, f !! p = Some (ParquetFile df).

(** The paths that a run over [ranges] may write: the parts of its
    windows, the checkpoint and its temporary file, the master files. *)
Definition run_paths (ranges : list (string * string)) (csv parquet : string)
    (p : string) : Prop :=
  p = CHECKPOINT_MONTHS \/ p = TMP \/ p = csv \/ p = parquet
  \/ exists x, x ∈ ranges /\ p = part_filename x.1 x.2.

(** A store with a file that is none of the pipeline's. *)
Definition notes_files : gmap string node := {[ "notes.txt" := Text "keep me" ]}.

(** ** The environment and the [.env] loader

    [load_project_dotenv] and the configuration statements that follow
    it run when the module is imported.  What they see of the process:
    the path of the script, the command line, the working directory,
    the files that can hold variables, and the environment. *)

(** What a path holds for the loader: a directory, or a regular file
    with the variables that python-dotenv reads in it ([DotEnv.dict()];
    a variable may come without a value). *)
Inductive env_node : Type :=
  | EnvDir
  | EnvFile (vars : gmap string (option string)).

Record process : Type := mkprocess {
  script_file : option string;      (* __file__, when the module has one *)
  argv : list string;               (* sys.argv *)
  cwd : string;                     (* Path.cwd() *)
  disk : gmap string env_node;      (* the files, by path *)
  found_dotenv : string;            (* find_dotenv(): "" when it finds nothing *)
  environ : gmap string string      (* os.environ *)
}.

Section Dotenv.

(** [Path(p).resolve()], [p.parent] and [p / name], as strings. *)
Variable resolve : string -> string.
Variable parent : string -> string.
Variable child : string -> string -> string.

Definition path_exists (pr : process) (p : string) : bool :=
  match disk pr !! p with Some _ => true | None => false end.

Definition is_file (pr : process) (p : string) : bool :=
  match disk pr !! p with Some (EnvFile _) => true | _ => false end.

(** [load_dotenv(path)] with [override=False], its default: the
    variables of the file that have a value are set, except those that
    the environment already has.  A path that is no regular file sets
    nothing. *)
Definition load_dotenv (path : string) (pr : process) : gmap string string :=
  match disk pr !! path with
  | Some (EnvFile vars) => environ pr ∪ omap id vars
  | _ => environ pr
  end.

(** The candidates, in the order in which they are appended. *)
Definition cand_paths (pr : process) : list string :=
  match script_file pr with
  | Some f =>
      let script_dir := parent (resolve f) in
      [child (parent script_dir) ".env"; child script_dir ".env"]
  | None => []
  end
  ++ match argv pr with
     | argv0 :: _ =>
         if String.eqb argv0 "" then []
         else
           let p := resolve argv0 in
           if is_file pr p then [child (parent p) ".env"] else []
     | [] => []
     end
  ++ [child (cwd pr) ".env"].

(** The path that was loaded, if any, and the environment afterwards. *)
Definition load_project_dotenv (pr : process)
  : option string * gmap string string :=
  let cand := first_seen [] (cand_paths pr) in
  match find (path_exists pr) cand with
  | Some c => (Some c, load_dotenv c pr)
  | None =>
      let ff := found_dotenv pr in
      if String.eqb ff "" then (None, environ pr)
      else (Some ff, load_dotenv ff pr)
  end.

(** The statements after the loader: [TMDB_BEARER] is read from the
    environment and has to be there and not empty; the result is
    [HEADERS]. *)
Definition module_config (pr : process) : result (gmap string string) :=
  match (load_project_dotenv pr).2 !! "TMDB_BEARER" with
  | Some token =>
      if String.eqb token ""
      then Raise (RuntimeError
                    "Set TMDB_BEARER env var first (v4 read access token).")
      else Ok {[ "Authorization" := "Bearer " +:+ token;
                 "Accept" := "application/json" ]}
  | None =>
      Raise (RuntimeError
               "Set TMDB_BEARER env var first (v4 read access token).")
  end.

End Dotenv.

(** Paths on a POSIX system, for running the model: the text before the
    last slash is the parent, [resolve] leaves an absolute path as it
    is. *)
Fixpoint posix_parent (p : string) : string :=
  match p with
  | EmptyString => EmptyString
  | String c rest =>
      if has_slash rest then String c (posix_parent rest) else EmptyString
  end.

Definition posix_child (p name : string) : string := p +:+ "/" +:+ name.

(** A checkout with a [.env] at the project root and another in [src],
    run from the project root with an empty token in the environment. *)
Definition checkout_disk : gmap string env_node :=
  {[ "/repo/src/movie.py" := EnvFile ∅;
     "/repo/.env" := EnvFile {[ "TMDB_BEARER" := Some "root-token";
                                "LANGUAGE" := Some "tr-TR" ]};
     "/repo/src/.env" := EnvFile {[ "TMDB_BEARER" := Some "src-token" ]} ]}.

Definition checkout (env : gmap string string) : process :=
  mkprocess (Some "/repo/src/movie.py") ["/repo/src/movie.py"] "/repo"
    checkout_disk "/repo/.env" env.

(** ** The older script ([movie.py] at the root of the repository)

    The older script has the same functions.  Embedded here are its
    [safe_get] and its [discover_all].  It prints where the newer one
    logs (a line printed is recorded in the log, under the record of
    the same content), it prints nothing when a request fails in
    transport, and its [discover_all] knows no cap on the number of
    pages. *)

Module Legacy.

Section Pipeline.

Variable py_int : string -> option Z.

Fixpoint safe_get_loop (url : string) (params : gmap string pyval)
    (max_retries : Z) (backoff_base : Q) (attempts : list Z) : M api_doc :=
  match attempts with
  | [] => raise (RuntimeError ("Max retries exceeded for " +:+ url))
  | attempt :: rest =>
      ev ← session_get url params;
      match ev with
      | RequestException =>
          let wait := backoff backoff_base attempt in
          time_sleep wait;;
          safe_get_loop url params max_retries backoff_base rest
      | Reply resp =>
          if status_code resp =? 200 then lift (body resp)
          else if status_code resp =? 429 then
            let wait := rate_limit_wait py_int resp backoff_base attempt in
            log (LogRateLimited wait (attempt + 1));;
            time_sleep wait;;
            safe_get_loop url params max_retries backoff_base rest
          else if (500 <=? status_code resp) && (status_code resp <? 600) then
            let wait := backoff backoff_base attempt in
            log (LogServerError (status_code resp) wait);;
            time_sleep wait;;
            safe_get_loop url params max_retries backoff_base rest
          else
            raise (RuntimeError ("HTTP " +:+ str_int (status_code resp)
                                 +:+ " - " +:+ text resp))
      end
  end.

Definition safe_get (path : string) (params : gmap string pyval)
    (max_retries : Z) (backoff_base : Q) : M api_doc :=
  safe_get_loop (BASE +:+ path) params max_retries backoff_base
    (seqZ 0 max_retries).

Definition safe_get_default (path : string) (params : gmap string pyval)
  : M api_doc := safe_get path params 6 1%Q.

Fixpoint discover_pages (params : gmap string pyval) (polite_sleep : Q)
    (pages : list Z) (movies : list (gmap string pyval))
  : M (list (gmap string pyval)) :=
  match pages with
  | [] => mret movies
  | p :: rest =>
      let params := <["page" := PyInt p]> params in
      j ← safe_get_default "/discover/movie" params;
      let movies := movies ++ default [] (doc_results j) in
      time_sleep polite_sleep;;
      discover_pages params polite_sleep rest movies
  end.

Definition discover_all (date_from date_to language : string) (min_votes : Z)
    (max_pages : option Z) (polite_sleep : Q) : M (list (gmap string pyval)) :=
  let params := discover_params date_from date_to language min_votes in
  first ← safe_get_default "/discover/movie" params;
  let total_pages := default 1 (doc_total_pages first) in
  let total_pages := apply_max_pages total_pages max_pages in
  let movies := default [] (doc_results first) in
  if 2 <=? total_pages
  then discover_pages params polite_sleep (seqZ 2 (total_pages - 1)) movies
  else mret movies.

End Pipeline.

End Legacy.

(** *** Vocabulary for comparing the two scripts *)

(** Two worlds with the same network, requests, sleeps and files: they
    may differ in what was logged. *)
Definition same_traffic (w1 w2 : world) : Prop :=
  net w1 = net w2 /\ sent w1 = sent w2 /\ slept w1 = slept w2 /\ fs w1 = fs w2.

(** Two computations that, from worlds with the same traffic, return
    the same and leave worlds with the same traffic. *)
Definition agree {A : Type} (m1 m2 : M A) : Prop :=
  forall w1 w2, same_traffic w1 w2 ->
    (m1 w1).1 = (m2 w2).1 /\ same_traffic (m1 w1).2 (m2 w2).2.

(** The number of pages that the older script fetches: the reported
    total, capped at [max_pages] when one is supplied and is not 0, and
    never less than the first page. *)
Definition legacy_pages (total_pages : Z) (max_pages : option Z) : Z :=
  Z.max 1 (apply_max_pages total_pages max_pages).

(** A catalogue that reports 502 pages, each of one record. *)
Definition long_catalogue_page (i : nat) : api_doc :=
  mkdoc None None (Some 502) (Some [movie_with_id (Z.of_nat i + 1)]).

Definition long_catalogue_world : world :=
  mkworld (fun i => Reply (mkresp 200 ∅ "{}" (Ok (long_catalogue_page i))))
    [] [] [] ∅.

(* ================================================================== *)
(** * Properties *)

Lemma add_one_month_measure cur e nxt :
  date_leb cur e = true -> add_one_month cur = Ok nxt ->
  (loop_measure nxt e < loop_measure cur e)%nat.
Proof.
  unfold date_leb, date_ltb, add_one_month, make_date, valid_dateb, loop_measure.
  intros Hle Hn.
  destruct (12 <? month cur + 1) eqn:Hm; simpl in Hn;
    match type of Hn with (if ?c then _ else _) = _ => destruct c eqn:Hv end;
    try discriminate; injection Hn as <-; simpl in *; lia.
Qed.



Example loop_ex :
  month_ranges_loop (mkdate 2023 1 1) (mkdate 2023 2 28) [] =
  Ok [("2023-01-01", "2023-01-31"); ("2023-02-01", "2023-02-28")].
Proof. vm_compute. reflexivity. Qed.

Lemma month_ranges_loop_eq cur e out :
  month_ranges_loop cur e out =
  if date_leb cur e then
    match add_one_month cur with
    | Raise ex => Raise ex
    | Ok nxt =>
        match sub_one_day nxt with
        | Raise ex => Raise ex
        | Ok last_day =>
            month_ranges_loop nxt e
              (out ++ [(isoformat cur, isoformat (date_min last_day e))])
        end
    end
  else Ok out.
Proof.
  funelim (month_ranges_loop cur e out);
    repeat match goal with
      | H : ?x = _ |- context [match ?x with _ => _ end] => rewrite H
      end; try reflexivity.
Qed.

Module CalendarFacts.

Lemma valid_date_bounds d :
  valid_date d ->
  1 <= year d <= 9999 /\ 1 <= month d <= 12
  /\ 1 <= day d <= days_in_month (year d) (month d).
Proof. unfold valid_date, valid_dateb, MINYEAR, MAXYEAR. lia. Qed.

Ltac month_cases m :=
  let H := fresh "Hm" in
  assert (H : m = 1 \/ m = 2 \/ m = 3 \/ m = 4 \/ m = 5 \/ m = 6 \/ m = 7
              \/ m = 8 \/ m = 9 \/ m = 10 \/ m = 11 \/ m = 12) by lia;
  repeat (destruct H as [H | H]); subst m.

Lemma days_before_year_succ y :
  days_before_year (y + 1) = days_before_year y + year_length y.
Proof.
  unfold days_before_year, year_length, is_leap.
  replace (y + 1 - 1) with y by lia.
  destruct (y mod 4 =? 0) eqn:H4; destruct (y mod 100 =? 0) eqn:H100;
    destruct (y mod 400 =? 0) eqn:H400; simpl;
    Z.div_mod_to_equations; lia.
Qed.

Lemma days_before_year_mono y1 y2 :
  y1 <= y2 -> days_before_year y1 <= days_before_year y2.
Proof.
  unfold days_before_year. intros. Z.div_mod_to_equations. lia.
Qed.

Lemma days_before_month_succ y m :
  1 <= m <= 11 ->
  days_before_month y (m + 1) = days_before_month y m + days_in_month y m.
Proof.
  intros Hm. unfold days_before_month, days_in_month.
  month_cases m; try lia; simpl; destruct (is_leap y); reflexivity.
Qed.

Lemma days_before_month_last y :
  days_before_month y 12 + 31 = year_length y.
Proof. unfold days_before_month, year_length. simpl. destruct (is_leap y); lia. Qed.

Lemma days_in_month_pos y m : 1 <= m <= 12 -> 28 <= days_in_month y m <= 31.
Proof.
  intros Hm. unfold days_in_month. month_cases m; destruct (is_leap y); lia.
Qed.

Lemma days_before_month_mono y m1 m2 :
  1 <= m1 -> m1 < m2 -> m2 <= 12 ->
  days_before_month y m1 + days_in_month y m1 <= days_before_month y m2.
Proof.
  intros H1 H2 H3. unfold days_before_month, days_in_month.
  month_cases m1; month_cases m2; try lia; simpl; destruct (is_leap y); lia.
Qed.

Lemma day_of_year_bound y m d :
  1 <= m <= 12 -> d <= days_in_month y m ->
  days_before_month y m + d <= year_length y.
Proof.
  intros Hm Hd. unfold days_before_month, days_in_month, year_length in *.
  month_cases m; simpl in *; destruct (is_leap y); lia.
Qed.

Lemma days_before_month_nonneg y m : 0 <= days_before_month y m.
Proof.
  unfold days_before_month.
  destruct ((2 <? m) && is_leap y); destruct m as [|p|p]; try lia;
    do 4 (try destruct p as [p|p|]); lia.
Qed.

(** The order of dates is the order of their day numbers. *)
Lemma date_ltb_toordinal a b :
  valid_date a -> valid_date b ->
  date_ltb a b = true -> toordinal a < toordinal b.
Proof.
  intros Ha Hb. apply valid_date_bounds in Ha, Hb.
  destruct a as [ya ma da], b as [yb mb db]; simpl in *.
  unfold date_ltb, toordinal; simpl. intros Hlt.
  destruct (Z.ltb_spec ya yb) as [Hy | Hy].
  - pose proof (day_of_year_bound ya ma da ltac:(lia) ltac:(lia)).
    pose proof (days_before_year_succ ya).
    pose proof (days_before_year_mono (ya + 1) yb ltac:(lia)).
    pose proof (days_before_month_nonneg yb mb). lia.
  - simpl in Hlt. apply andb_prop in Hlt as [Heq Hlt].
    apply Z.eqb_eq in Heq. subst yb.
    destruct (Z.ltb_spec ma mb) as [Hm | Hm].
    + pose proof (days_before_month_mono ya ma mb ltac:(lia) Hm ltac:(lia)). lia.
    + simpl in Hlt. apply andb_prop in Hlt as [Heq Hlt].
      apply Z.eqb_eq in Heq. subst mb. lia.
Qed.

Lemma date_ltb_total a b :
  date_ltb a b = false -> date_ltb b a = false -> a = b.
Proof.
  destruct a as [ya ma da], b as [yb mb db]. unfold date_ltb; simpl.
  intros H1 H2.
  assert (ya = yb) by lia. subst.
  rewrite Z.ltb_irrefl, Z.eqb_refl in *. simpl in *.
  assert (ma = mb) by lia. subst.
  rewrite Z.ltb_irrefl, Z.eqb_refl in *. simpl in *.
  f_equal. lia.
Qed.

Lemma date_ltb_spec a b :
  valid_date a -> valid_date b ->
  date_ltb a b = true <-> toordinal a < toordinal b.
Proof.
  intros Ha Hb. split; [by apply date_ltb_toordinal |].
  intros Hlt. destruct (date_ltb a b) eqn:Hab; [done |].
  destruct (date_ltb b a) eqn:Hba.
  - apply date_ltb_toordinal in Hba; [lia | done | done].
  - rewrite (date_ltb_total a b Hab Hba) in Hlt. lia.
Qed.

Lemma date_leb_spec a b :
  valid_date a -> valid_date b ->
  date_leb a b = true <-> toordinal a <= toordinal b.
Proof.
  intros Ha Hb. unfold date_leb.
  pose proof (date_ltb_spec b a Hb Ha).
  destruct (date_ltb b a); simpl; intuition (try lia; try congruence).
Qed.

(** The step of the loop on a first-of-month cursor. *)
Lemma month_step cur :
  valid_date cur -> day cur = 1 -> year cur < MAXYEAR ->
  exists nxt last_day,
    add_one_month cur = Ok nxt /\ sub_one_day nxt = Ok last_day
    /\ valid_date nxt /\ day nxt = 1 /\ valid_date last_day
    /\ toordinal cur <= toordinal last_day
    /\ toordinal nxt = toordinal last_day + 1
    /\ (12 * year nxt + month nxt = 12 * year cur + month cur + 1)
    /\ year last_day = year cur.
Proof.
  intros Hv Hd Hy. pose proof (valid_date_bounds _ Hv) as (Hyr & Hmo & Hda).
  destruct cur as [y m d]; simpl in *. subst d. unfold MAXYEAR in *.
  unfold add_one_month; simpl.
  destruct (Z.ltb_spec 12 (m + 1)) as [Hdec | Hdec].
  - assert (m = 12) by lia. subst m.
    exists (mkdate (y + 1) 1 1), (mkdate y 12 31).
    replace (12 + 1 - 12) with 1 by lia.
    unfold make_date, sub_one_day, valid_date, valid_dateb, toordinal; simpl.
    unfold MINYEAR, MAXYEAR.
    replace (y + 1 - 1) with y by lia.
    pose proof (days_before_year_succ y) as Hs.
    pose proof (days_before_month_last y) as Hl.
    unfold toordinal, days_before_month in *; simpl in *.
    destruct (Z.ltb_spec 1 (y + 1)); [| lia].
    repeat match goal with
      | |- context [?a <=? ?b] => destruct (Z.leb_spec a b); try lia
      end; simpl.
    repeat split; try reflexivity; try lia.
  - pose proof (days_in_month_pos y m ltac:(lia)) as Hdim.
    pose proof (days_in_month_pos y (m + 1) ltac:(lia)) as Hdim'.
    exists (mkdate y (m + 1) 1), (mkdate y m (days_in_month y m)).
    unfold make_date, sub_one_day, valid_date, valid_dateb, toordinal; simpl.
    unfold MINYEAR, MAXYEAR.
    rewrite Z.min_r by lia.
    replace (m + 1 - 1) with m by lia.
    pose proof (days_before_month_succ y m ltac:(lia)) as Hs.
    destruct (Z.ltb_spec 1 (m + 1)); [| lia].
    repeat match goal with
      | |- context [?a <=? ?b] => destruct (Z.leb_spec a b); try lia
      end; simpl.
    repeat split; try reflexivity; try lia.
Qed.

End CalendarFacts.
Import CalendarFacts.

(** ** Windows as intervals of day numbers *)

Lemma tiles_empty ws lo hi : tiles ws lo hi -> hi < lo -> ws = [].
Proof. destruct ws as [| w rest]; simpl; [done | lia]. Qed.

Lemma tiles_lower ws lo hi w :
  tiles ws lo hi -> w ∈ ws -> lo <= toordinal (fst w) /\ toordinal (snd w) <= hi
                              /\ toordinal (fst w) <= toordinal (snd w).
Proof.
  revert lo. induction ws as [| v rest IH]; intros lo Ht Hin.
  - by apply elem_of_nil in Hin.
  - simpl in Ht. destruct Ht as (Hlo & Hb & Hrest).
    apply elem_of_cons in Hin as [-> | Hin]; [lia |].
    specialize (IH _ Hrest Hin). lia.
Qed.

Lemma tiles_covered ws lo hi :
  tiles ws lo hi -> forall n, covered ws n <-> lo <= n <= hi.
Proof.
  revert lo. induction ws as [| v rest IH]; intros lo Ht n; simpl in Ht.
  - split; [intros (w & Hin & _); by apply elem_of_nil in Hin | lia].
  - destruct Ht as (Hlo & Hb & Hrest). specialize (IH _ Hrest n). split.
    + intros (w & Hin & Hn). apply elem_of_cons in Hin as [-> | Hin]; [lia |].
      assert (covered rest n) as Hc by (exists w; done).
      apply IH in Hc. lia.
    + intros Hn. destruct (Z_le_gt_dec n (toordinal (snd v))) as [Hle | Hgt].
      * exists v. split; [apply elem_of_cons; by left | lia].
      * destruct (proj2 IH ltac:(lia)) as (w & Hin & Hw).
        exists w. split; [apply elem_of_cons; by right | done].
Qed.

Lemma tiles_contiguous ws lo hi : tiles ws lo hi -> contiguous ws.
Proof.
  revert lo. induction ws as [| v rest IH]; intros lo Ht i a b Ha Hb.
  - done.
  - simpl in Ht. destruct Ht as (Hlo & Hbd & Hrest).
    destruct i as [| i]; simpl in Ha, Hb.
    + injection Ha as <-. destruct rest as [| u rest']; [done |].
      simpl in Hb. injection Hb as <-. simpl in Hrest. lia.
    + eapply IH; eauto.
Qed.

Lemma tiles_non_overlapping ws lo hi : tiles ws lo hi -> non_overlapping ws.
Proof.
  revert lo. induction ws as [| v rest IH]; intros lo Ht i j a b Hij Ha Hb.
  - done.
  - simpl in Ht. destruct Ht as (Hlo & Hbd & Hrest).
    destruct j as [| j]; [lia |]. simpl in Hb.
    destruct i as [| i]; simpl in Ha.
    + injection Ha as <-.
      apply list_elem_of_lookup_2 in Hb.
      pose proof (tiles_lower _ _ _ _ Hrest Hb). lia.
    + apply (IH _ Hrest i j a b); [lia | done | done].
Qed.

(** The loop, started on the first day of a month, appends windows that
    tile the days from that day to [e]. *)
Lemma month_ranges_loop_tiles e :
  valid_date e -> year e < MAXYEAR ->
  forall (n : nat) cur out,
    loop_measure cur e = n -> valid_date cur -> day cur = 1 ->
    exists ws,
      month_ranges_loop cur e out = Ok (out ++ map iso_window ws)
      /\ tiles ws (toordinal cur) (toordinal e)
      /\ Forall (fun w => valid_date (fst w) /\ valid_date (snd w)) ws.
Proof.
  intros He Hye n. induction n as [n IH] using lt_wf_ind.
  intros cur out Hn Hv Hd.
  rewrite month_ranges_loop_eq.
  destruct (date_leb cur e) eqn:Hle.
  - pose proof (proj1 (date_leb_spec _ _ Hv He) Hle) as Hord.
    assert (year cur < MAXYEAR) as Hyc.
    { unfold date_leb, date_ltb in Hle. lia. }
    destruct (month_step cur Hv Hd Hyc)
      as (nxt & last & Hadd & Hsub & Hvn & Hdn & Hvl & Hcl & Hnl & Hidx & Hyl).
    rewrite Hadd, Hsub.
    pose proof (add_one_month_measure cur e nxt Hle Hadd) as Hdec.
    destruct (IH (loop_measure nxt e) ltac:(lia) nxt
                (out ++ [(isoformat cur, isoformat (date_min last e))])
                eq_refl Hvn Hdn) as (ws & Hrun & Ht & Hall).
    exists ((cur, date_min last e) :: ws).
    rewrite Hrun. split; [by rewrite <- app_assoc |].
    unfold date_min.
    pose proof (date_ltb_spec e last He Hvl) as Hmin.
    destruct (date_ltb e last) eqn:Hel; simpl.
    + assert (toordinal e < toordinal last) by (by apply Hmin).
      rewrite (tiles_empty _ _ _ Ht ltac:(lia)). simpl.
      repeat split; try lia; try done. constructor; [done | constructor].
    + assert (~ toordinal e < toordinal last) by (intros X; apply Hmin in X; done).
      repeat split; try lia.
      * by rewrite <- Hnl.
      * constructor; done.
  - exists []. simpl. rewrite app_nil_r. split; [done |]. split; [| constructor].
    assert (~ toordinal cur <= toordinal e).
    { intros X. apply (date_leb_spec _ _ Hv He) in X. congruence. }
    lia.
Qed.

(** ** The month partitioner on the cases of the test suite *)

Example month_ranges_single_full_month :
  month_ranges parse_iso "2023-01-01" "2023-01-31" =
  Ok [("2023-01-01", "2023-01-31")].
Proof. vm_compute. reflexivity. Qed.

Example month_ranges_two_full_months :
  month_ranges parse_iso "2023-01-01" "2023-02-28" =
  Ok [("2023-01-01", "2023-01-31"); ("2023-02-01", "2023-02-28")].
Proof. vm_compute. reflexivity. Qed.

Example month_ranges_year_boundary :
  month_ranges parse_iso "2022-12-01" "2023-01-31" =
  Ok [("2022-12-01", "2022-12-31"); ("2023-01-01", "2023-01-31")].
Proof. vm_compute. reflexivity. Qed.

Example month_ranges_same_start_and_end :
  month_ranges parse_iso "2023-06-10" "2023-06-10" =
  Ok [("2023-06-01", "2023-06-10")].
Proof. vm_compute. reflexivity. Qed.

(** C1, as amended.  For dates [s] and [e] read from the two arguments
    ([e] before the last year of the calendar, so that the month after
    it exists), [month_ranges] returns windows that follow one another
    without gap (each begins the day after the previous one ends), do
    not overlap, and whose union is exactly the days from the FIRST DAY
    OF THE MONTH OF [s] to [e]: the floor is the month start, not the
    requested start. *)
Theorem month_ranges_tiles_from_month_start
    (pd_to_datetime : string -> result date) (start end_ : string) (s e : date) :
  pd_to_datetime start = Ok s ->
  pd_to_datetime end_ = Ok e ->
  valid_date s -> valid_date e -> year e < MAXYEAR ->
  exists ws : list window,
    month_ranges pd_to_datetime start end_ = Ok (map iso_window ws)
    /\ contiguous ws
    /\ non_overlapping ws
    /\ (forall n,
          covered ws n <->
          toordinal (mkdate (year s) (month s) 1) <= n <= toordinal e).
Proof.
  intros Hs He Hvs Hve Hye.
  unfold month_ranges. rewrite Hs, He. simpl.
  assert (valid_date (mkdate (year s) (month s) 1)) as Hcur.
  { pose proof (valid_date_bounds _ Hvs) as (Hy & Hm & Hd).
    pose proof (days_in_month_pos (year s) (month s) Hm).
    unfold valid_date, valid_dateb, MINYEAR, MAXYEAR in *. simpl. lia. }
  unfold make_date. rewrite Hcur. simpl.
  destruct (month_ranges_loop_tiles e Hve Hye _ (mkdate (year s) (month s) 1) []
              eq_refl Hcur eq_refl) as (ws & Hrun & Ht & _).
  exists ws. split; [exact Hrun |].
  split; [by eapply tiles_contiguous |].
  split; [by eapply tiles_non_overlapping |].
  by apply tiles_covered.
Qed.

Lemma month_ranges_tiles_from_month_start_witness :
  exists ws : list window,
    month_ranges parse_iso "2023-03-15" "2023-04-30" = Ok (map iso_window ws)
    /\ contiguous ws
    /\ non_overlapping ws
    /\ (forall n,
          covered ws n <->
          toordinal (mkdate 2023 3 1) <= n <= toordinal (mkdate 2023 4 30)).
Proof.
  apply (month_ranges_tiles_from_month_start parse_iso
           "2023-03-15" "2023-04-30" (mkdate 2023 3 15) (mkdate 2023 4 30));
    [vm_compute; reflexivity | vm_compute; reflexivity
    | vm_compute; reflexivity | vm_compute; reflexivity
    | vm_compute; reflexivity].
Defined.

(** C1 as stated fails: for the range 2023-03-15 .. 2023-04-30 the first
    window begins on 2023-03-01, so the day 2023-03-01 lies in a window
    although it is before the requested start. *)
Lemma month_ranges_reaches_before_start :
  parse_iso "2023-03-15" = Ok (mkdate 2023 3 15)
  /\ parse_iso "2023-04-30" = Ok (mkdate 2023 4 30)
  /\ month_ranges parse_iso "2023-03-15" "2023-04-30" =
       Ok (map iso_window [ (mkdate 2023 3 1, mkdate 2023 3 31);
                            (mkdate 2023 4 1, mkdate 2023 4 30) ])
  /\ covered [ (mkdate 2023 3 1, mkdate 2023 3 31);
               (mkdate 2023 4 1, mkdate 2023 4 30) ]
       (toordinal (mkdate 2023 3 1))
  /\ toordinal (mkdate 2023 3 1) < toordinal (mkdate 2023 3 15).
Proof.
  split; [vm_compute; reflexivity |].
  split; [vm_compute; reflexivity |].
  split; [vm_compute; reflexivity |].
  split; [| vm_compute; reflexivity].
  exists (mkdate 2023 3 1, mkdate 2023 3 31). split.
  - apply elem_of_cons. by left.
  - vm_compute. split; discriminate.
Qed.

(** ** The normalizer *)

(** Settles a decidable closed proposition by running its decision. *)
Ltac decide_now := apply (bool_decide_unpack _); vm_compute; exact I.

Lemma cell_map (f : string -> pyval) (cols : list string) (c : string) :
  c ∈ cols -> cell cols (map f cols) c = f c.
Proof.
  induction cols as [| k cols IH]; intros Hin.
  - by apply elem_of_nil in Hin.
  - simpl. destruct (String.eqb_spec k c) as [-> | Hne]; [done |].
    apply elem_of_cons in Hin as [-> | Hin]; [done | by apply IH].
Qed.

Lemma first_seen_known (seen ks : list string) :
  (forall k, k ∈ ks -> k ∈ seen) -> first_seen seen ks = [].
Proof.
  induction ks as [| k ks IH]; intros Hall; [done |]. simpl.
  rewrite bool_decide_eq_true_2 by (apply Hall, elem_of_cons; by left).
  apply IH. intros k' Hk'. apply Hall, elem_of_cons. by right.
Qed.

Lemma first_seen_app (seen a b : list string) :
  first_seen seen (a ++ b) =
  first_seen seen a ++ first_seen (rev (first_seen seen a) ++ seen) b.
Proof.
  revert seen. induction a as [| k a IH]; intros seen; [done |]. simpl.
  destruct (bool_decide (k ∈ seen)); [apply IH |].
  simpl. rewrite IH. by rewrite <- app_assoc.
Qed.

(** The keys of a row built by [normalize_row] are the schema. *)
Lemma normalize_row_keys ib ps gm m d :
  normalize_row ib ps gm m = Ok d -> map fst d = COLS.
Proof.
  unfold normalize_row. destruct (py_iter _); simpl; [| discriminate].
  intros [= <-]. reflexivity.
Qed.

Lemma normalize_rows_spec ib ps gm raws : forall acc ds,
  normalize_rows ib ps gm raws acc = Ok ds ->
  exists new, ds = acc ++ new
    /\ Forall2 (fun m d => normalize_row ib ps gm m = Ok d) raws new.
Proof.
  induction raws as [| m raws IH]; intros acc ds; simpl.
  - intros [= <-]. exists []. by rewrite app_nil_r.
  - destruct (normalize_row ib ps gm m) as [d |] eqn:Hd; simpl; [| discriminate].
    intros Hrun. destruct (IH _ _ Hrun) as (new & -> & Hall).
    exists (d :: new). rewrite <- app_assoc. split; [done |].
    by constructor.
Qed.

Lemma normalize_rows_total ib ps gm raws : forall acc,
  Forall (fun m => exists d, normalize_row ib ps gm m = Ok d) raws ->
  exists ds, normalize_rows ib ps gm raws acc = Ok ds.
Proof.
  induction raws as [| m raws IH]; intros acc Hall; simpl; [by eexists |].
  inversion Hall as [| ? ? [d Hd] Hrest]; subst. rewrite Hd. simpl.
  by apply IH.
Qed.

Lemma COLS_columns (ds : list row_dict) :
  ds <> [] -> Forall (fun d => map fst d = COLS) ds ->
  first_seen [] (concat (map (map fst) ds)) = COLS.
Proof.
  destruct ds as [| d ds]; [done |]. intros _ Hall.
  inversion Hall as [| ? ? Hd Hrest]; subst. simpl. rewrite Hd.
  rewrite first_seen_app.
  replace (first_seen [] COLS) with COLS by (vm_compute; reflexivity).
  rewrite first_seen_known; [by rewrite app_nil_r |].
  intros k Hk. apply list_elem_of_In, in_or_app. left. apply -> in_rev.
  apply list_elem_of_In, in_concat in Hk as (ks & Hks & Hk).
  apply in_map_iff in Hks as (d' & <- & Hd').
  rewrite Forall_forall in Hrest.
  apply list_elem_of_In in Hd'. by rewrite (Hrest _ Hd') in Hk.
Qed.

Lemma reindex_DataFrame_row (cols : list string) (ds : list row_dict)
    (i : nat) (d : row_dict) :
  first_seen [] (concat (map (map fst) ds)) = cols ->
  ds !! i = Some d ->
  exists r, rows (reindex cols (DataFrame ds)) !! i = Some r
    /\ forall c, c ∈ cols -> cell cols r c = row_get d c.
Proof.
  intros Hcols Hd. unfold reindex, DataFrame. cbn [columns rows].
  rewrite Hcols. eexists. split.
  - rewrite !list_lookup_fmap, Hd. reflexivity.
  - intros c Hc. rewrite cell_map by done. by rewrite cell_map.
Qed.

(** The table of [normalize_to_df]: the schema for columns, one row per
    record, and under each column the value the record's row was built
    with. *)
Lemma normalize_to_df_spec raws ib ps gm df :
  normalize_to_df raws ib ps gm = Ok df ->
  columns df = COLS
  /\ length (rows df) = length raws
  /\ forall (i : nat) m, raws !! i = Some m ->
       exists d r, normalize_row ib ps gm m = Ok d /\ rows df !! i = Some r
         /\ forall c, c ∈ COLS -> cell COLS r c = row_get d c.
Proof.
  unfold normalize_to_df.
  destruct (normalize_rows ib ps gm raws []) as [ds |] eqn:Hrows; simpl;
    [| discriminate].
  intros [= <-]. apply normalize_rows_spec in Hrows as (new & -> & Hall).
  rewrite app_nil_l. split; [done |]. split.
  { unfold reindex, DataFrame. cbn [columns rows].
    rewrite !length_map. symmetry. by eapply Forall2_length. }
  intros i m Hm.
  destruct (Forall2_lookup_l _ _ _ _ _ Hall Hm) as (d & Hd & Hrow).
  exists d.
  destruct (reindex_DataFrame_row COLS new i d) as (r & Hr & Hcells); [| done |].
  { apply COLS_columns.
    - intros ->. by rewrite lookup_nil in Hd.
    - clear -Hall. induction Hall; constructor; eauto using normalize_row_keys. }
  exists r. done.
Qed.

Lemma str_int_decimal (n : Z) : int_of_decimal (str_int n) = Some n.
Proof.
  unfold int_of_decimal, str_int.
  rewrite NilZero.isi.
  - simpl. by rewrite DecimalZ.of_to.
  - destruct n; simpl; try discriminate.
    intros [= H]. by apply DecimalPos.Unsigned.to_uint_nonnil in H.
  - destruct n; simpl; try discriminate.
    intros [= H]. by apply DecimalPos.Unsigned.to_uint_nonnil in H.
Qed.

Lemma join_pipe_joined (names : list string) : join "|" names = pipe_joined names.
Proof.
  induction names as [| n rest IH]; [done |].
  destruct rest as [| n' rest']; [done |].
  change (join "|" (n :: n' :: rest')) with (n +:+ "|" +:+ join "|" (n' :: rest')).
  by rewrite IH.
Qed.

Lemma normalize_row_cells ib ps gm m d :
  normalize_row ib ps gm m = Ok d ->
  exists gids,
    py_iter (default (PyInts []) (m !! "genre_ids")) = Ok gids
    /\ row_get d "genres" = PyStr (join "|" (map (genre_name gm) gids))
    /\ row_get d "poster_url" =
         (if truthy (dict_get m "poster_path")
          then PyStr (py_str ib +:+ py_str ps +:+ py_str (dict_get m "poster_path"))
          else PyNone)
    /\ forall k c, (k, c) ∈ passed_through -> row_get d c = dict_get m k.
Proof.
  unfold normalize_row.
  destruct (py_iter _) as [gids |] eqn:Hit; simpl; [| discriminate].
  intros [= <-]. exists gids. split; [done |]. split; [reflexivity |].
  split; [reflexivity |].
  intros k c Hin. unfold passed_through in Hin.
  set_unfold in Hin.
  destruct_or!; try done; simplify_eq; reflexivity.
Qed.

Lemma passed_through_columns k c : (k, c) ∈ passed_through -> c ∈ COLS.
Proof.
  unfold passed_through. intros Hin.
  set_unfold in Hin.
  destruct_or!; try done; simplify_eq;
    decide_now.
Qed.

(** C7, as amended.  For every list of raw records whose [genre_ids],
    where present, can be iterated over (the empty list and records
    lacking fields included), [normalize_to_df] returns a table: its
    columns are exactly the eleven names of the schema in order, it has
    one row per record, a record lacking one of the nine fields copied
    as they are, or [poster_path], has a null cell in the corresponding
    column, and a record lacking [genre_ids] has the EMPTY STRING, not
    null, under [genres]. *)
Theorem normalize_to_df_schema
    (raws : list (gmap string pyval)) (ib ps : pyval) (gm : gmap Z string) :
  Forall genre_ids_iterable raws ->
  exists df,
    normalize_to_df raws ib ps gm = Ok df
    /\ columns df = COLS
    /\ length (rows df) = length raws
    /\ forall (i : nat) m, raws !! i = Some m ->
         exists r, rows df !! i = Some r
           /\ (forall k c, (k, c) ∈ passed_through -> m !! k = None ->
                 cell (columns df) r c = PyNone)
           /\ (m !! "poster_path" = None ->
                 cell (columns df) r "poster_url" = PyNone)
           /\ (m !! "genre_ids" = None ->
                 cell (columns df) r "genres" = PyStr "").
Proof.
  intros Hok.
  assert (exists df, normalize_to_df raws ib ps gm = Ok df) as [df Hdf].
  { unfold normalize_to_df.
    destruct (normalize_rows_total ib ps gm raws []) as [ds ->]; [| by eexists].
    eapply Forall_impl; [exact Hok |]. intros m Hm.
    unfold normalize_row, genre_ids_iterable in *.
    destruct (m !! "genre_ids") as [v |]; simpl.
    - destruct Hm as [items ->]. by eexists.
    - by eexists. }
  exists df. split; [done |].
  destruct (normalize_to_df_spec _ _ _ _ _ Hdf) as (Hcols & Hlen & Hrows).
  split; [done |]. split; [done |].
  intros i m Hm. destruct (Hrows i m Hm) as (d & r & Hd & Hr & Hcells).
  destruct (normalize_row_cells _ _ _ _ _ Hd) as (gids & Hit & Hg & Hp & Hthru).
  exists r. split; [done |]. rewrite Hcols. split; [| split].
  - intros k c Hin Hnone.
    rewrite Hcells by (by eapply passed_through_columns).
    rewrite (Hthru k c Hin). unfold dict_get. by rewrite Hnone.
  - intros Hnone. rewrite Hcells by (decide_now).
    rewrite Hp. unfold dict_get. by rewrite Hnone.
  - intros Hnone. rewrite Hcells by (decide_now).
    rewrite Hg. rewrite Hnone in Hit. simpl in Hit. by injection Hit as <-.
Qed.

Lemma normalize_to_df_schema_witness :
  exists df,
    normalize_to_df [∅; sample_movie] (PyStr "https://cdn/") (PyStr "w500")
      sample_genres = Ok df
    /\ columns df = COLS
    /\ length (rows df) = length [(∅ : gmap string pyval); sample_movie]
    /\ forall (i : nat) m, [∅; sample_movie] !! i = Some m ->
         exists r, rows df !! i = Some r
           /\ (forall k c, (k, c) ∈ passed_through -> m !! k = None ->
                 cell (columns df) r c = PyNone)
           /\ (m !! "poster_path" = None ->
                 cell (columns df) r "poster_url" = PyNone)
           /\ (m !! "genre_ids" = None ->
                 cell (columns df) r "genres" = PyStr "").
Proof.
  apply (normalize_to_df_schema [∅; sample_movie]).
  constructor; [vm_compute; exact I |].
  constructor; [| constructor].
  exists (map PyInt [28; 9999]). vm_compute. reflexivity.
Defined.

(** C7 as stated fails on a missing field: a record without [genre_ids]
    (here the empty record) gets the empty string under [genres], not
    null. *)
Lemma normalize_to_df_missing_genre_ids_not_null :
  normalize_to_df [∅] (PyStr "https://cdn/") (PyStr "w500") ∅ =
    Ok (mkframe COLS
          [[PyNone; PyNone; PyNone; PyNone; PyStr ""; PyNone; PyNone; PyNone;
            PyNone; PyNone; PyNone]])
  /\ (∅ : gmap string pyval) !! "genre_ids" = None
  /\ cell COLS
       [PyNone; PyNone; PyNone; PyNone; PyStr ""; PyNone; PyNone; PyNone;
        PyNone; PyNone; PyNone] "genres" = PyStr ""
  /\ PyStr "" <> PyNone.
Proof.
  split; [vm_compute; reflexivity |].
  split; [vm_compute; reflexivity |].
  split; [vm_compute; reflexivity | discriminate].
Qed.

(** C8.  In the table of [normalize_to_df], the [genres] cell of a
    record whose [genre_ids] is the list [codes] is the pipe-joined list
    of the resolved codes, in the order of [codes]: a code that is a key
    of the map is its mapped name, a code that is not is its decimal
    string (the numeral that reads back as the code), and no code at all
    gives the empty string. *)
Theorem normalize_to_df_genres
    (raws : list (gmap string pyval)) (ib ps : pyval) (gm : gmap Z string)
    (df : frame) (i : nat) (m : gmap string pyval) (codes : list Z)
    (r : list pyval) :
  normalize_to_df raws ib ps gm = Ok df ->
  raws !! i = Some m ->
  m !! "genre_ids" = Some (PyInts codes) ->
  rows df !! i = Some r ->
  cell (columns df) r "genres" = PyStr (pipe_joined (map (render_genre gm) codes))
  /\ (codes = [] -> cell (columns df) r "genres" = PyStr "")
  /\ (forall code name, gm !! code = Some name -> render_genre gm code = name)
  /\ (forall code, gm !! code = None ->
        int_of_decimal (render_genre gm code) = Some code).
Proof.
  intros Hdf Hm Hg Hr.
  destruct (normalize_to_df_spec _ _ _ _ _ Hdf) as (Hcols & _ & Hrows).
  destruct (Hrows i m Hm) as (d & r' & Hd & Hr' & Hcells).
  assert (r' = r) as -> by congruence.
  destruct (normalize_row_cells _ _ _ _ _ Hd) as (gids & Hit & Hgen & _).
  rewrite Hg in Hit. simpl in Hit. injection Hit as <-.
  assert (cell (columns df) r "genres"
          = PyStr (pipe_joined (map (render_genre gm) codes))) as Hcell.
  { rewrite Hcols, Hcells by decide_now. rewrite Hgen, join_pipe_joined.
    do 2 f_equal. rewrite map_map. apply map_ext. intros code.
    unfold genre_name, render_genre. by destruct (gm !! code). }
  split; [exact Hcell |]. split; [| split].
  - intros ->. exact Hcell.
  - intros code name Hk. unfold render_genre. by rewrite Hk.
  - intros code Hk. unfold render_genre. rewrite Hk. apply str_int_decimal.
Qed.

Lemma normalize_to_df_genres_witness :
  cell (columns (mkframe COLS [sample_row])) sample_row "genres"
    = PyStr (pipe_joined (map (render_genre sample_genres) [28; 9999]))
  /\ ([28; 9999] = [] ->
      cell (columns (mkframe COLS [sample_row])) sample_row "genres" = PyStr "")
  /\ (forall code name, sample_genres !! code = Some name ->
        render_genre sample_genres code = name)
  /\ (forall code, sample_genres !! code = None ->
        int_of_decimal (render_genre sample_genres code) = Some code).
Proof.
  apply (normalize_to_df_genres [sample_movie] (PyStr "https://cdn/")
           (PyStr "w500") sample_genres (mkframe COLS [sample_row])
           0%nat sample_movie [28; 9999] sample_row);
    [vm_compute; reflexivity | reflexivity | vm_compute; reflexivity
    | reflexivity].
Defined.

(** C10.  In the table of [normalize_to_df], the [poster_url] cell of a
    record is the concatenation of image base, poster size and poster
    path exactly when the record's [poster_path] is truthy, and null
    otherwise; in particular a [poster_path] that is present but the
    empty string gives null. *)
Theorem normalize_to_df_empty_poster_path
    (raws : list (gmap string pyval)) (ib ps : pyval) (gm : gmap Z string)
    (df : frame) (i : nat) (m : gmap string pyval) (r : list pyval) :
  normalize_to_df raws ib ps gm = Ok df ->
  raws !! i = Some m ->
  rows df !! i = Some r ->
  (m !! "poster_path" = Some (PyStr "") ->
     cell (columns df) r "poster_url" = PyNone)
  /\ cell (columns df) r "poster_url" =
       (if truthy (dict_get m "poster_path")
        then PyStr (py_str ib +:+ py_str ps +:+ py_str (dict_get m "poster_path"))
        else PyNone).
Proof.
  intros Hdf Hm Hr.
  destruct (normalize_to_df_spec _ _ _ _ _ Hdf) as (Hcols & _ & Hrows).
  destruct (Hrows i m Hm) as (d & r' & Hd & Hr' & Hcells).
  assert (r' = r) as -> by congruence.
  destruct (normalize_row_cells _ _ _ _ _ Hd) as (gids & _ & _ & Hp & _).
  assert (cell (columns df) r "poster_url" = row_get d "poster_url") as Hcell.
  { rewrite Hcols. apply Hcells. decide_now. }
  split.
  - intros Hempty. rewrite Hcell, Hp. unfold dict_get. by rewrite Hempty.
  - by rewrite Hcell, Hp.
Qed.

Lemma normalize_to_df_empty_poster_path_witness :
  (sample_movie_no_poster !! "poster_path" = Some (PyStr "") ->
   cell (columns (mkframe COLS [sample_row_no_poster])) sample_row_no_poster
     "poster_url" = PyNone)
  /\ cell (columns (mkframe COLS [sample_row_no_poster])) sample_row_no_poster
       "poster_url" =
       (if truthy (dict_get sample_movie_no_poster "poster_path")
        then PyStr (py_str (PyStr "https://cdn/") +:+ py_str (PyStr "w500")
                    +:+ py_str (dict_get sample_movie_no_poster "poster_path"))
        else PyNone).
Proof.
  apply (normalize_to_df_empty_poster_path [sample_movie_no_poster]
           (PyStr "https://cdn/") (PyStr "w500") sample_genres
           (mkframe COLS [sample_row_no_poster]) 0%nat
           sample_movie_no_poster sample_row_no_poster);
    [vm_compute; reflexivity | reflexivity | reflexivity].
Defined.

(** ** Reasoning in the monad of effects *)

Lemma bind_ok_inv {A B : Type} (m : M A) (f : A -> M B) w b w' :
  (m ≫= f) w = (Ok b, w') ->
  exists a w1, m w = (Ok a, w1) /\ f a w1 = (Ok b, w').
Proof.
  unfold mbind, M_bind. destruct (m w) as [[a | e] w1]; [| discriminate].
  intros H. by exists a, w1.
Qed.

Lemma bind_raise_inv {A B : Type} (m : M A) (f : A -> M B) w e w' :
  (m ≫= f) w = (Raise e, w') ->
  m w = (Raise e, w')
  \/ exists a w1, m w = (Ok a, w1) /\ f a w1 = (Raise e, w').
Proof.
  unfold mbind, M_bind. destruct (m w) as [[a | e0] w1].
  - intros H. right. by exists a, w1.
  - intros [= -> ->]. by left.
Qed.

Lemma bind_ok {A B : Type} (m : M A) (f : A -> M B) w a w1 :
  m w = (Ok a, w1) -> (m ≫= f) w = f a w1.
Proof. unfold mbind, M_bind. by intros ->. Qed.

Lemma bind_raise {A B : Type} (m : M A) (f : A -> M B) w e w1 :
  m w = (Raise e, w1) -> (m ≫= f) w = (Raise e, w1).
Proof. unfold mbind, M_bind. by intros ->. Qed.

(** ** The checkpoint store *)

Lemma TMP_neq : TMP <> CHECKPOINT_MONTHS.
Proof. vm_compute. discriminate. Qed.

Lemma save_checkpoint_fs d w w1 :
  save_checkpoint d w = (Ok tt, w1) ->
  checkpoint_writable (fs w)
  /\ w1 = mkworld (net w) (sent w) (slept w) (logged w)
            (<[CHECKPOINT_MONTHS := JsonFile d]> (delete TMP (fs w))).
Proof.
  unfold save_checkpoint, write_file, path_replace, checkpoint_writable.
  fold TMP. unfold mbind, M_bind, get_fs, put_fs, raise. simpl.
  destruct (fs w !! TMP) as [n |] eqn:Htmp.
  - destruct n; try discriminate; simpl;
      rewrite lookup_insert_eq; simpl;
      rewrite lookup_insert_ne by apply TMP_neq;
      destruct (fs w !! CHECKPOINT_MONTHS) as [[] |] eqn:Hcp; try discriminate;
      intros [= <-]; (split; [repeat split; congruence |]);
      by rewrite delete_insert_eq.
  - simpl. rewrite lookup_insert_eq. simpl.
    rewrite lookup_insert_ne by apply TMP_neq.
    destruct (fs w !! CHECKPOINT_MONTHS) as [[] |] eqn:Hcp; try discriminate;
      intros [= <-]; (split; [repeat split; congruence |]);
      by rewrite delete_insert_eq.
Qed.

Lemma save_checkpoint_succeeds d w :
  checkpoint_writable (fs w) ->
  save_checkpoint d w =
    (Ok tt, mkworld (net w) (sent w) (slept w) (logged w)
              (<[CHECKPOINT_MONTHS := JsonFile d]> (delete TMP (fs w)))).
Proof.
  intros (H1 & H2 & H3).
  unfold save_checkpoint, write_file, path_replace.
  fold TMP. unfold mbind, M_bind, get_fs, put_fs, raise. simpl.
  destruct (fs w !! TMP) as [[] |] eqn:Htmp; try congruence; simpl;
    rewrite lookup_insert_eq; simpl;
    rewrite lookup_insert_ne by apply TMP_neq;
    destruct (fs w !! CHECKPOINT_MONTHS) as [[] |] eqn:Hcp; try congruence;
    by rewrite delete_insert_eq.
Qed.

Lemma load_checkpoint_json w d :
  fs w !! CHECKPOINT_MONTHS = Some (JsonFile d) ->
  load_checkpoint w = (Ok d, w).
Proof.
  intros H. unfold load_checkpoint, mbind, M_bind, get_fs. simpl. by rewrite H.
Qed.

(** C5, as amended.  [load_checkpoint] returns the empty checkpoint
    when the file is absent, and, after a warning, when it cannot be
    opened ([OSError]) or holds text that is no JSON document; when the
    file holds a JSON document, it returns that document as parsed,
    whatever its shape: nothing checks that it is a checkpoint. *)
Theorem load_checkpoint_cases (w : world) :
  (fs w !! CHECKPOINT_MONTHS = None ->
     load_checkpoint w = (Ok empty_checkpoint, w))
  /\ (fs w !! CHECKPOINT_MONTHS = Some Directory
      \/ fs w !! CHECKPOINT_MONTHS = Some Denied ->
     load_checkpoint w = (Ok empty_checkpoint, warned w))
  /\ (forall s, fs w !! CHECKPOINT_MONTHS = Some (Text s) ->
     load_checkpoint w = (Ok empty_checkpoint, warned w))
  /\ (forall d, fs w !! CHECKPOINT_MONTHS = Some (JsonFile d) ->
     load_checkpoint w = (Ok d, w)).
Proof.
  unfold load_checkpoint, mbind, M_bind, get_fs, log, warned. simpl.
  split; [| split; [| split]].
  - by intros ->.
  - by intros [-> | ->].
  - by intros s ->.
  - by intros d ->.
Qed.

(** C5 as stated fails: a checkpoint file holding the JSON document
    [[]] parses, although not as a checkpoint, and [load_checkpoint]
    returns [[]] instead of the empty checkpoint. *)
Lemma load_checkpoint_returns_other_json :
  load_checkpoint
    (world_with_files {[ CHECKPOINT_MONTHS := JsonFile (JVal (JStrs [])) ]})
  = (Ok (JVal (JStrs [])),
     world_with_files {[ CHECKPOINT_MONTHS := JsonFile (JVal (JStrs [])) ]})
  /\ JVal (JStrs []) <> empty_checkpoint.
Proof. split; [reflexivity | discriminate]. Qed.

(** The missed case next to it: bytes that are not UTF-8 raise
    [UnicodeDecodeError], which the [except] clause does not list. *)
Lemma load_checkpoint_undecodable_bytes (w : world) :
  fs w !! CHECKPOINT_MONTHS = Some Garbled ->
  load_checkpoint w = (Raise UnicodeDecodeError, w).
Proof.
  intros H. unfold load_checkpoint, mbind, M_bind, get_fs. simpl. by rewrite H.
Qed.

(** C6.  When [save_checkpoint X] returns, it has written [X] to the
    temporary path, leaving the checkpoint path as it was, and then
    renamed the temporary file onto the checkpoint path in one step;
    afterwards no file is left at the temporary path, the checkpoint
    file holds [X], and [load_checkpoint] returns [X] without changing
    anything.  It does return whenever the two paths can be written. *)
Theorem save_load_checkpoint_roundtrip (X : json) (w : world) :
  (checkpoint_writable (fs w) -> exists w1, save_checkpoint X w = (Ok tt, w1))
  /\ forall w1, save_checkpoint X w = (Ok tt, w1) ->
       load_checkpoint w1 = (Ok X, w1)
       /\ fs w1 !! TMP = None
       /\ fs w1 !! CHECKPOINT_MONTHS = Some (JsonFile X)
       /\ exists w_tmp,
            write_file TMP (JsonFile X) w = (Ok tt, w_tmp)
            /\ fs w_tmp !! CHECKPOINT_MONTHS = fs w !! CHECKPOINT_MONTHS
            /\ path_replace TMP CHECKPOINT_MONTHS w_tmp = (Ok tt, w1).
Proof.
  split.
  { intros Hw. eexists. by apply save_checkpoint_succeeds. }
  intros w1 Hsave.
  pose proof (save_checkpoint_fs _ _ _ Hsave) as [Hw ->].
  assert (<[CHECKPOINT_MONTHS := JsonFile X]> (delete TMP (fs w))
            !! CHECKPOINT_MONTHS = Some (JsonFile X)) as Hcp
    by apply lookup_insert_eq.
  split; [by apply load_checkpoint_json |]. simpl.
  split.
  { rewrite lookup_insert_ne by (intros E; symmetry in E; by apply TMP_neq).
    apply lookup_delete_eq. }
  split; [exact Hcp |].
  apply bind_ok_inv in Hsave as ([] & w_tmp & Hwrite & Hrepl).
  exists w_tmp. split; [exact Hwrite |]. split; [| exact Hrepl].
  revert Hwrite. unfold write_file, mbind, M_bind, get_fs, put_fs, raise. simpl.
  fold TMP.
  destruct (fs w !! TMP) as [[] |]; try discriminate; intros [= <-]; simpl;
    by rewrite lookup_insert_ne by apply TMP_neq.
Qed.

Lemma save_load_checkpoint_roundtrip_witness :
  let X := JObj {[ "done_months" :=
                   JStrs ["2023-01-01_2023-01-31"; "2023-02-01_2023-02-28"] ]} in
  let w := world_with_files ∅ in
  let w1 := world_with_files {[ CHECKPOINT_MONTHS := JsonFile X ]} in
  load_checkpoint w1 = (Ok X, w1)
  /\ fs w1 !! TMP = None
  /\ fs w1 !! CHECKPOINT_MONTHS = Some (JsonFile X)
  /\ exists w_tmp,
       write_file TMP (JsonFile X) w = (Ok tt, w_tmp)
       /\ fs w_tmp !! CHECKPOINT_MONTHS = fs w !! CHECKPOINT_MONTHS
       /\ path_replace TMP CHECKPOINT_MONTHS w_tmp = (Ok tt, w1).
Proof.
  intros X w w1.
  apply (proj2 (save_load_checkpoint_roundtrip X w) w1).
  reflexivity.
Defined.

(** ** The retrying fetcher *)

Section Fetcher.

Variable py_int : string -> option Z.
Hypothesis py_int_empty : py_int "" = None.

Variables (url : string) (params : gmap string pyval).
Variables (max_retries : Z) (backoff_base : Q).

Local Abbreviation loop := (safe_get_loop py_int url params max_retries backoff_base).
Local Abbreviation wait := (retry_wait py_int backoff_base).
Local Abbreviation record := (retry_record py_int max_retries backoff_base).
Local Abbreviation retries := (after_retries py_int url params max_retries backoff_base).

Lemma rate_limit_wait_retry_wait resp attempt :
  status_code resp = 429 ->
  rate_limit_wait py_int resp backoff_base attempt = wait attempt (Reply resp).
Proof.
  intros H429. unfold rate_limit_wait, retry_wait, retry_after.
  rewrite H429. simpl.
  destruct (headers resp !! "Retry-After") as [ra |]; simpl; [| done].
  destruct (String.eqb_spec ra "") as [-> | _]; [by rewrite py_int_empty | done].
Qed.

Lemma event_at_0 w : event_at w 0 = net w (length (sent w)).
Proof. unfold event_at. by rewrite Nat.add_0_r. Qed.

Lemma loop_retried attempt rest w :
  retried py_int backoff_base attempt (event_at w 0) ->
  loop (attempt :: rest) w =
  loop rest (after_retry py_int url params max_retries backoff_base attempt w).
Proof.
  intros [Hretry Hwait]. rewrite event_at_0 in *.
  unfold after_retry. rewrite event_at_0.
  cbn [safe_get_loop]. unfold mbind at 1, M_bind at 1, session_get at 1.
  destruct (net w (length (sent w))) as [| resp] eqn:Hev.
  - change (backoff backoff_base attempt) with (wait attempt RequestException).
    unfold retry_record. set (q := wait attempt RequestException) in *.
    unfold mbind, M_bind, log, time_sleep. simpl. by rewrite Hwait.
  - simpl in Hretry.
    destruct (Z.eqb_spec (status_code resp) 200) as [H200 | _].
    { rewrite H200 in Hretry. discriminate. }
    destruct (Z.eqb_spec (status_code resp) 429) as [H429 | H429].
    + rewrite rate_limit_wait_retry_wait by done.
      unfold retry_record. rewrite (proj2 (Z.eqb_eq _ _) H429).
      set (q := wait attempt (Reply resp)) in *.
      unfold mbind, M_bind, log, time_sleep. simpl. by rewrite Hwait.
    + simpl in Hretry. rewrite Hretry.
      assert (backoff backoff_base attempt = wait attempt (Reply resp)) as ->.
      { unfold retry_wait. by rewrite (proj2 (Z.eqb_neq _ _) H429). }
      unfold retry_record. rewrite (proj2 (Z.eqb_neq _ _) H429).
      set (q := wait attempt (Reply resp)) in *.
      unfold mbind, M_bind, log, time_sleep. simpl. by rewrite Hwait.
Qed.

Lemma loop_success attempt rest w resp :
  event_at w 0 = Reply resp -> status_code resp = 200 ->
  loop (attempt :: rest) w = (body resp, called url params w).
Proof.
  rewrite event_at_0. intros Hev H200.
  cbn [safe_get_loop]. unfold mbind, M_bind, session_get, lift, called.
  by rewrite Hev, H200.
Qed.

Lemma loop_fatal attempt rest w resp :
  event_at w 0 = Reply resp -> retryable (Reply resp) = false ->
  status_code resp <> 200 ->
  loop (attempt :: rest) w =
  (Raise (RuntimeError ("HTTP " +:+ str_int (status_code resp) +:+ " - "
                        +:+ text resp)), called url params w).
Proof.
  rewrite event_at_0. intros Hev Hretry H200.
  cbn [safe_get_loop]. unfold mbind, M_bind, session_get, raise, called.
  rewrite Hev. simpl in Hretry. apply orb_false_elim in Hretry as [H429 H5xx].
  by rewrite (proj2 (Z.eqb_neq _ _) H200), H429, H5xx.
Qed.

Lemma loop_sleep_refused attempt rest w :
  retryable (event_at w 0) = true ->
  Qle_bool 0 (wait attempt (event_at w 0)) = false ->
  loop (attempt :: rest) w = (Raise ValueError, refused py_int url params max_retries backoff_base attempt w).
Proof.
  unfold refused. rewrite event_at_0. intros Hretry Hwait.
  cbn [safe_get_loop]. unfold mbind at 1, M_bind at 1, session_get at 1.
  destruct (net w (length (sent w))) as [| resp] eqn:Hev.
  - change (backoff backoff_base attempt) with (wait attempt RequestException).
    unfold retry_record. set (q := wait attempt RequestException) in *.
    unfold mbind, M_bind, log, time_sleep. simpl. by rewrite Hwait.
  - simpl in Hretry.
    destruct (Z.eqb_spec (status_code resp) 200) as [H200 | _].
    { rewrite H200 in Hretry. discriminate. }
    destruct (Z.eqb_spec (status_code resp) 429) as [H429 | H429].
    + rewrite rate_limit_wait_retry_wait by done.
      unfold retry_record. rewrite (proj2 (Z.eqb_eq _ _) H429).
      set (q := wait attempt (Reply resp)) in *.
      unfold mbind, M_bind, log, time_sleep. simpl. by rewrite Hwait.
    + simpl in Hretry. rewrite Hretry.
      assert (backoff backoff_base attempt = wait attempt (Reply resp)) as ->.
      { unfold retry_wait. by rewrite (proj2 (Z.eqb_neq _ _) H429). }
      unfold retry_record. rewrite (proj2 (Z.eqb_neq _ _) H429).
      set (q := wait attempt (Reply resp)) in *.
      unfold mbind, M_bind, log, time_sleep. simpl. by rewrite Hwait.
Qed.

Lemma after_retry_event attempt w i :
  event_at (after_retry py_int url params max_retries backoff_base attempt w) i
  = event_at w (S i).
Proof.
  unfold event_at, after_retry. simpl. rewrite length_app. simpl.
  f_equal. lia.
Qed.

Lemma retries_event k : forall attempt w i,
  event_at (retries k attempt w) i = event_at w (k + i).
Proof.
  induction k as [| k IH]; intros attempt w i; simpl; [done |].
  by rewrite IH, after_retry_event.
Qed.

Lemma retries_sent k : forall attempt w,
  sent (retries k attempt w) = sent w ++ replicate k (mkreq url params).
Proof.
  induction k as [| k IH]; intros attempt w; simpl.
  - by rewrite app_nil_r.
  - rewrite IH. simpl. by rewrite <- app_assoc.
Qed.

Lemma retries_slept k : forall attempt w,
  slept (retries k attempt w) =
  slept w ++ map (fun i => wait (attempt + Z.of_nat i) (event_at w i)) (seq 0 k).
Proof.
  induction k as [| k IH]; intros attempt w.
  - simpl. by rewrite app_nil_r.
  - cbn [after_retries]. rewrite IH. cbn [after_retry slept seq map].
    rewrite <- app_assoc. f_equal. cbn [app]. rewrite Z.add_0_r. f_equal.
    rewrite <- seq_shift, map_map. apply map_ext. intros i.
    rewrite after_retry_event. f_equal. lia.
Qed.

Lemma retries_fs k : forall attempt w, fs (retries k attempt w) = fs w.
Proof. induction k as [| k IH]; intros attempt w; simpl; [done | by rewrite IH]. Qed.

Lemma retries_net k : forall attempt w, net (retries k attempt w) = net w.
Proof. induction k as [| k IH]; intros attempt w; simpl; [done | by rewrite IH]. Qed.

Lemma seqZ_succ (m : Z) (n : nat) :
  seqZ m (Z.of_nat (S n)) = m :: seqZ (m + 1) (Z.of_nat n).
Proof.
  rewrite seqZ_cons by lia. f_equal. f_equal; lia.
Qed.

Lemma loop_run (n : nat) : forall attempt w,
  loop_outcome py_int url params max_retries backoff_base n attempt w
    (loop (seqZ attempt (Z.of_nat n)) w).
Proof.
  induction n as [| n IH]; intros attempt w.
  - simpl. apply Exhausted. intros i Hi. lia.
  - rewrite seqZ_succ.
    destruct (retryable (event_at w 0)) eqn:Hretry.
    + destruct (Qle_bool 0 (wait attempt (event_at w 0))) eqn:Hwait.
      * rewrite loop_retried by done.
        set (w1 := after_retry py_int url params max_retries backoff_base attempt w).
        assert (forall i, event_at w1 i = event_at w (S i)) as Hev
          by (intros i; apply after_retry_event).
        assert (forall j,
                  (forall i, (i < j)%nat ->
                     retried py_int backoff_base (attempt + 1 + Z.of_nat i)
                       (event_at w1 i)) ->
                  forall i, (i < S j)%nat ->
                     retried py_int backoff_base (attempt + Z.of_nat i)
                       (event_at w i)) as Hshift.
        { intros j Hall [| i] Hi.
          - rewrite Z.add_0_r. done.
          - specialize (Hall i ltac:(lia)). rewrite Hev in Hall.
            by replace (attempt + Z.of_nat (S i)) with (attempt + 1 + Z.of_nat i) by lia. }
        destruct (IH (attempt + 1) w1) as [Hall | j resp Hj Hall Hj200 H200
                                          | j resp Hj Hall Hrej Hnr H200
                                          | j Hj Hall Hr Hw].
        -- change (retries n (attempt + 1) w1) with (retries (S n) attempt w).
           apply Exhausted. by apply Hshift.
        -- change (retries j (attempt + 1) w1) with (retries (S j) attempt w).
           apply Answered; [lia | by apply Hshift | | done].
           by rewrite <- Hev.
        -- change (retries j (attempt + 1) w1) with (retries (S j) attempt w).
           apply Rejected; [lia | by apply Hshift | | done | done].
           by rewrite <- Hev.
        -- change (retries j (attempt + 1) w1) with (retries (S j) attempt w).
           replace (attempt + 1 + Z.of_nat j) with (attempt + Z.of_nat (S j)) in * by lia.
           apply SleepRefused; [lia | by apply Hshift | |].
           ++ by rewrite <- Hev.
           ++ by rewrite <- Hev.
      * rewrite loop_sleep_refused by done.
        replace attempt with (attempt + Z.of_nat 0) at 2 by (simpl; lia).
        apply (SleepRefused py_int url params max_retries backoff_base (S n) attempt w 0%nat);
          [lia | intros i Hi; lia | done |].
        by rewrite Z.add_0_r.
    + destruct (event_at w 0) as [| resp] eqn:Hev; [discriminate |].
      destruct (Z.eq_dec (status_code resp) 200) as [H200 | H200].
      * rewrite (loop_success _ _ _ resp) by done.
        apply (Answered py_int url params max_retries backoff_base (S n) attempt w 0%nat
                 resp); [lia | intros i Hi; lia | done | done].
      * rewrite (loop_fatal _ _ _ resp) by done.
        apply (Rejected py_int url params max_retries backoff_base (S n) attempt w 0%nat
                 resp);
          [lia | intros i Hi; lia | done | done | done].
Qed.

End Fetcher.

Lemma seqZ_to_nat (m len : Z) : seqZ m len = seqZ m (Z.of_nat (Z.to_nat len)).
Proof. unfold seqZ. by rewrite Nat2Z.id. Qed.

Lemma retried_not_200 py_int base attempt resp :
  status_code resp = 200 -> ~ retried py_int base attempt (Reply resp).
Proof. intros H200 [Hr _]. simpl in Hr. rewrite H200 in Hr. discriminate. Qed.

(** The first attempt that is not retried is unique. *)
Lemma first_stop_unique (P : nat -> Prop) (j k : nat) :
  (forall i, (i < j)%nat -> P i) -> ~ P j ->
  (forall i, (i < k)%nat -> P i) -> ~ P k -> j = k.
Proof.
  intros Hj Hnj Hk Hnk.
  destruct (lt_eq_lt_dec j k) as [[Hlt | Heq] | Hgt]; [| done |].
  - destruct Hnj. by apply Hk.
  - destruct Hnk. by apply Hj.
Qed.

(** C3.  [safe_get] makes its attempts one after the other, each
    meeting the next event of the network.  An attempt is followed by
    another one only when its event is a transport exception, a 429 or a
    5xx, after a sleep of [base * 2^attempt] seconds, or of the integer
    that the [Retry-After] header of a 429 parses as; there are at most
    [max_retries] attempts (6 by default).  It returns a document
    exactly when an attempt that is reached yields a 200 whose body
    parses as that document; a reached attempt with any other status
    that is not retried raises at once the error that carries the
    status code and the body text; and when all [max_retries] attempts
    are retried it raises "Max retries exceeded". *)
Theorem safe_get_contract
    (py_int : string -> option Z) (path : string) (params : gmap string pyval)
    (max_retries : Z) (backoff_base : Q) (w : world) :
  py_int "" = None ->
  let url := BASE +:+ path in
  let n := Z.to_nat max_retries in
  let run := safe_get py_int path params max_retries backoff_base w in
  let tried (k : nat) :=
    forall i, (i < k)%nat ->
      retried py_int backoff_base (Z.of_nat i) (event_at w i) in
  (forall doc,
     run.1 = Ok doc <->
     exists k resp, (k < n)%nat /\ tried k /\ event_at w k = Reply resp
       /\ status_code resp = 200 /\ body resp = Ok doc)
  /\ (forall k resp,
        (k < n)%nat -> tried k -> event_at w k = Reply resp ->
        retryable (Reply resp) = false -> status_code resp <> 200 ->
        run.1 = Raise (RuntimeError ("HTTP " +:+ str_int (status_code resp)
                                     +:+ " - " +:+ text resp))
        /\ length (sent run.2) = (length (sent w) + k + 1)%nat)
  /\ (tried n ->
        run.1 = Raise (RuntimeError ("Max retries exceeded for " +:+ url))
        /\ length (sent run.2) = (length (sent w) + n)%nat)
  /\ (exists k j : nat,
        (k <= n)%nat /\ (j <= k <= S j)%nat
        /\ sent run.2 = sent w ++ replicate k (mkreq url params)
        /\ slept run.2 =
             slept w ++ map (fun i => retry_wait py_int backoff_base (Z.of_nat i)
                                        (event_at w i)) (seq 0 j)
        /\ forall i, (i < j)%nat -> retryable (event_at w i) = true).
Proof.
  intros Hempty url n run tried.
  pose proof (loop_run py_int Hempty url params max_retries backoff_base n 0 w)
    as Hrun.
  assert (run = safe_get_loop py_int url params max_retries backoff_base
                  (seqZ 0 (Z.of_nat n)) w) as Erun.
  { subst run n. unfold safe_get. by rewrite <- seqZ_to_nat. }
  rewrite <- Erun in Hrun. clearbody run.
  set (P := fun i => retried py_int backoff_base (Z.of_nat i) (event_at w i)).
  assert (forall j, (forall i, (i < j)%nat ->
            retried py_int backoff_base (0 + Z.of_nat i) (event_at w i)) ->
            forall i, (i < j)%nat -> P i) as HP.
  { intros j Hall i Hi. specialize (Hall i Hi). by rewrite Z.add_0_l in Hall. }
  inversion Hrun as [Hall E | j resp Hj Hall Hev H200 E
                    | j resp Hj Hall Hev Hnr H200 E | j Hj Hall Hr Hw E];
    subst run; cbn [fst snd];
    specialize (HP _ Hall); clear Hall; rename HP into Hall.
  - (* all attempts retried *)
    split; [| split; [| split]].
    + intros doc. split; [discriminate |].
      intros (k & resp & Hk & _ & Hevk & Hk200 & _).
      destruct (retried_not_200 py_int backoff_base (Z.of_nat k) resp Hk200).
      rewrite <- Hevk. by apply Hall.
    + intros k resp Hk _ Hevk Hnr _. destruct (Hall k Hk) as [Hr _].
      rewrite Hevk in Hr. congruence.
    + intros _. split; [done |].
      rewrite retries_sent, length_app, length_replicate. lia.
    + exists n, n. split; [lia |]. split; [lia |].
      split; [by rewrite retries_sent |].
      split; [by rewrite retries_slept |].
      intros i Hi. by destruct (Hall i Hi).
  - (* a 200 at attempt j *)
    assert (~ P j) as Hstop.
    { unfold P. rewrite Hev. by apply retried_not_200. }
    split; [| split; [| split]].
    + intros doc. split.
      * intros Hdoc. exists j, resp. done.
      * intros (k & resp' & Hk & Htr & Hevk & Hk200 & Hdoc).
        assert (j = k) as <-.
        { apply (first_stop_unique P); try done.
          unfold P. rewrite Hevk. by apply retried_not_200. }
        congruence.
    + intros k resp' Hk Htr Hevk Hnr Hk200.
      assert (j = k) as <-.
      { apply (first_stop_unique P); try done.
        unfold P. rewrite Hevk. intros [Hr _]. congruence. }
      congruence.
    + intros Htr. destruct Hstop. by apply Htr.
    + exists (S j), j. split; [lia |]. split; [lia |].
      unfold called. cbn [sent slept].
      split; [| split].
      * rewrite retries_sent, <- app_assoc. f_equal.
        by rewrite replicate_S_end.
      * by rewrite retries_slept.
      * intros i Hi. by destruct (Hall i Hi).
  - (* a status that is not retried at attempt j *)
    assert (~ P j) as Hstop.
    { unfold P. rewrite Hev. intros [Hr _]. congruence. }
    split; [| split; [| split]].
    + intros doc. split; [discriminate |].
      intros (k & resp' & Hk & Htr & Hevk & Hk200 & Hdoc).
      assert (j = k) as <-.
      { apply (first_stop_unique P); try done.
        unfold P. rewrite Hevk. by apply retried_not_200. }
      congruence.
    + intros k resp' Hk Htr Hevk Hnr' Hk200.
      assert (j = k) as <-.
      { apply (first_stop_unique P); try done.
        unfold P. rewrite Hevk. intros [Hr _]. congruence. }
      assert (resp' = resp) as -> by congruence.
      split; [done |]. unfold called. cbn [sent].
      rewrite length_app, retries_sent, length_app, length_replicate. simpl. lia.
    + intros Htr. destruct Hstop. by apply Htr.
    + exists (S j), j. split; [lia |]. split; [lia |].
      unfold called. cbn [sent slept].
      split; [| split].
      * rewrite retries_sent, <- app_assoc. f_equal.
        by rewrite replicate_S_end.
      * by rewrite retries_slept.
      * intros i Hi. by destruct (Hall i Hi).
  - (* a wait that time.sleep refuses at attempt j *)
    assert (~ P j) as Hstop.
    { unfold P. intros [_ Hq]. rewrite Z.add_0_l in Hw. congruence. }
    split; [| split; [| split]].
    + intros doc. split; [discriminate |].
      intros (k & resp' & Hk & Htr & Hevk & Hk200 & Hdoc).
      assert (j = k) as <-.
      { apply (first_stop_unique P); try done.
        unfold P. rewrite Hevk. by apply retried_not_200. }
      rewrite Hevk in Hr. simpl in Hr. rewrite Hk200 in Hr. discriminate.
    + intros k resp' Hk Htr Hevk Hnr' Hk200.
      assert (j = k) as <-.
      { apply (first_stop_unique P); try done.
        unfold P. rewrite Hevk. intros [Hr' _]. congruence. }
      rewrite Hevk in Hr. congruence.
    + intros Htr. destruct Hstop. by apply Htr.
    + exists (S j), j. split; [lia |]. split; [lia |].
      unfold refused. cbn [sent slept].
      split; [| split].
      * rewrite retries_sent, <- app_assoc. f_equal.
        by rewrite replicate_S_end.
      * by rewrite retries_slept.
      * intros i Hi. by destruct (Hall i Hi).
Qed.

Example safe_get_flaky :
  safe_get int_of_decimal "/discover/movie" ∅ 6 1 flaky_world =
  (Ok sample_doc,
   mkworld flaky_net
     (replicate 4 (mkreq "https://api.themoviedb.org/3/discover/movie" ∅))
     [1; inject_Z 3; 4]%Q
     [LogRequestError 1 6 1; LogRateLimited (inject_Z 3) 2; LogServerError 503 4]
     ∅).
Proof. reflexivity. Qed.

Lemma safe_get_contract_witness :
  (safe_get int_of_decimal "/discover/movie" ∅ 6 1 flaky_world).1 = Ok sample_doc
  <-> exists k resp,
        (k < Z.to_nat 6)%nat
        /\ (forall i, (i < k)%nat ->
              retried int_of_decimal 1 (Z.of_nat i) (event_at flaky_world i))
        /\ event_at flaky_world k = Reply resp
        /\ status_code resp = 200 /\ body resp = Ok sample_doc.
Proof.
  apply (proj1 (safe_get_contract int_of_decimal "/discover/movie" ∅ 6 1
                  flaky_world eq_refl) sample_doc).
Defined.

(** ** Effects of fetching: only the network side of the world moves *)

Lemma safe_get_loop_world py_int url params max_retries base attempts :
  forall w r w',
  safe_get_loop py_int url params max_retries base attempts w = (r, w') ->
  exists (k : nat) sl lg,
    w' = mkworld (net w) (sent w ++ replicate k (mkreq url params))
           (slept w ++ sl) (logged w ++ lg) (fs w)
    /\ (forall doc, r = Ok doc -> (1 <= k)%nat)
    /\ Forall (fun x => fetch_record x = true) lg.
Proof.
  induction attempts as [| attempt rest IH]; intros w r w'.
  - simpl. unfold raise. intros [= <- <-]. exists 0%nat, [], [].
    rewrite !app_nil_r. by destruct w.
  - cbn [safe_get_loop]. unfold mbind at 1, M_bind at 1, session_get at 1.
    set (w1 := mkworld (net w) (sent w ++ [mkreq url params]) (slept w)
                 (logged w) (fs w)).
    assert (forall q record (r0 : result api_doc) w0,
              (log record;; time_sleep q;;
               safe_get_loop py_int url params max_retries base rest) w1
              = (r0, w0) ->
              fetch_record record = true ->
              exists (k : nat) sl lg,
                w0 = mkworld (net w) (sent w ++ replicate k (mkreq url params))
                       (slept w ++ sl) (logged w ++ lg) (fs w)
                /\ (forall doc, r0 = Ok doc -> (1 <= k)%nat)
                /\ Forall (fun x => fetch_record x = true) lg) as Hretry.
    { intros q record r0 w0 Hrun Hrec.
      unfold mbind at 1, M_bind at 1, log at 1 in Hrun. simpl in Hrun.
      unfold mbind at 1, M_bind at 1, time_sleep at 1 in Hrun. simpl in Hrun.
      destruct (Qle_bool 0 q).
      - apply IH in Hrun as (k & sl & lg & -> & Hk & Hlg). simpl.
        exists (S k), (q :: sl), (record :: lg).
        rewrite <- !app_assoc. simpl. split; [done |]. split; [lia |].
        by constructor.
      - injection Hrun as <- <-. simpl.
        exists 1%nat, [], [record]. rewrite app_nil_r. split; [done |].
        split; [lia |]. by constructor. }
    destruct (net w (length (sent w))) as [| resp].
    + intros Hrun. by eapply Hretry.
    + destruct (status_code resp =? 200).
      { unfold lift. intros [= <- <-]. exists 1%nat, [], [].
        rewrite !app_nil_r. split; [done |]. split; [lia | constructor]. }
      destruct (status_code resp =? 429).
      { intros Hrun. by eapply Hretry. }
      destruct ((500 <=? status_code resp) && (status_code resp <? 600)).
      { intros Hrun. by eapply Hretry. }
      unfold raise. intros [= <- <-]. exists 1%nat, [], [].
      rewrite !app_nil_r. split; [done |]. split; [lia | constructor].
Qed.

Lemma safe_get_world py_int path params max_retries base w r w' :
  safe_get py_int path params max_retries base w = (r, w') ->
  exists (k : nat) sl lg,
    w' = mkworld (net w) (sent w ++ replicate k (mkreq (BASE +:+ path) params))
           (slept w ++ sl) (logged w ++ lg) (fs w)
    /\ (forall doc, r = Ok doc -> (1 <= k)%nat)
    /\ Forall (fun x => fetch_record x = true) lg.
Proof. apply safe_get_loop_world. Qed.

(** ** The paginator *)

Lemma requested_pages_replicate (k : nat) url params p :
  params !! "page" = Some (PyInt p) ->
  requested_pages (replicate k (mkreq url params)) = replicate k p.
Proof.
  intros Hp. induction k as [| k IH]; [done |].
  simpl. unfold requested_pages in *. simpl. rewrite Hp. simpl. by rewrite IH.
Qed.

Lemma requested_pages_app a b :
  requested_pages (a ++ b) = requested_pages a ++ requested_pages b.
Proof. apply omap_app. Qed.

Lemma time_sleep_world q w r w' :
  time_sleep q w = (r, w') ->
  (r = Ok tt /\ w' = mkworld (net w) (sent w) (slept w ++ [q]) (logged w) (fs w))
  \/ (r = Raise ValueError /\ w' = w).
Proof.
  unfold time_sleep. destruct (Qle_bool 0 q); intros [= <- <-]; auto.
Qed.

Lemma discover_pages_world py_int polite_sleep pages :
  forall params movies w r w',
  discover_pages py_int params polite_sleep pages movies w = (r, w') ->
  exists new sl lg,
    w' = mkworld (net w) (sent w ++ new) (slept w ++ sl) (logged w ++ lg) (fs w)
    /\ Forall (fun x => fetch_record x = true) lg
    /\ (forall ms, r = Ok ms ->
          forall p, p ∈ requested_pages new <-> p ∈ pages).
Proof.
  induction pages as [| page rest IH]; intros params movies w r w'.
  - simpl. intros [= <- <-]. exists [], [], []. rewrite !app_nil_r.
    split; [by destruct w |]. split; [constructor |]. intros ms _ p.
    split; intros H; by apply elem_of_nil in H.
  - cbn [discover_pages]. unfold safe_get_default.
    unfold mbind at 1, M_bind at 1.
    destruct (safe_get py_int "/discover/movie" (<["page":=PyInt page]> params)
                6 1 w) as [[j | e] w1] eqn:Hget.
    + apply safe_get_world in Hget as (k & sl & lg & -> & Hk & Hlg).
      specialize (Hk j eq_refl).
      unfold mbind at 1, M_bind at 1.
      destruct (time_sleep polite_sleep _) as [[[] | e] w2] eqn:Hsleep.
      * apply time_sleep_world in Hsleep as [[_ ->] | [? _]]; [| discriminate].
        intros Hrest. apply IH in Hrest as (new & sl' & lg' & -> & Hlg' & Hpages).
        simpl.
        exists (replicate k (mkreq (BASE +:+ "/discover/movie")
                               (<["page":=PyInt page]> params)) ++ new),
               (sl ++ polite_sleep :: sl'), (lg ++ lg').
        rewrite <- !app_assoc. split; [reflexivity |].
        split; [by apply Forall_app |].
        intros ms Hms p. specialize (Hpages ms Hms p).
        rewrite requested_pages_app, elem_of_app, elem_of_cons, Hpages.
        rewrite (requested_pages_replicate k _ _ page) by apply lookup_insert_eq.
        rewrite elem_of_replicate. intuition lia.
      * apply time_sleep_world in Hsleep as [[? _] | [_ ->]]; [discriminate |].
        intros [= <- <-]. simpl. eexists _, sl, lg.
        split; [done |]. split; [done |]. discriminate.
    + apply safe_get_world in Hget as (k & sl & lg & -> & Hk & Hlg).
      intros [= <- <-]. eexists _, sl, lg.
      split; [done |]. split; [done |]. discriminate.
Qed.

Lemma apply_max_pages_effective total_pages max_pages :
  Z.max 1 (apply_max_pages (Z.min total_pages TMDB_MAX_PAGES) max_pages)
  = effective_pages total_pages max_pages.
Proof. unfold apply_max_pages, effective_pages. by destruct max_pages. Qed.

(** C2, as amended.  Once the first page is fetched, reporting
    [total_pages] ([1] when the key is missing): when [total_pages] is
    more than 500, a warning that reports [(total_pages - 500) * 20]
    missed records is logged and the fetch goes on as for 500 pages;
    and when the call returns, the pages it has asked for are exactly
    the pages 1..N, N of them, where N is
    [max(1, min(total_pages, 500, max_pages))], a [max_pages] that is
    missing or 0 setting no limit: the first page is always fetched. *)
Theorem discover_all_pages
    (py_int : string -> option Z) (date_from date_to language : string)
    (min_votes : Z) (max_pages : option Z) (polite_sleep : Q)
    (w : world) (first : api_doc) (w1 : world) :
  safe_get_default py_int "/discover/movie"
    (discover_params date_from date_to language min_votes) w = (Ok first, w1) ->
  let params := discover_params date_from date_to language min_votes in
  let total_pages := default 1 (doc_total_pages first) in
  let N := effective_pages total_pages max_pages in
  let run :=
    discover_all py_int date_from date_to language min_votes max_pages
      polite_sleep w in
  (TMDB_MAX_PAGES < total_pages ->
     run = fetch_rest py_int params polite_sleep first
             (apply_max_pages TMDB_MAX_PAGES max_pages)
             (cap_warned total_pages date_from date_to w1)
     /\ exists lg,
          logged run.2 =
            logged w1
            ++ LogPageCap total_pages date_from date_to TMDB_MAX_PAGES
                 ((total_pages - TMDB_MAX_PAGES) * 20) :: lg)
  /\ (forall movies w', run = (Ok movies, w') ->
        exists new,
          sent w' = sent w ++ new
          /\ (forall p, p ∈ requested_pages new <-> 1 <= p <= N)
          /\ (list_to_set (requested_pages new) : gset Z) = list_to_set (seqZ 1 N)
          /\ size (list_to_set (requested_pages new) : gset Z) = Z.to_nat N).
Proof.
  intros Hfirst params total_pages N run.
  assert (run =
          (total ← (if TMDB_MAX_PAGES <? total_pages
                    then log (LogPageCap total_pages date_from date_to
                                TMDB_MAX_PAGES
                                ((total_pages - TMDB_MAX_PAGES) * 20));;
                         mret TMDB_MAX_PAGES
                    else mret total_pages);
           fetch_rest py_int params polite_sleep first
             (apply_max_pages total max_pages)) w1) as Erun.
  { subst run. unfold discover_all. fold params.
    rewrite (bind_ok _ _ _ _ _ Hfirst). reflexivity. }
  split.
  - intros Hcap. rewrite Erun.
    rewrite (proj2 (Z.ltb_lt _ _) Hcap).
    assert ((log (LogPageCap total_pages date_from date_to TMDB_MAX_PAGES
                    ((total_pages - TMDB_MAX_PAGES) * 20));;
             mret TMDB_MAX_PAGES) w1
            = (Ok TMDB_MAX_PAGES, cap_warned total_pages date_from date_to w1))
      as Hlog by reflexivity.
    rewrite (bind_ok _ _ _ _ _ Hlog). split; [done |].
    unfold fetch_rest.
    destruct (2 <=? apply_max_pages TMDB_MAX_PAGES max_pages).
    + destruct (discover_pages py_int params polite_sleep _ _ _) as [r w'] eqn:Hp.
      apply discover_pages_world in Hp as (new & sl & lg & -> & _ & _).
      exists lg. simpl. by rewrite <- app_assoc.
    + exists []. reflexivity.
  - intros movies w' Hrun. rewrite Erun in Hrun.
    unfold safe_get_default in Hfirst.
    apply safe_get_world in Hfirst as (k & sl & lg & -> & Hk & _).
    specialize (Hk first eq_refl).
    assert (exists w2,
              fetch_rest py_int params polite_sleep first
                (apply_max_pages (Z.min total_pages TMDB_MAX_PAGES) max_pages) w2
              = (Ok movies, w')
              /\ sent w2 = sent w ++ replicate k (mkreq (BASE +:+ "/discover/movie") params))
      as (w2 & Hrest & Hsent).
    { destruct (Z.ltb_spec TMDB_MAX_PAGES total_pages) as [Hcap | Hcap].
      - rewrite Z.min_r by lia. eexists. split; [exact Hrun | reflexivity].
      - rewrite Z.min_l by lia. eexists. split; [exact Hrun | reflexivity]. }
    clear Hrun Erun.
    set (N' := apply_max_pages (Z.min total_pages TMDB_MAX_PAGES) max_pages) in *.
    assert (N = Z.max 1 N') as HN.
    { subst N N'. symmetry. apply apply_max_pages_effective. }
    assert (params !! "page" = Some (PyInt 1)) as Hpage1
      by apply lookup_insert_eq.
    assert (exists new,
              sent w' = sent w ++ new
              /\ forall p, p ∈ requested_pages new <-> 1 <= p <= N)
      as (new & Hnew & Hpages).
    { unfold fetch_rest in Hrest.
      destruct (Z.leb_spec 2 N') as [H2 | H2].
      - apply discover_pages_world in Hrest as (new & sl' & lg' & -> & _ & Hp).
        specialize (Hp movies eq_refl).
        exists (replicate k (mkreq (BASE +:+ "/discover/movie") params) ++ new).
        simpl. rewrite Hsent, <- app_assoc.
        split; [reflexivity |]. intros p.
        rewrite requested_pages_app, elem_of_app, Hp.
        rewrite (requested_pages_replicate k _ _ 1) by done.
        rewrite elem_of_replicate, elem_of_seqZ. lia.
      - injection Hrest as _ <-. eexists. split; [exact Hsent |].
        intros p. rewrite (requested_pages_replicate k _ _ 1) by done.
        rewrite elem_of_replicate. lia. }
    exists new. split; [done |]. split; [done |].
    assert ((list_to_set (requested_pages new) : gset Z)
            = list_to_set (seqZ 1 N)) as Hset.
    { apply set_eq. intros p. rewrite !elem_of_list_to_set, Hpages, elem_of_seqZ.
      lia. }
    split; [done |].
    rewrite Hset, size_list_to_set by apply NoDup_seqZ.
    by rewrite length_seqZ.
Qed.

Lemma discover_all_pages_witness :
  let w := steady_world 3 in
  let run :=
    discover_all int_of_decimal "2023-01-01" "2023-01-31" "en-US" 0 None
      (8 # 100)%Q w in
  let N := effective_pages (default 1 (doc_total_pages (page_doc 3))) None in
  exists new,
    sent run.2 = sent w ++ new
    /\ (forall p, p ∈ requested_pages new <-> 1 <= p <= N)
    /\ (list_to_set (requested_pages new) : gset Z) = list_to_set (seqZ 1 N)
    /\ size (list_to_set (requested_pages new) : gset Z) = Z.to_nat N.
Proof.
  intros w run N.
  apply (proj2 (discover_all_pages int_of_decimal "2023-01-01" "2023-01-31"
                  "en-US" 0 None (8 # 100)%Q w (page_doc 3)
                  (mkworld (steady_net 3)
                     [mkreq (BASE +:+ "/discover/movie")
                        (discover_params "2023-01-01" "2023-01-31" "en-US" 0)]
                     [] [] ∅)
                  eq_refl) [] run.2).
  reflexivity.
Defined.

(** C2 as stated fails when [max_pages] is 0: the first page reports 2
    pages, [min(2, 500, 0)] is 0, and the pages 1 and 2 are fetched. *)
Lemma discover_all_max_pages_zero :
  let run :=
    discover_all int_of_decimal "2023-01-01" "2023-01-31" "en-US" 0 (Some 0)
      (8 # 100)%Q (steady_world 2) in
  run.1 = Ok []
  /\ requested_pages (sent run.2) = [1; 2]
  /\ doc_total_pages (page_doc 2) = Some 2
  /\ Z.min 2 (Z.min 500 0) = 0.
Proof.
  split; [reflexivity |].
  split; [vm_compute; reflexivity |].
  split; reflexivity.
Qed.

(** The first page is fetched before [total_pages] is known: when it
    reports 0 pages, page 1 has been fetched all the same. *)
Example discover_all_no_pages_reported :
  let run :=
    discover_all int_of_decimal "2023-01-01" "2023-01-31" "en-US" 0 None
      (8 # 100)%Q (steady_world 0) in
  run.1 = Ok [] /\ requested_pages (sent run.2) = [1].
Proof. split; [reflexivity | vm_compute; reflexivity]. Qed.

(** A [max_pages] below the reported number of pages bounds the fetch. *)
Example discover_all_max_pages_two :
  let run :=
    discover_all int_of_decimal "2023-01-01" "2023-01-31" "en-US" 0 (Some 2)
      (8 # 100)%Q (steady_world 3) in
  run.1 = Ok [] /\ requested_pages (sent run.2) = [1; 2].
Proof. split; [reflexivity | vm_compute; reflexivity]. Qed.

(** ** The backfill run *)

Lemma quiet_refl P w : quiet P w w.
Proof.
  split; [done |]. split; [done |]. exists []. by rewrite app_nil_r.
Qed.

Lemma quiet_trans P w1 w2 w3 : quiet P w1 w2 -> quiet P w2 w3 -> quiet P w1 w3.
Proof.
  intros (Hn1 & Hf1 & lg1 & Hl1 & HP1) (Hn2 & Hf2 & lg2 & Hl2 & HP2).
  split; [congruence |]. split; [congruence |].
  exists (lg1 ++ lg2). rewrite Hl2, Hl1, <- app_assoc. split; [done |].
  by apply Forall_app.
Qed.

Lemma quiet_weaken (P Q : log_record -> bool) w w' :
  (forall r, P r = true -> Q r = true) -> quiet P w w' -> quiet Q w w'.
Proof.
  intros HPQ (Hn & Hf & lg & Hl & HP). split; [done |]. split; [done |].
  exists lg. split; [done |]. eapply Forall_impl; [exact HP |]. apply HPQ.
Qed.

Lemma quiet_logging (P : log_record -> bool) r w :
  P r = true -> quiet P w (logging r w).
Proof.
  intros HP. split; [done |]. split; [done |]. exists [r]. split; [done |].
  by constructor.
Qed.

Lemma log_run r w : log r w = (Ok tt, logging r w).
Proof. reflexivity. Qed.

Lemma safe_get_quiet py_int path params max_retries base w r w' :
  safe_get py_int path params max_retries base w = (r, w') ->
  quiet fetch_record w w'.
Proof.
  intros H. apply safe_get_world in H as (k & sl & lg & -> & _ & Hlg).
  split; [done |]. split; [done |]. by exists lg.
Qed.

Lemma discover_pages_quiet py_int params polite_sleep pages movies w r w' :
  discover_pages py_int params polite_sleep pages movies w = (r, w') ->
  quiet fetch_record w w'.
Proof.
  intros H. apply discover_pages_world in H as (new & sl & lg & -> & Hlg & _).
  split; [done |]. split; [done |]. by exists lg.
Qed.

Lemma discover_all_quiet py_int date_from date_to language min_votes max_pages
    polite_sleep w r w' :
  discover_all py_int date_from date_to language min_votes max_pages
    polite_sleep w = (r, w') ->
  quiet fetch_record w w'.
Proof.
  unfold discover_all, safe_get_default. intros H.
  destruct (safe_get py_int "/discover/movie"
              (discover_params date_from date_to language min_votes) 6 1 w)
    as [[first | e] w1] eqn:Hfirst.
  - rewrite (bind_ok _ _ _ _ _ Hfirst) in H.
    apply safe_get_quiet in Hfirst.
    eapply quiet_trans; [exact Hfirst |].
    set (total := default 1 (doc_total_pages first)) in *.
    destruct (TMDB_MAX_PAGES <? total).
    + rewrite (bind_ok _ _ _ TMDB_MAX_PAGES
                 (logging (LogPageCap total date_from date_to TMDB_MAX_PAGES
                             ((total - TMDB_MAX_PAGES) * 20)) w1)) in H
        by reflexivity.
      apply (quiet_trans _ _ (logging (LogPageCap total date_from date_to
                                         TMDB_MAX_PAGES
                                         ((total - TMDB_MAX_PAGES) * 20)) w1));
        [by apply quiet_logging |].
      destruct (2 <=? _).
      * by eapply discover_pages_quiet.
      * injection H as _ <-. apply quiet_refl.
    + rewrite (bind_ok _ _ _ total w1) in H by reflexivity.
      destruct (2 <=? _).
      * by eapply discover_pages_quiet.
      * injection H as _ <-. apply quiet_refl.
  - rewrite (bind_raise _ _ _ _ _ Hfirst) in H. injection H as _ <-.
    by eapply safe_get_quiet.
Qed.

(** *** Paths never collide *)

Lemma part_filename_not_checkpoint a b : part_filename a b <> CHECKPOINT_MONTHS.
Proof. unfold part_filename, OUT_DIR, CHECKPOINT_MONTHS. simpl. discriminate. Qed.

Lemma part_filename_not_tmp a b : part_filename a b <> TMP.
Proof. unfold part_filename, OUT_DIR, TMP, CHECKPOINT_MONTHS. simpl. discriminate. Qed.

(** *** Files and the checkpoint on disk *)

Lemma done_on_disk_ext (f g : gmap string node) :
  f !! CHECKPOINT_MONTHS = g !! CHECKPOINT_MONTHS ->
  done_on_disk f = done_on_disk g.
Proof. unfold done_on_disk, checkpoint_of. by intros ->. Qed.

Lemma load_checkpoint_pure w r w' :
  load_checkpoint w = (r, w') ->
  r = checkpoint_of (fs w) /\ quiet (fun _ => true) w w'.
Proof.
  unfold load_checkpoint, checkpoint_of, mbind, M_bind, get_fs. simpl.
  destruct (fs w !! CHECKPOINT_MONTHS) as [n |].
  - destruct (read_json n) as [d | []]; simpl; intros [= <- <-];
      (split; [done |]); try apply quiet_refl;
      by apply (quiet_logging (fun _ => true)).
  - intros [= <- <-]. split; [done | apply quiet_refl].
Qed.

Lemma sorted_strings_set (X : gset string) : list_to_set (sorted_strings X) = X.
Proof.
  unfold sorted_strings.
  rewrite (list_to_set_perm_L _ _ (merge_sort_Permutation _ (elements X))).
  apply list_to_set_elements_L.
Qed.

Lemma done_on_disk_saved (f : gmap string node) (X : gset string) :
  f !! CHECKPOINT_MONTHS
    = Some (JsonFile (JObj {[ "done_months" := JStrs (sorted_strings X) ]})) ->
  done_on_disk f = Ok X.
Proof.
  intros H. unfold done_on_disk, checkpoint_of. rewrite H. simpl.
  unfold mbind, result_bind, done_months_of.
  rewrite lookup_singleton_eq. by rewrite sorted_strings_set.
Qed.

Lemma write_file_run path n w r w' :
  write_file path n w = (r, w') ->
  (r = Ok tt
   /\ w' = mkworld (net w) (sent w) (slept w) (logged w) (<[path := n]> (fs w)))
  \/ (r = Raise OSError /\ w' = w).
Proof.
  unfold write_file, mbind, M_bind, get_fs, put_fs, raise. simpl.
  destruct (fs w !! path) as [[] |]; intros [= <- <-]; auto.
Qed.

Lemma path_replace_raise src dst w e w' :
  path_replace src dst w = (Raise e, w') -> w' = w.
Proof.
  unfold path_replace, mbind, M_bind, get_fs, put_fs, raise. simpl.
  destruct (fs w !! src) as [n |]; [| by intros [= _ <-]].
  destruct (fs w !! dst) as [[] |]; by intros [= <-].
Qed.

Lemma save_checkpoint_raise d w e w' :
  save_checkpoint d w = (Raise e, w') ->
  net w' = net w /\ logged w' = logged w
  /\ fs w' !! CHECKPOINT_MONTHS = fs w !! CHECKPOINT_MONTHS.
Proof.
  unfold save_checkpoint. fold TMP. intros H.
  apply bind_raise_inv in H as [H | ([] & w1 & Hwrite & Hrepl)].
  - apply write_file_run in H as [[? _] | [_ ->]]; [discriminate | done].
  - apply path_replace_raise in Hrepl as ->.
    apply write_file_run in Hwrite as [[_ ->] | [? _]]; [| discriminate].
    simpl. split; [done |]. split; [done |].
    by rewrite lookup_insert_ne by apply TMP_neq.
Qed.

(** *** One window *)

Lemma inner_fetch r : fetch_record r = true -> inner_record r = true.
Proof. by destruct r. Qed.

Lemma extends_log (P : log_record -> bool) w1 w2 lg r :
  logged w2 = logged w1 ++ lg -> Forall (fun x => P x = true) lg ->
  P r = true ->
  exists lg', logged (logging r w2) = logged w1 ++ lg'
              /\ Forall (fun x => P x = true) lg'.
Proof.
  intros Hl HP Hr. exists (lg ++ [r]). simpl. rewrite Hl, <- app_assoc.
  split; [done |]. apply Forall_app. split; [done |]. by constructor.
Qed.

(** What processing one window does to the world: the files move only
    when it succeeds in writing the part, and the checkpoint file moves
    only when the whole window succeeds. *)
Lemma process_window_run py_int cfg a b done w r w' :
  process_window py_int cfg a b done w = (r, w') ->
  net w' = net w
  /\ (exists lg, logged w' = logged w ++ lg
                 /\ Forall (fun x => inner_record x = true) lg)
  /\ match r with
     | Ok done' =>
         done' = {[ window_key a b ]} ∪ done
         /\ done_on_disk (fs w') = Ok done'
         /\ exists df,
              fs w' =
              <[CHECKPOINT_MONTHS :=
                  JsonFile (JObj {[ "done_months" := JStrs (sorted_strings done') ]})]>
                (delete TMP (<[part_filename a b := ParquetFile df]> (fs w)))
     | Raise e => fs w' !! CHECKPOINT_MONTHS = fs w !! CHECKPOINT_MONTHS
     end.
Proof.
  unfold process_window. intros H.
  destruct (discover_all py_int a b (language cfg) (min_votes cfg)
              (max_pages cfg) (8 # 100) w) as [[raw | e] w1] eqn:Hd;
    pose proof (discover_all_quiet _ _ _ _ _ _ _ _ _ _ Hd)
      as (Hnet1 & Hfs1 & lg1 & Hlg1 & HP1);
    apply (Forall_impl _ (fun x => inner_record x = true)) in HP1;
    try (intros x; apply inner_fetch).
  2: { rewrite (bind_raise _ _ _ _ _ Hd) in H. injection H as <- <-.
       split; [done |]. split; [by exists lg1 |]. by rewrite Hfs1. }
  rewrite (bind_ok _ _ _ _ _ Hd) in H. clear Hd.
  rewrite (bind_ok _ _ _ _ _ (log_run _ _)) in H.
  set (w2 := logging (LogRawItems (length raw)) w1) in *.
  destruct (extends_log inner_record w w1 lg1 (LogRawItems (length raw))
              Hlg1 HP1 eq_refl) as (lg2 & Hlg2 & HP2). fold w2 in Hlg2.
  assert (net w2 = net w /\ fs w2 = fs w) as [Hnet2 Hfs2] by done.
  clearbody w2. clear Hnet1 Hfs1 Hlg1 HP1 lg1 w1.
  match type of H with
  | (?m ≫= ?f) w2 = _ =>
      assert (exists rdf, m w2 = (rdf, w2)) as [rdf Hdf]
  end.
  { destruct raw as [| m0 raw0]; [by eexists |].
    unfold lift, mbind, M_bind.
    destruct (normalize_to_df _ _ _ _) as [df |]; [| by eexists].
    destruct (drop_duplicates _ _); by eexists. }
  destruct rdf as [df | e].
  2: { rewrite (bind_raise _ _ _ _ _ Hdf) in H. injection H as <- <-.
       split; [done |]. split; [by exists lg2 |]. by rewrite Hfs2. }
  rewrite (bind_ok _ _ _ _ _ Hdf) in H. clear Hdf.
  unfold to_parquet in H.
  destruct (write_file (part_filename a b) (ParquetFile df) w2)
    as [rw w3] eqn:Hw.
  pose proof (write_file_run _ _ _ _ _ Hw) as [[-> Hw3] | [-> Hw3]].
  2: { rewrite (bind_raise _ _ _ _ _ Hw) in H. injection H as <- <-.
       subst w3. split; [done |]. split; [by exists lg2 |]. by rewrite Hfs2. }
  rewrite (bind_ok _ _ _ _ _ Hw) in H. clear Hw.
  rewrite (bind_ok _ _ _ _ _ (log_run _ _)) in H.
  set (rec := LogSavedPart (part_filename a b) (length (rows df))) in *.
  set (w4 := logging rec w3) in *.
  assert (net w4 = net w) as Hnet4 by (subst w4 w3; done).
  assert (fs w4 = <[part_filename a b := ParquetFile df]> (fs w)) as Hfs4
    by (subst w4 w3; simpl; by rewrite Hfs2).
  assert (exists lg4, logged w4 = logged w ++ lg4
                      /\ Forall (fun x => inner_record x = true) lg4)
    as (lg4 & Hlg4 & HP4).
  { subst w4. apply (extends_log inner_record w w3 lg2); try done.
    subst w3. done. }
  clearbody w4. clear Hw3 w3 Hlg2 HP2 lg2 Hnet2 Hfs2 w2.
  set (done' := {[ window_key a b ]} ∪ done) in *.
  set (doc := JObj {[ "done_months" := JStrs (sorted_strings done') ]}) in *.
  destruct (save_checkpoint doc w4) as [[[] | e] w5] eqn:Hsave.
  - rewrite (bind_ok _ _ _ _ _ Hsave) in H. injection H as <- <-.
    apply save_checkpoint_fs in Hsave as [_ ->]. simpl.
    split; [done |]. split; [by exists lg4 |].
    split; [done |]. split.
    + apply done_on_disk_saved. apply lookup_insert_eq.
    + exists df. by rewrite Hfs4.
  - rewrite (bind_raise _ _ _ _ _ Hsave) in H. injection H as <- <-.
    apply save_checkpoint_raise in Hsave as (Hn & Hl & Hcp).
    split; [congruence |]. split; [exists lg4; by rewrite Hl |].
    rewrite Hcp, Hfs4. apply lookup_insert_ne, part_filename_not_checkpoint.
Qed.

(** *** ISO dates name their date *)

Lemma digit_inj a b : digit a = digit b -> a mod 10 = b mod 10.
Proof.
  unfold digit. intros H. apply (f_equal nat_of_ascii) in H.
  pose proof (Z.mod_pos_bound a 10 ltac:(lia)).
  pose proof (Z.mod_pos_bound b 10 ltac:(lia)).
  rewrite !nat_ascii_embedding in H by lia. lia.
Qed.

Lemma pad4_inj a b :
  0 <= a <= 9999 -> 0 <= b <= 9999 -> pad4 a = pad4 b -> a = b.
Proof.
  unfold pad4. intros Ha Hb [= H1 H2 H3 H4].
  apply digit_inj in H1, H2, H3, H4.
  Z.div_mod_to_equations. lia.
Qed.

Lemma pad2_inj a b :
  0 <= a <= 99 -> 0 <= b <= 99 -> pad2 a = pad2 b -> a = b.
Proof.
  unfold pad2. intros Ha Hb [= H1 H2].
  apply digit_inj in H1, H2.
  Z.div_mod_to_equations. lia.
Qed.

Lemma isoformat_inj a b :
  valid_date a -> valid_date b -> isoformat a = isoformat b -> a = b.
Proof.
  intros Ha Hb.
  pose proof (valid_date_bounds _ Ha) as (Hya & Hma & Hda).
  pose proof (valid_date_bounds _ Hb) as (Hyb & Hmb & Hdb).
  pose proof (days_in_month_pos (year a) (month a) Hma).
  pose proof (days_in_month_pos (year b) (month b) Hmb).
  destruct a as [ya ma da], b as [yb mb db]. unfold isoformat. simpl in *.
  intros [= H1 H2 H3 H4 H5 H6 H7 H8].
  assert (ya = yb)
    by (apply pad4_inj; [lia | lia | unfold pad4; congruence]).
  assert (ma = mb)
    by (apply pad2_inj; [lia | lia | unfold pad2; congruence]).
  assert (da = db)
    by (apply pad2_inj; [lia | lia | unfold pad2; congruence]).
  congruence.
Qed.

Lemma window_key_iso_inj (u v : window) :
  valid_date u.1 -> valid_date v.1 ->
  key_of (iso_window u) = key_of (iso_window v) -> u.1 = v.1.
Proof.
  intros Hu Hv. unfold key_of, window_key, iso_window. simpl.
  intros H. apply isoformat_inj; try done.
  unfold isoformat in *. simpl in H.
  injection H as H1 H2 H3 H4 H5 H6 H7 H8 H9 H10 _.
  unfold pad4, pad2. simpl. congruence.
Qed.

Lemma tiles_keys_NoDup ws : forall lo hi,
  tiles ws lo hi ->
  Forall (fun w => valid_date w.1 /\ valid_date w.2) ws ->
  NoDup (map key_of (map iso_window ws)).
Proof.
  induction ws as [| w rest IH]; intros lo hi Ht Hv; simpl; [constructor |].
  simpl in Ht. destruct Ht as (Hlo & Hb & Hrest).
  inversion Hv as [| ? ? [Hw1 Hw2] Hvrest]; subst.
  constructor; [| by eapply IH].
  intros Hin. apply list_elem_of_In, in_map_iff in Hin as (x & Hx & Hin).
  apply in_map_iff in Hin as (v & <- & Hin).
  apply list_elem_of_In in Hin.
  pose proof (tiles_lower _ _ _ _ Hrest Hin) as (Hge & _).
  rewrite Forall_forall in Hvrest. destruct (Hvrest v Hin) as [Hv1 _].
  apply window_key_iso_inj in Hx; try done.
  rewrite Hx in Hge. lia.
Qed.

(** The windows of [month_ranges] have distinct keys. *)
Lemma month_ranges_keys_NoDup pd_to_datetime start end_ ranges :
  (forall str d, pd_to_datetime str = Ok d -> valid_date d /\ year d < MAXYEAR) ->
  month_ranges pd_to_datetime start end_ = Ok ranges ->
  NoDup (map key_of ranges).
Proof.
  intros Hpd Hrun. unfold month_ranges in Hrun.
  destruct (pd_to_datetime start) as [s |] eqn:Hs; [| discriminate].
  destruct (pd_to_datetime end_) as [e |] eqn:He; [| discriminate].
  simpl in Hrun.
  destruct (Hpd _ _ Hs) as [Hvs _]. destruct (Hpd _ _ He) as [Hve Hye].
  destruct (make_date (year s) (month s) 1) as [cur |] eqn:Hcur; [| discriminate].
  simpl in Hrun. unfold make_date in Hcur.
  destruct (valid_dateb _) eqn:Hvc; [| discriminate]. injection Hcur as <-.
  destruct (month_ranges_loop_tiles e Hve Hye _ (mkdate (year s) (month s) 1) []
              eq_refl Hvc eq_refl) as (ws & Hloop & Ht & Hall).
  rewrite Hloop in Hrun. injection Hrun as <-. simpl.
  by eapply tiles_keys_NoDup.
Qed.

(** *** The loop over the windows *)

Lemma skipped_cons r lg :
  skipped (r :: lg) =
  match r with LogSkip a b => (a, b) :: skipped lg | _ => skipped lg end.
Proof. by destruct r. Qed.

Lemma processed_cons r lg :
  processed (r :: lg) =
  match r with LogProcessing a b => (a, b) :: processed lg | _ => processed lg end.
Proof. by destruct r. Qed.

Lemma skipped_app a b : skipped (a ++ b) = skipped a ++ skipped b.
Proof. apply omap_app. Qed.

Lemma processed_app a b : processed (a ++ b) = processed a ++ processed b.
Proof. apply omap_app. Qed.

Lemma inner_not_marks lg :
  Forall (fun x => inner_record x = true) lg -> skipped lg = [] /\ processed lg = [].
Proof.
  induction 1 as [| r lg Hr _ [IH1 IH2]]; [done |].
  rewrite skipped_cons, processed_cons, IH1, IH2. by destruct r.
Qed.

Lemma filter_ext_in {A} (P Q : A -> Prop) `{!forall x, Decision (P x)}
    `{!forall x, Decision (Q x)} (l : list A) :
  (forall x, x ∈ l -> P x <-> Q x) -> filter P l = filter Q l.
Proof.
  induction l as [| x l IH]; intros Hext; [done |].
  rewrite !filter_cons.
  assert (P x <-> Q x) as Hx by (apply Hext, elem_of_cons; by left).
  rewrite IH by (intros y Hy; apply Hext, elem_of_cons; by right).
  destruct (decide (P x)), (decide (Q x)); tauto.
Qed.

Lemma on_exception_run {A} (m : M A) (r : log_record) w :
  on_exception m (log r) w =
  match m w with
  | (Ok a, w') => (Ok a, w')
  | (Raise e, w') => (Raise e, logging r w')
  end.
Proof. unfold on_exception. by destruct (m w) as [[a | e] w']. Qed.

(** What the loop has done when it ends, normally or not: [k] windows
    were visited, those already done skipped and the others taken up;
    the checkpoint on disk lists what was done before and the windows
    completed since. *)
Lemma backfill_loop_run py_int cfg ranges : forall done w r w',
  done_on_disk (fs w) = Ok done ->
  NoDup (map key_of ranges) ->
  backfill_loop py_int cfg ranges done w = (r, w') ->
  net w' = net w
  /\ exists (k : nat) lg,
       logged w' = logged w ++ lg
       /\ skipped lg = filter (fun x => key_of x ∈ done) (take k ranges)
       /\ processed lg = filter (fun x => key_of x ∉ done) (take k ranges)
       /\ match r with
          | Ok done' =>
              k = length ranges
              /\ done' = done ∪ list_to_set (map key_of ranges)
              /\ done_on_disk (fs w') = Ok done'
          | Raise e =>
              exists pre x post w_before w_fail,
                ranges = pre ++ x :: post /\ k = S (length pre)
                /\ key_of x ∉ done
                /\ process_window py_int cfg x.1 x.2
                     (done ∪ list_to_set (map key_of pre)) w_before
                   = (Raise e, w_fail)
                /\ w' = logging (LogErrorMonth x.1 x.2) w_fail
                /\ done_on_disk (fs w') = Ok (done ∪ list_to_set (map key_of pre))
          end.
Proof.
  induction ranges as [| [a b] rest IH]; intros done w r w' Hdisk Hnd Hrun.
  - simpl in Hrun. injection Hrun as <- <-. split; [done |].
    exists 0%nat, []. rewrite app_nil_r. simpl.
    repeat split; try done. set_solver.
  - simpl in Hnd. apply NoDup_cons in Hnd as [Hfresh Hnd].
    cbn [backfill_loop] in Hrun.
    destruct (decide (window_key a b ∈ done)) as [Hin | Hout].
    + rewrite bool_decide_eq_true_2 in Hrun by done.
      rewrite (bind_ok _ _ _ _ _ (log_run _ _)) in Hrun.
      apply IH in Hrun as (Hnet & k & lg & Hlg & Hsk & Hpr & Hr); try done.
      split; [done |]. exists (S k), (LogSkip a b :: lg).
      split; [simpl in Hlg; by rewrite Hlg, <- app_assoc |].
      cbn [take]. rewrite !filter_cons.
      rewrite decide_True by done.
      rewrite (decide_False (P := key_of (a, b) ∉ done)) by (intros X; by apply X).
      split; [by rewrite skipped_cons, Hsk |].
      split; [by rewrite processed_cons, Hpr |].
      destruct r as [done' | e].
      * destruct Hr as (-> & -> & Hd). simpl. split; [done |].
        split; [| done]. unfold key_of at 2. simpl. set_solver.
      * destruct Hr as (pre & x & post & wb & wf & -> & -> & Hx & Hp & -> & Hd).
        exists ((a, b) :: pre), x, post, wb, wf. simpl.
        assert (done ∪ ({[key_of (a, b)]} ∪ list_to_set (map key_of pre))
                = done ∪ list_to_set (map key_of pre)) as ->.
        { unfold key_of at 1. simpl. set_solver. }
        done.
    + rewrite bool_decide_eq_false_2 in Hrun by done.
      rewrite (bind_ok _ _ _ _ _ (log_run _ _)) in Hrun.
      set (w2 := logging (LogProcessing a b) w) in *.
      unfold mbind at 1, M_bind at 1 in Hrun.
      rewrite on_exception_run in Hrun.
      destruct (process_window py_int cfg a b done w2) as [[done1 | e] w3] eqn:Hp;
        pose proof (process_window_run _ _ _ _ _ _ _ _ Hp)
          as (Hnet3 & (lg3 & Hlg3 & HP3) & Hres);
        destruct (inner_not_marks _ HP3) as [Hsk3 Hpr3].
      * destruct Hres as (-> & Hdisk1 & _).
        assert (forall x, x ∈ rest ->
                  key_of x ∈ {[window_key a b]} ∪ done <-> key_of x ∈ done) as Hsame.
        { intros x Hx. split; [| set_solver].
          intros [Heq%elem_of_singleton | ?]%elem_of_union; [| done].
          destruct Hfresh. apply list_elem_of_In, in_map_iff.
          exists x. split; [done | by apply list_elem_of_In]. }
        apply IH in Hrun as (Hnet & k & lg & Hlg & Hsk & Hpr & Hr); try done.
        split; [by rewrite Hnet, Hnet3 |].
        exists (S k), (LogProcessing a b :: lg3 ++ lg).
        split.
        { rewrite Hlg, Hlg3. subst w2. simpl. by rewrite <- !app_assoc. }
        cbn [take]. rewrite !filter_cons.
        rewrite decide_False by done.
        rewrite (decide_True (P := key_of (a, b) ∉ done)) by done.
        assert (forall k', forall x, x ∈ take k' rest ->
                  key_of x ∈ {[window_key a b]} ∪ done <-> key_of x ∈ done)
          as Hsame'.
        { intros k' x Hx. apply Hsame. rewrite <- (take_drop k' rest).
          apply elem_of_app. by left. }
        split.
        { rewrite skipped_cons, skipped_app, Hsk3, Hsk. simpl.
          apply filter_ext_in. intros x Hx. by apply (Hsame' k). }
        split.
        { rewrite processed_cons, processed_app, Hpr3, Hpr. simpl.
          f_equal. apply filter_ext_in. intros x Hx.
          specialize (Hsame' k x Hx). tauto. }
        destruct r as [done' | e].
        -- destruct Hr as (-> & -> & Hd). simpl. split; [done |].
           split; [| done]. unfold key_of at 2. simpl. set_solver.
        -- destruct Hr as (pre & x & post & wb & wf & -> & -> & Hx & Hpw & -> & Hd).
           exists ((a, b) :: pre), x, post, wb, wf. simpl.
           assert (done ∪ ({[key_of (a, b)]} ∪ list_to_set (map key_of pre))
                   = {[window_key a b]} ∪ done ∪ list_to_set (map key_of pre))
             as -> by (unfold key_of at 1; simpl; set_solver).
           split; [done |]. split; [done |].
           split; [set_solver |]. done.
      * injection Hrun as <- <-. split; [done |].
        exists 1%nat, (LogProcessing a b :: lg3 ++ [LogErrorMonth a b]).
        split.
        { simpl. rewrite Hlg3. subst w2. simpl. by rewrite <- !app_assoc. }
        cbn [take]. rewrite !filter_cons.
        rewrite decide_False by done.
        rewrite (decide_True (P := key_of (a, b) ∉ done)) by done.
        split.
        { by rewrite skipped_cons, skipped_app, Hsk3. }
        split.
        { by rewrite processed_cons, processed_app, Hpr3. }
        exists [], (a, b), rest, w2, w3. simpl.
        rewrite union_empty_r_L.
        split; [done |]. split; [done |]. split; [done |]. split; [done |].
        split; [done |].
        rewrite <- Hdisk. apply done_on_disk_ext. subst w2. simpl in Hres. done.
Qed.

Lemma parse_iso_valid str d :
  parse_iso str = Ok d -> valid_date d /\ year d < MAXYEAR.
Proof.
  unfold parse_iso.
  do 10 (destruct str as [| ? str]; try discriminate).
  destruct str; [| discriminate].
  repeat match goal with
    | |- context [match digit_value ?c with _ => _ end] =>
        destruct (digit_value c); try discriminate
    end.
  destruct (_ && _); [| discriminate].
  unfold make_date.
  destruct (valid_dateb _) eqn:Hv; simpl; [| discriminate].
  destruct (date_leb _ _ && date_leb _ _) eqn:Hb; [| discriminate].
  intros [= <-]. split; [done |].
  apply andb_prop in Hb as [_ Hb].
  unfold date_leb, date_ltb, MAXYEAR in *. simpl in *. lia.
Qed.

(** *** The run *)

Lemma backfill_setup_run pd_to_datetime py_int start end_ lang mv mp w0
    cfg ranges done0 w1 :
  backfill_setup pd_to_datetime py_int start end_ lang mv mp w0
    = (Ok (cfg, ranges, done0), w1) ->
  fs w1 = fs w0 /\ net w1 = net w0
  /\ month_ranges pd_to_datetime start end_ = Ok ranges
  /\ done_on_disk (fs w0) = Ok done0
  /\ language cfg = lang /\ min_votes cfg = mv /\ max_pages cfg = mp.
Proof.
  unfold backfill_setup. intros H.
  rewrite (bind_ok _ _ _ _ _ (log_run _ _)) in H.
  apply bind_ok_inv in H as (bs & wb & Himg & H).
  apply bind_ok_inv in H as (gm & wc & Hgm & H).
  rewrite (bind_ok _ _ _ _ _ (log_run _ _)) in H.
  rewrite (bind_ok _ _ _ _ _ (log_run _ _)) in H.
  apply bind_ok_inv in H as (rg & wf & Hmr & H).
  apply bind_ok_inv in H as (cp & wg & Hload & H).
  apply bind_ok_inv in H as (dn & wh & Hdone & H).
  injection H as <- <- <- <-.
  unfold lift in Hmr, Hdone. injection Hmr as Hmr <-. injection Hdone as Hdone <-.
  apply load_checkpoint_pure in Hload as [Hcp (Hn3 & Hf3 & _)].
  unfold get_image_base_and_size, safe_get_default in Himg.
  apply bind_ok_inv in Himg as (d1 & w' & Hget1 & Hret1).
  injection Hret1 as _ <-. apply safe_get_quiet in Hget1 as (Hn1 & Hf1 & _).
  unfold get_genre_map, safe_get_default in Hgm.
  apply bind_ok_inv in Hgm as (d2 & w'' & Hget2 & Hret2).
  injection Hret2 as _ <-. apply safe_get_quiet in Hget2 as (Hn2 & Hf2 & _).
  simpl in *.
  assert (fs wg = fs w0) as Hfs by congruence.
  split; [done |]. split; [congruence |]. split; [done |].
  split; [| done].
  unfold done_on_disk. rewrite <- Hf1, <- Hf2, <- Hcp.
  exact Hdone.
Qed.

(** C4.  A run that got to its loop starts from the windows listed by
    the checkpoint on disk.  If processing a window raises, the run
    raises the same exception and stops in the world where that window
    failed (after its error record): no later window is taken up and
    the merge does not run; by then the checkpoint on disk lists the
    windows done before the run and every window completed since, so
    that a later run on these files starts from exactly that set.  In a
    loop that ends normally, exactly the windows whose key is in the
    loaded set are skipped and exactly the others are processed. *)
Theorem backfill_abort_and_resume
    (pd_to_datetime : string -> result date) (py_int : string -> option Z)
    (start end_ lang : string) (mv : Z) (mp : option Z) (w0 : world)
    (cfg : run_config) (ranges : list (string * string))
    (done0 : gset string) (w1 : world) :
  (forall str d, pd_to_datetime str = Ok d -> valid_date d /\ year d < MAXYEAR) ->
  backfill_setup pd_to_datetime py_int start end_ lang mv mp w0
    = (Ok (cfg, ranges, done0), w1) ->
  let run := run_monthly_backfill pd_to_datetime py_int start end_ lang mv mp w0 in
  let loop := backfill_loop py_int cfg ranges done0 w1 in
  done_on_disk (fs w0) = Ok done0 /\ fs w1 = fs w0
  /\ (forall e wf, loop = (Raise e, wf) ->
        run = (Raise e, wf)
        /\ exists pre x post w_before w_fail lg,
             ranges = pre ++ x :: post
             /\ process_window py_int cfg x.1 x.2
                  (done0 ∪ list_to_set (map key_of pre)) w_before
                = (Raise e, w_fail)
             /\ wf = logging (LogErrorMonth x.1 x.2) w_fail
             /\ logged wf = logged w1 ++ lg
             /\ processed lg = filter (fun y => key_of y ∉ done0) (pre ++ [x])
             /\ skipped lg = filter (fun y => key_of y ∈ done0) pre
             /\ done_on_disk (fs wf) = Ok (done0 ∪ list_to_set (map key_of pre))
             /\ forall w0' cfg' ranges' done0' w1',
                  fs w0' = fs wf ->
                  backfill_setup pd_to_datetime py_int start end_ lang mv mp w0'
                    = (Ok (cfg', ranges', done0'), w1') ->
                  done0' = done0 ∪ list_to_set (map key_of pre))
  /\ (forall done' w2, loop = (Ok done', w2) ->
        exists lg,
          logged w2 = logged w1 ++ lg
          /\ skipped lg = filter (fun y => key_of y ∈ done0) ranges
          /\ processed lg = filter (fun y => key_of y ∉ done0) ranges
          /\ done_on_disk (fs w2)
             = Ok (done0 ∪ list_to_set (map key_of ranges))).
Proof.
  intros Hpd Hsetup run loop.
  pose proof (backfill_setup_run _ _ _ _ _ _ _ _ _ _ _ _ Hsetup)
    as (Hfs & _ & Hranges & Hdisk & _).
  pose proof (month_ranges_keys_NoDup _ _ _ _ Hpd Hranges) as Hnd.
  assert (done_on_disk (fs w1) = Ok done0) as Hdisk1 by (by rewrite Hfs).
  split; [done |]. split; [done |]. split.
  - intros e wf Hloop. split.
    + subst run. unfold run_monthly_backfill.
      rewrite (bind_ok _ _ _ _ _ Hsetup). cbn [fst snd].
      by rewrite (bind_raise _ _ _ _ _ Hloop).
    + apply backfill_loop_run in Hloop
        as (_ & k & lg & Hlg & Hsk & Hpr
            & pre & x & post & wb & wfail & -> & -> & Hx & Hp & -> & Hd);
        try done.
      exists pre, x, post, wb, wfail, lg.
      assert (take (S (length pre)) (pre ++ x :: post) = pre ++ [x]) as Htake.
      { replace (S (length pre)) with (length pre + 1)%nat by lia.
        by rewrite take_app_add'. }
      rewrite Htake in Hsk, Hpr.
      split; [done |]. split; [done |]. split; [done |]. split; [done |].
      split; [done |]. split.
      { rewrite Hsk, filter_app, filter_cons, decide_False by done.
        by rewrite filter_nil, app_nil_r. }
      split; [done |].
      intros w0' cfg' ranges' done0' w1' Hsame Hsetup'.
      apply backfill_setup_run in Hsetup' as (_ & _ & _ & Hdisk' & _).
      rewrite Hsame, Hd in Hdisk'. by injection Hdisk'.
  - intros done' w2 Hloop.
    apply backfill_loop_run in Hloop
      as (_ & k & lg & Hlg & Hsk & Hpr & -> & -> & Hd); try done.
    rewrite firstn_all in Hsk, Hpr. by exists lg.
Qed.

Example backfill_outage_run :
  let run :=
    run_monthly_backfill parse_iso int_of_decimal "2023-01-01" "2023-03-31"
      "en-US" 0 None outage_world in
  run.1 = Raise (RuntimeError "HTTP 404 - not found")
  /\ skipped (logged run.2) = [("2023-01-01", "2023-01-31")]
  /\ processed (logged run.2)
     = [("2023-02-01", "2023-02-28"); ("2023-03-01", "2023-03-31")]
  /\ done_on_disk (fs run.2)
     = Ok (list_to_set ["2023-01-01_2023-01-31"; "2023-02-01_2023-02-28"]).
Proof.
  split; [vm_compute; reflexivity |].
  split; [vm_compute; reflexivity |].
  split; vm_compute; reflexivity.
Qed.

Lemma backfill_abort_and_resume_witness :
  let w0 := outage_world in
  let cfg := mkconfig "en-US" 0 None PyNone (PyStr "original") ∅ in
  let ranges :=
    [ ("2023-01-01", "2023-01-31"); ("2023-02-01", "2023-02-28");
      ("2023-03-01", "2023-03-31") ] in
  let done0 : gset string := {[ "2023-01-01_2023-01-31" ]} in
  let w1 :=
    (backfill_setup parse_iso int_of_decimal "2023-01-01" "2023-03-31" "en-US"
       0 None w0).2 in
  let run :=
    run_monthly_backfill parse_iso int_of_decimal "2023-01-01" "2023-03-31"
      "en-US" 0 None w0 in
  let loop := backfill_loop int_of_decimal cfg ranges done0 w1 in
  done_on_disk (fs w0) = Ok done0 /\ fs w1 = fs w0
  /\ (forall e wf, loop = (Raise e, wf) ->
        run = (Raise e, wf)
        /\ exists pre x post w_before w_fail lg,
             ranges = pre ++ x :: post
             /\ process_window int_of_decimal cfg x.1 x.2
                  (done0 ∪ list_to_set (map key_of pre)) w_before
                = (Raise e, w_fail)
             /\ wf = logging (LogErrorMonth x.1 x.2) w_fail
             /\ logged wf = logged w1 ++ lg
             /\ processed lg = filter (fun y => key_of y ∉ done0) (pre ++ [x])
             /\ skipped lg = filter (fun y => key_of y ∈ done0) pre
             /\ done_on_disk (fs wf) = Ok (done0 ∪ list_to_set (map key_of pre))
             /\ forall w0' cfg' ranges' done0' w1',
                  fs w0' = fs wf ->
                  backfill_setup parse_iso int_of_decimal "2023-01-01"
                    "2023-03-31" "en-US" 0 None w0'
                    = (Ok (cfg', ranges', done0'), w1') ->
                  done0' = done0 ∪ list_to_set (map key_of pre))
  /\ (forall done' w2, loop = (Ok done', w2) ->
        exists lg,
          logged w2 = logged w1 ++ lg
          /\ skipped lg = filter (fun y => key_of y ∈ done0) ranges
          /\ processed lg = filter (fun y => key_of y ∉ done0) ranges
          /\ done_on_disk (fs w2)
             = Ok (done0 ∪ list_to_set (map key_of ranges))).
Proof.
  intros w0 cfg ranges done0 w1 run loop.
  apply (backfill_abort_and_resume parse_iso int_of_decimal "2023-01-01"
           "2023-03-31" "en-US" 0 None w0 cfg ranges done0 w1 parse_iso_valid).
  reflexivity.
Defined.

(** ** The master outputs *)

Lemma substring_4_pad4 y rest : substring 0 4 (pad4 y +:+ rest) = pad4 y.
Proof. by destruct rest. Qed.

Lemma year_prefix d : substring 0 4 (isoformat d) = pad4 (year d).
Proof. unfold isoformat. apply substring_4_pad4. Qed.

Lemma master_paths_distinct start end_ :
  (master_paths start end_).1 <> (master_paths start end_).2.
Proof.
  unfold master_paths. cbn [fst snd].
  set (suffix := if String.eqb _ _ then _ else _). clearbody suffix.
  change ("tmdb_movies_" +:+ suffix +:+ ".csv")
    with ("tmdb_movies_" +:+ (suffix +:+ ".csv")).
  change ("tmdb_movies_" +:+ suffix +:+ ".parquet")
    with ("tmdb_movies_" +:+ (suffix +:+ ".parquet")).
  intros H. simpl in H. injection H as H.
  induction suffix as [| c s IH]; simpl in H; [discriminate |].
  injection H as H. by apply IH.
Qed.

Lemma read_all_pure paths : forall w r w', read_all paths w = (r, w') -> w' = w.
Proof.
  induction paths as [| p rest IH]; intros w r w'; simpl.
  - by intros [= _ <-].
  - unfold mbind at 1, M_bind at 1, read_parquet at 1.
    unfold mbind at 1, M_bind at 1, get_fs at 1. cbn [fst snd].
    destruct (fs w !! p) as [[] |]; unfold raise, mret, M_ret;
      try by intros [= _ <-].
    unfold mbind, M_bind. destruct (read_all rest w) as [[dfs | e] w1] eqn:Hr;
      apply IH in Hr as ->; by intros [= _ <-].
Qed.

Lemma merge_sort_nil_inv (l : list string) :
  merge_sort (fun a b : string => String.leb a b) l = [] -> l = [].
Proof.
  intros H. pose proof (merge_sort_Permutation (fun a b : string => String.leb a b) l) as Hp.
  rewrite H in Hp. by apply Permutation_nil_l in Hp.
Qed.

(** The merge writes nothing when no part is on disk, and otherwise the
    same table to the two master paths. *)
Lemma merge_parts_run csv parquet w w' :
  merge_parts csv parquet w = (Ok tt, w') ->
  (glob_parts (fs w) = [] -> fs w' = fs w)
  /\ (glob_parts (fs w) <> [] ->
      exists df,
        fs w' = <[parquet := ParquetFile df]> (<[csv := CsvFile df]> (fs w))).
Proof.
  unfold merge_parts. intros H.
  rewrite (bind_ok _ _ _ _ _ (log_run _ _)) in H.
  unfold mbind at 1, M_bind at 1, get_fs at 1 in H. cbn [fs logging] in H.
  destruct (merge_sort _ (glob_parts (fs w))) as [| p parts] eqn:Hparts.
  - apply merge_sort_nil_inv in Hparts.
    injection H as <-. split; [done |]. by rewrite Hparts.
  - assert (glob_parts (fs w) <> []) as Hne
      by (intros E; rewrite E in Hparts; discriminate).
    split; [done |]. intros _.
    apply bind_ok_inv in H as (dfs & w1 & Hread & H).
    apply read_all_pure in Hread as ->.
    apply bind_ok_inv in H as (df & w2 & Hdd & H).
    unfold lift in Hdd. injection Hdd as Hdd <-.
    rewrite (bind_ok _ _ _ _ _ (log_run _ _)) in H.
    apply bind_ok_inv in H as ([] & w3 & Hcsv & H).
    apply bind_ok_inv in H as ([] & w4 & Hpq & H).
    injection H as <-.
    unfold to_csv in Hcsv. unfold to_parquet in Hpq.
    apply write_file_run in Hcsv as [[_ ->] | [? _]]; [| discriminate].
    apply write_file_run in Hpq as [[_ ->] | [? _]]; [| discriminate].
    by exists df.
Qed.

(** *** A processed window leaves a part to merge *)

Lemma has_slash_app s t : has_slash (s +:+ t) = has_slash s || has_slash t.
Proof.
  induction s as [| c s IH]; simpl; [done |]. by rewrite IH, orb_assoc.
Qed.

Lemma ends_with_app suf s : ends_with suf (s +:+ suf) = true.
Proof.
  induction s as [| c s IH]; simpl.
  - destruct suf; simpl; [done |]. by rewrite Ascii.eqb_refl, String.eqb_refl.
  - rewrite IH. apply orb_true_r.
Qed.

Lemma digit_not_slash n : Ascii.eqb (digit n) "/" = false.
Proof.
  apply Ascii.eqb_neq. unfold digit. intros H.
  apply (f_equal nat_of_ascii) in H.
  pose proof (Z.mod_pos_bound n 10 ltac:(lia)).
  rewrite nat_ascii_embedding in H by lia.
  change (nat_of_ascii "/") with 47%nat in H. lia.
Qed.

Lemma isoformat_no_slash d : has_slash (isoformat d) = false.
Proof.
  unfold isoformat. rewrite !has_slash_app. unfold pad4, pad2.
  cbn [has_slash]. rewrite !digit_not_slash. reflexivity.
Qed.

Lemma string_append_assoc (s t u : string) :
  (s +:+ t) +:+ u = s +:+ (t +:+ u).
Proof.
  induction s as [| c s IH]; [done |].
  change (String c ((s +:+ t) +:+ u) = String c (s +:+ (t +:+ u))).
  by rewrite IH.
Qed.

Lemma drop_prefix_app pre s : drop_prefix pre (pre +:+ s) = Some s.
Proof.
  induction pre as [| c pre IH]; simpl; [by destruct s |].
  by rewrite Ascii.eqb_refl.
Qed.

(** The part of a window whose days hold no slash is one that the glob
    finds. *)
Lemma part_filename_is_part a b :
  has_slash a = false -> has_slash b = false ->
  is_part (part_filename a b) = true.
Proof.
  intros Ha Hb. unfold is_part.
  change (part_filename a b)
    with ((OUT_DIR +:+ "/tmdb_") +:+ (a +:+ "_to_" +:+ b +:+ ".parquet")).
  rewrite drop_prefix_app.
  apply andb_true_intro. split.
  - replace (a +:+ "_to_" +:+ b +:+ ".parquet")
      with ((a +:+ "_to_" +:+ b) +:+ ".parquet").
    + apply ends_with_app.
    + by rewrite !string_append_assoc.
  - rewrite !has_slash_app, Ha, Hb. reflexivity.
Qed.

Lemma glob_parts_nonempty (f : gmap string node) :
  glob_parts f <> [] <-> exists p, is_Some (f !! p) /\ is_part p = true.
Proof.
  unfold glob_parts. split.
  - destruct (filter _ _) as [| p l] eqn:E; [done |]. intros _.
    assert (p ∈ filter (fun p => is_part p = true) (elements (dom f))) as Hp
      by (rewrite E; left).
    apply list_elem_of_filter in Hp as [Hpart Hin].
    apply elem_of_elements, elem_of_dom in Hin. by exists p.
  - intros (p & Hsome & Hpart) E.
    assert (p ∈ filter (fun p => is_part p = true) (elements (dom f))) as Hp.
    { apply list_elem_of_filter. split; [done |].
      by apply elem_of_elements, elem_of_dom. }
    rewrite E in Hp. by apply elem_of_nil in Hp.
Qed.

(** A window that is processed leaves its part on disk, and the parts
    already there stay. *)
Lemma process_window_leaves_part py_int cfg a b done w done' w' :
  has_slash a = false -> has_slash b = false ->
  process_window py_int cfg a b done w = (Ok done', w') ->
  glob_parts (fs w') <> [].
Proof.
  intros Ha Hb Hrun.
  apply process_window_run in Hrun as (_ & _ & _ & _ & df & ->).
  apply glob_parts_nonempty. exists (part_filename a b).
  split; [| by apply part_filename_is_part].
  rewrite lookup_insert_ne by (intros E; by apply (part_filename_not_checkpoint a b)).
  rewrite lookup_delete_ne by (intros E; by apply (part_filename_not_tmp a b)).
  by rewrite lookup_insert_eq.
Qed.

Lemma backfill_loop_fs_skip py_int cfg ranges : forall done w done' w',
  backfill_loop py_int cfg ranges done w = (Ok done', w') ->
  (forall x, x ∈ ranges -> key_of x ∈ done) ->
  fs w' = fs w.
Proof.
  induction ranges as [| [a b] rest IH]; intros done w done' w' Hrun Hall.
  - simpl in Hrun. by injection Hrun as _ <-.
  - cbn [backfill_loop] in Hrun.
    rewrite bool_decide_eq_true_2 in Hrun by (apply (Hall (a, b)); left).
    rewrite (bind_ok _ _ _ _ _ (log_run _ _)) in Hrun.
    apply IH in Hrun; [done |]. intros x Hx. apply Hall. by right.
Qed.

(** When the loop ends normally after it has taken up a window, or with
    a part already on disk, a part is on disk. *)
Lemma backfill_loop_leaves_part py_int cfg ranges : forall done w done' w',
  Forall (fun x => has_slash x.1 = false /\ has_slash x.2 = false) ranges ->
  backfill_loop py_int cfg ranges done w = (Ok done', w') ->
  glob_parts (fs w) <> [] \/ (exists x, x ∈ ranges /\ key_of x ∉ done) ->
  glob_parts (fs w') <> [].
Proof.
  induction ranges as [| [a b] rest IH]; intros done w done' w' Hiso Hrun Hor.
  - simpl in Hrun. injection Hrun as _ <-.
    destruct Hor as [H | (x & Hx & _)]; [done | by apply elem_of_nil in Hx].
  - apply Forall_cons in Hiso as [[Ha Hb] Hiso]. simpl in Ha, Hb.
    cbn [backfill_loop] in Hrun.
    destruct (decide (window_key a b ∈ done)) as [Hin | Hout].
    + rewrite bool_decide_eq_true_2 in Hrun by done.
      rewrite (bind_ok _ _ _ _ _ (log_run _ _)) in Hrun.
      apply (IH _ _ _ _ Hiso Hrun).
      destruct Hor as [H | (x & Hx & Hnot)]; [by left | right].
      exists x. split; [| done].
      apply elem_of_cons in Hx as [-> | Hx]; [by destruct Hnot | done].
    + rewrite bool_decide_eq_false_2 in Hrun by done.
      rewrite (bind_ok _ _ _ _ _ (log_run _ _)) in Hrun.
      apply bind_ok_inv in Hrun as (d1 & w1 & Hpw & Hrest).
      rewrite on_exception_run in Hpw.
      destruct (process_window _ _ _ _ _ _) as [[d | e] wp] eqn:Hp;
        [| discriminate].
      injection Hpw as -> ->.
      apply (IH _ _ _ _ Hiso Hrest). left.
      by apply (process_window_leaves_part _ _ _ _ _ _ _ _ Ha Hb Hp).
Qed.

(** The windows of [month_ranges] are pairs of ISO dates. *)
Lemma month_ranges_iso pd_to_datetime start end_ ranges :
  (forall str d, pd_to_datetime str = Ok d -> valid_date d /\ year d < MAXYEAR) ->
  month_ranges pd_to_datetime start end_ = Ok ranges ->
  exists ws, ranges = map iso_window ws.
Proof.
  intros Hpd Hrun. unfold month_ranges in Hrun.
  destruct (pd_to_datetime start) as [s |] eqn:Hs; [| discriminate].
  destruct (pd_to_datetime end_) as [e |] eqn:He; [| discriminate].
  simpl in Hrun.
  destruct (Hpd _ _ Hs) as [Hvs _]. destruct (Hpd _ _ He) as [Hve Hye].
  destruct (make_date (year s) (month s) 1) as [cur |] eqn:Hcur; [| discriminate].
  simpl in Hrun. unfold make_date in Hcur.
  destruct (valid_dateb _) eqn:Hvc; [| discriminate]. injection Hcur as <-.
  destruct (month_ranges_loop_tiles e Hve Hye _ (mkdate (year s) (month s) 1) []
              eq_refl Hvc eq_refl) as (ws & Hloop & Ht & Hall).
  rewrite Hloop in Hrun. injection Hrun as <-. by exists ws.
Qed.

(** X10.  A run that returns after at least one window of the range was
    left to process (its key was not in the checkpoint) has written the
    two master files, with the same table: the part of that window is
    there to be merged. *)
Theorem master_outputs_after_processing
    (pd_to_datetime : string -> result date) (py_int : string -> option Z)
    (start end_ lang : string) (mv : Z) (mp : option Z) (w0 w' : world)
    (ranges : list (string * string)) (done0 : gset string) :
  (forall str d, pd_to_datetime str = Ok d -> valid_date d /\ year d < MAXYEAR) ->
  month_ranges pd_to_datetime start end_ = Ok ranges ->
  done_on_disk (fs w0) = Ok done0 ->
  (exists x, x ∈ ranges /\ key_of x ∉ done0) ->
  run_monthly_backfill pd_to_datetime py_int start end_ lang mv mp w0
    = (Ok tt, w') ->
  exists df,
    fs w' !! (master_paths start end_).1 = Some (CsvFile df)
    /\ fs w' !! (master_paths start end_).2 = Some (ParquetFile df).
Proof.
  intros Hpd Hmr Hdisk Hleft Hrun.
  unfold run_monthly_backfill in Hrun.
  apply bind_ok_inv in Hrun as ([[cfg rg] dn] & w1 & Hsetup & Hrun).
  apply bind_ok_inv in Hrun as (done' & wm & Hloop & Hmerge).
  apply backfill_setup_run in Hsetup as (Hfs & _ & Hmr' & Hdisk' & _).
  rewrite Hmr in Hmr'. injection Hmr' as <-.
  rewrite Hdisk in Hdisk'. injection Hdisk' as <-.
  destruct (month_ranges_iso _ _ _ _ Hpd Hmr) as (ws & Hws).
  cbn [fst snd] in Hloop.
  assert (Forall (fun x => has_slash x.1 = false /\ has_slash x.2 = false)
            ranges) as Hiso.
  { rewrite Hws. apply Forall_forall. intros x Hx.
    apply list_elem_of_fmap in Hx as (w & -> & _).
    unfold iso_window. cbn [fst snd]. by rewrite !isoformat_no_slash. }
  assert (glob_parts (fs wm) <> []) as Hparts
    by (apply (backfill_loop_leaves_part _ _ _ _ _ _ _ Hiso Hloop); by right).
  pose proof (master_paths_distinct start end_) as Hne.
  revert Hmerge Hne.
  generalize (master_paths start end_).1 (master_paths start end_).2.
  intros csv parquet Hmerge Hne.
  apply merge_parts_run in Hmerge as [_ Hsome].
  destruct (Hsome Hparts) as (df & ->). exists df.
  split; [| apply lookup_insert_eq].
  rewrite lookup_insert_ne by (intros E; by apply Hne).
  apply lookup_insert_eq.
Qed.

(** C9, as amended.  A run that returns has ended its loop and then
    merged: when at least one partial artifact was on disk at that
    point it has written exactly two master files, the same table as
    CSV and as Parquet, at two different paths, and when none was on
    disk it has written no master file.  For a range given as ISO dates
    the two paths are "tmdb_movies_<suffix>.csv" and
    "tmdb_movies_<suffix>.parquet", the suffix being the four-digit
    year when both dates are of the same year, and
    "<fromYear>-<toYear>" otherwise. *)
Theorem master_outputs_named_by_years
    (pd_to_datetime : string -> result date) (py_int : string -> option Z)
    (start end_ lang : string) (mv : Z) (mp : option Z) (w0 w' : world) :
  run_monthly_backfill pd_to_datetime py_int start end_ lang mv mp w0
    = (Ok tt, w') ->
  let csv := (master_paths start end_).1 in
  let parquet := (master_paths start end_).2 in
  (exists st w1 done' wm,
     backfill_setup pd_to_datetime py_int start end_ lang mv mp w0 = (Ok st, w1)
     /\ backfill_loop py_int st.1.1 st.1.2 st.2 w1 = (Ok done', wm)
     /\ (glob_parts (fs wm) <> [] ->
         exists df,
           fs w' = <[parquet := ParquetFile df]> (<[csv := CsvFile df]> (fs wm)))
     /\ (glob_parts (fs wm) = [] -> fs w' = fs wm))
  /\ csv <> parquet
  /\ (forall s e, start = isoformat s -> end_ = isoformat e ->
        valid_date s -> valid_date e ->
        (year s = year e ->
           csv = "tmdb_movies_" +:+ pad4 (year s) +:+ ".csv"
           /\ parquet = "tmdb_movies_" +:+ pad4 (year s) +:+ ".parquet")
        /\ (year s <> year e ->
           csv = "tmdb_movies_" +:+ (pad4 (year s) +:+ "-" +:+ pad4 (year e))
                 +:+ ".csv"
           /\ parquet = "tmdb_movies_" +:+ (pad4 (year s) +:+ "-" +:+ pad4 (year e))
                        +:+ ".parquet")).
Proof.
  intros Hrun csv parquet. split; [| split].
  - unfold run_monthly_backfill in Hrun.
    apply bind_ok_inv in Hrun as (st & w1 & Hsetup & Hrun).
    apply bind_ok_inv in Hrun as (done' & wm & Hloop & Hmerge).
    apply merge_parts_run in Hmerge as [Hnone Hsome].
    exists st, w1, done', wm. done.
  - apply master_paths_distinct.
  - intros s e -> -> Hs He. subst csv parquet. unfold master_paths.
    rewrite !year_prefix. cbn [fst snd].
    pose proof (valid_date_bounds _ Hs) as (Hys & _).
    pose proof (valid_date_bounds _ He) as (Hye & _).
    split.
    + intros ->. by rewrite String.eqb_refl.
    + intros Hne. destruct (String.eqb_spec (pad4 (year s)) (pad4 (year e)))
        as [Heq | _]; [| done].
      apply pad4_inj in Heq; [done | lia | lia].
Qed.

Lemma returned_ok {A : Type} (p : result A * world) (a : A) :
  p.1 = Ok a -> p = (Ok a, p.2).
Proof. destruct p as [r w]. simpl. by intros ->. Qed.

Example master_paths_several_years :
  master_paths "2021-01-01" "2023-12-31" =
  ("tmdb_movies_2021-2023.csv", "tmdb_movies_2021-2023.parquet").
Proof. reflexivity. Qed.

Example master_paths_same_year :
  master_paths "2024-01-01" "2024-12-31" =
  ("tmdb_movies_2024.csv", "tmdb_movies_2024.parquet").
Proof. reflexivity. Qed.

Lemma two_year_run_returns : two_year_run.1 = Ok tt.
Proof. vm_compute. reflexivity. Qed.

Lemma master_outputs_named_by_years_witness :
  let start := "2022-12-01" in
  let end_ := "2023-01-31" in
  let w0 := steady_world 1 in
  let csv := (master_paths start end_).1 in
  let parquet := (master_paths start end_).2 in
  (exists st w1 done' wm,
     backfill_setup parse_iso int_of_decimal start end_ "en-US" 0 None w0
       = (Ok st, w1)
     /\ backfill_loop int_of_decimal st.1.1 st.1.2 st.2 w1 = (Ok done', wm)
     /\ (glob_parts (fs wm) <> [] ->
         exists df,
           fs two_year_run.2
           = <[parquet := ParquetFile df]> (<[csv := CsvFile df]> (fs wm)))
     /\ (glob_parts (fs wm) = [] -> fs two_year_run.2 = fs wm))
  /\ csv <> parquet
  /\ (forall s e, start = isoformat s -> end_ = isoformat e ->
        valid_date s -> valid_date e ->
        (year s = year e ->
           csv = "tmdb_movies_" +:+ pad4 (year s) +:+ ".csv"
           /\ parquet = "tmdb_movies_" +:+ pad4 (year s) +:+ ".parquet")
        /\ (year s <> year e ->
           csv = "tmdb_movies_" +:+ (pad4 (year s) +:+ "-" +:+ pad4 (year e))
                 +:+ ".csv"
           /\ parquet = "tmdb_movies_" +:+ (pad4 (year s) +:+ "-" +:+ pad4 (year e))
                        +:+ ".parquet")).
Proof.
  exact (master_outputs_named_by_years parse_iso int_of_decimal "2022-12-01"
           "2023-01-31" "en-US" 0 None (steady_world 1) two_year_run.2
           (returned_ok two_year_run tt two_year_run_returns)).
Defined.

Example master_outputs_written :
  two_year_run.1 = Ok tt
  /\ (elements (dom (fs two_year_run.2)) : list string)
     ≡ₚ [ "tmdb_monthly_checkpoint.json";
          "tmdb_monthly_parts/tmdb_2022-12-01_to_2022-12-31.parquet";
          "tmdb_monthly_parts/tmdb_2023-01-01_to_2023-01-31.parquet";
          "tmdb_movies_2022-2023.csv"; "tmdb_movies_2022-2023.parquet" ].
Proof.
  split; [vm_compute; reflexivity |].
  apply (bool_decide_unpack _). vm_compute. exact I.
Qed.

(** C9 as stated fails when nothing is left to merge: with January 2023
    already in the checkpoint and no partial artifact on disk, the run
    for 2023-01-01 .. 2023-01-31 returns normally and has written no
    master file. *)
Lemma no_master_outputs_without_parts :
  let run :=
    run_monthly_backfill parse_iso int_of_decimal "2023-01-01" "2023-01-31"
      "en-US" 0 None (mkworld (steady_net 1) [] [] [] resumed_files) in
  run.1 = Ok tt
  /\ master_paths "2023-01-01" "2023-01-31"
     = ("tmdb_movies_2023.csv", "tmdb_movies_2023.parquet")
  /\ fs run.2 !! "tmdb_movies_2023.csv" = None
  /\ fs run.2 !! "tmdb_movies_2023.parquet" = None
  /\ (elements (dom (fs run.2)) : list string) = ["tmdb_monthly_checkpoint.json"].
Proof.
  split; [vm_compute; reflexivity |].
  split; [reflexivity |].
  split; [vm_compute; reflexivity |].
  split; vm_compute; reflexivity.
Qed.

(** ** Further properties of the normalizer *)

Lemma normalize_row_outcome ib ps gm m :
  (genre_ids_iterable m /\ exists d, normalize_row ib ps gm m = Ok d)
  \/ (~ genre_ids_iterable m /\ normalize_row ib ps gm m = Raise TypeError).
Proof.
  unfold normalize_row, genre_ids_iterable.
  destruct (m !! "genre_ids") as [v |]; simpl.
  - destruct v; simpl;
      try (right; split; [by intros [? ?] | done]);
      left; (split; [by eexists | by eexists]).
  - left. split; [done | by eexists].
Qed.

Lemma normalize_rows_raises ib ps gm raws : forall acc,
  (exists m, m ∈ raws /\ ~ genre_ids_iterable m) ->
  normalize_rows ib ps gm raws acc = Raise TypeError.
Proof.
  induction raws as [| m0 rest IH]; intros acc (m & Hin & Hbad).
  - by apply elem_of_nil in Hin.
  - simpl. destruct (normalize_row_outcome ib ps gm m0) as [[Hok [d ->]] | [_ ->]];
      [| done].
    simpl. apply IH. exists m. split; [| done].
    apply elem_of_cons in Hin as [-> | Hin]; [done | done].
Qed.

(** X1.  [normalize_to_df] fails exactly on a [genre_ids] that cannot be
    iterated over (null, a number, a boolean): one such record among
    the raw records makes the whole call raise [TypeError], whatever
    the other records are. *)
Theorem normalize_to_df_raises_on_bad_genre_ids
    (raws : list (gmap string pyval)) (ib ps : pyval) (gm : gmap Z string) :
  (exists m, m ∈ raws /\ ~ genre_ids_iterable m) ->
  normalize_to_df raws ib ps gm = Raise TypeError.
Proof.
  intros Hbad. unfold normalize_to_df.
  by rewrite (normalize_rows_raises ib ps gm raws [] Hbad).
Qed.

Lemma normalize_to_df_raises_on_bad_genre_ids_witness :
  normalize_to_df [sample_movie; sample_movie_null_genres]
    (PyStr "https://cdn/") (PyStr "w500") sample_genres = Raise TypeError.
Proof.
  apply (normalize_to_df_raises_on_bad_genre_ids
           [sample_movie; sample_movie_null_genres]).
  exists sample_movie_null_genres. split; [right; left |].
  intros [items Hitems]. vm_compute in Hitems. discriminate.
Defined.



Lemma normalize_row_reads_source_keys ib ps gm m m' :
  (forall k, k ∈ source_keys -> m !! k = m' !! k) ->
  normalize_row ib ps gm m = normalize_row ib ps gm m'.
Proof.
  intros H. unfold normalize_row, dict_get.
  rewrite !(H _) by decide_now. reflexivity.
Qed.

Lemma normalize_rows_reads_source_keys ib ps gm raws raws' :
  Forall2 (fun m m' => forall k, k ∈ source_keys -> m !! k = m' !! k) raws raws' ->
  forall acc,
    normalize_rows ib ps gm raws acc = normalize_rows ib ps gm raws' acc.
Proof.
  induction 1 as [| m m' raws raws' Hm _ IH]; intros acc; simpl; [done |].
  rewrite (normalize_row_reads_source_keys ib ps gm m m' Hm).
  destruct (normalize_row ib ps gm m') as [d |]; simpl; [apply IH | done].
Qed.

(** X3.  [normalize_to_df] reads eleven keys of a raw record and nothing
    else: two lists of records that agree, record by record, on [id],
    [title], [original_title], [release_date], [genre_ids],
    [vote_average], [vote_count], [popularity], [original_language],
    [overview] and [poster_path] give the same result, table or
    exception. *)
Theorem normalize_to_df_reads_source_keys
    (raws raws' : list (gmap string pyval)) (ib ps : pyval) (gm : gmap Z string) :
  Forall2 (fun m m' => forall k, k ∈ source_keys -> m !! k = m' !! k) raws raws' ->
  normalize_to_df raws ib ps gm = normalize_to_df raws' ib ps gm.
Proof.
  intros H. unfold normalize_to_df.
  by rewrite (normalize_rows_reads_source_keys ib ps gm raws raws' H []).
Qed.

Lemma normalize_to_df_reads_source_keys_witness :
  normalize_to_df [sample_movie_more_fields] (PyStr "https://cdn/")
    (PyStr "w500") sample_genres
  = normalize_to_df [sample_movie] (PyStr "https://cdn/") (PyStr "w500")
      sample_genres.
Proof.
  apply (normalize_to_df_reads_source_keys [sample_movie_more_fields]
           [sample_movie]).
  constructor; [| constructor].
  intros k Hk. unfold sample_movie_more_fields.
  rewrite !lookup_insert_ne; [done | |];
    intros <-; revert Hk; apply (bool_decide_unpack _); vm_compute; exact I.
Defined.

(** ** Further properties of the TMDB helpers *)

(** X4.  Once the configuration is fetched, [get_image_base_and_size]
    returns without raising, and the poster size it returns is "w500"
    when the configuration offers it; otherwise the size in the middle
    of the offered list (index [len // 2], which always exists); and
    "original" only when no size is offered or the key is missing. *)
Theorem get_image_base_and_size_size
    (py_int : string -> option Z) (w : world) (cfg : api_doc) (w1 : world) :
  safe_get_default py_int "/configuration" ∅ w = (Ok cfg, w1) ->
  let sizes := default [] (poster_sizes (images_of cfg)) in
  exists base size,
    get_image_base_and_size py_int w = (Ok (base, PyStr size), w1)
    /\ ("w500" ∈ sizes -> size = "w500")
    /\ ("w500" ∉ sizes -> sizes <> [] ->
          sizes !! (length sizes / 2)%nat = Some size)
    /\ (sizes = [] -> size = "original")
    /\ (sizes <> [] -> size ∈ sizes).
Proof.
  intros Hget sizes. unfold get_image_base_and_size.
  rewrite (bind_ok _ _ _ _ _ Hget). fold (images_of cfg). fold sizes.
  eexists _, _. split; [reflexivity |].
  destruct (decide ("w500" ∈ sizes)) as [Hin | Hout].
  - rewrite bool_decide_eq_true_2 by done.
    split; [done |]. split; [done |].
    split; [intros E; rewrite E in Hin; by apply elem_of_nil in Hin | done].
  - rewrite bool_decide_eq_false_2 by done.
    split; [done |].
    assert (sizes <> [] -> sizes !! (length sizes / 2)%nat
            = Some (nth (length sizes / 2) sizes "original")) as Hmid.
    { intros Hne.
      assert (length sizes / 2 < length sizes)%nat as Hlt.
      { destruct sizes as [| s0 rest]; [done |].
        apply Nat.Div0.div_lt_upper_bound. simpl. lia. }
      destruct (lookup_lt_is_Some_2 sizes _ Hlt) as [x Hx].
      rewrite Hx. f_equal. symmetry. by apply nth_lookup_Some. }
    split; [| split].
    + intros _ Hne. destruct sizes as [| s0 rest]; [done |]. by apply Hmid.
    + by intros ->.
    + intros Hne. destruct sizes as [| s0 rest] eqn:E; [done |].
      eapply list_elem_of_lookup_2. by apply Hmid.
Qed.

Lemma get_image_base_and_size_size_witness :
  let sizes := default [] (poster_sizes (images_of sizes_doc)) in
  exists base size,
    get_image_base_and_size int_of_decimal (answering sizes_doc)
      = (Ok (base, PyStr size),
         called (BASE +:+ "/configuration") ∅ (answering sizes_doc))
    /\ ("w500" ∈ sizes -> size = "w500")
    /\ ("w500" ∉ sizes -> sizes <> [] ->
          sizes !! (length sizes / 2)%nat = Some size)
    /\ (sizes = [] -> size = "original")
    /\ (sizes <> [] -> size ∈ sizes).
Proof.
  apply (get_image_base_and_size_size int_of_decimal (answering sizes_doc)
           sizes_doc).
  reflexivity.
Defined.

Example get_image_base_and_size_middle :
  (get_image_base_and_size int_of_decimal (answering sizes_doc)).1
  = Ok (PyStr "https://cdn/", PyStr "w185").
Proof. reflexivity. Qed.

(** X5.  When the configuration names no usable base URL
    ([secure_base_url] missing or empty and [base_url] missing),
    [get_image_base_and_size] returns [None] as the base without
    raising, and [normalize_to_df], given that base, writes poster URLs
    that begin with the text "None". *)
Theorem missing_image_base_gives_None_urls
    (py_int : string -> option Z) (w : world) (cfg : api_doc) (w1 : world)
    (raws : list (gmap string pyval)) (gm : gmap Z string) (df : frame)
    (i : nat) (m : gmap string pyval) (r : list pyval) (p : string) :
  safe_get_default py_int "/configuration" ∅ w = (Ok cfg, w1) ->
  base_url (images_of cfg) = None ->
  secure_base_url (images_of cfg) = None
  \/ secure_base_url (images_of cfg) = Some "" ->
  exists size,
    get_image_base_and_size py_int w = (Ok (PyNone, PyStr size), w1)
    /\ (normalize_to_df raws PyNone (PyStr size) gm = Ok df ->
        raws !! i = Some m -> rows df !! i = Some r ->
        m !! "poster_path" = Some (PyStr p) -> p <> "" ->
        cell (columns df) r "poster_url" = PyStr ("None" +:+ size +:+ p)).
Proof.
  intros Hget Hbase Hsec. unfold get_image_base_and_size.
  rewrite (bind_ok _ _ _ _ _ Hget). fold (images_of cfg).
  eexists. split.
  - rewrite Hbase. by destruct Hsec as [-> | ->].
  - intros Hdf Hm Hr Hp Hne.
    destruct (normalize_to_df_spec _ _ _ _ _ Hdf) as (Hcols & _ & Hrows).
    destruct (Hrows i m Hm) as (d & r' & Hd & Hr' & Hcells).
    assert (r' = r) as -> by congruence.
    destruct (normalize_row_cells _ _ _ _ _ Hd) as (gids & _ & _ & Hurl & _).
    rewrite Hcols, Hcells by decide_now. rewrite Hurl.
    unfold dict_get. rewrite Hp. simpl.
    by destruct (String.eqb_spec p "").
Qed.

Lemma missing_image_base_gives_None_urls_witness :
  exists size,
    get_image_base_and_size int_of_decimal (steady_world 1)
      = (Ok (PyNone, PyStr size),
         called (BASE +:+ "/configuration") ∅ (steady_world 1))
    /\ (normalize_to_df [sample_movie] PyNone (PyStr size) sample_genres
          = Ok (mkframe COLS
                  [[ PyInt 1; PyStr "Test Movie"; PyStr "Test Movie OT";
                     PyStr "2023-06-15"; PyStr "Action|9999"; PyFloat "7.5";
                     PyInt 1000; PyFloat "120.5"; PyStr "en";
                     PyStr "A test movie."; PyStr "Noneoriginal/abc123.jpg" ]]) ->
        [sample_movie] !! 0%nat = Some sample_movie ->
        [[ PyInt 1; PyStr "Test Movie"; PyStr "Test Movie OT";
           PyStr "2023-06-15"; PyStr "Action|9999"; PyFloat "7.5";
           PyInt 1000; PyFloat "120.5"; PyStr "en";
           PyStr "A test movie."; PyStr "Noneoriginal/abc123.jpg" ]] !! 0%nat
          = Some [ PyInt 1; PyStr "Test Movie"; PyStr "Test Movie OT";
                   PyStr "2023-06-15"; PyStr "Action|9999"; PyFloat "7.5";
                   PyInt 1000; PyFloat "120.5"; PyStr "en";
                   PyStr "A test movie."; PyStr "Noneoriginal/abc123.jpg" ] ->
        sample_movie !! "poster_path" = Some (PyStr "/abc123.jpg") ->
        "/abc123.jpg" <> "" ->
        cell COLS
          [ PyInt 1; PyStr "Test Movie"; PyStr "Test Movie OT";
            PyStr "2023-06-15"; PyStr "Action|9999"; PyFloat "7.5";
            PyInt 1000; PyFloat "120.5"; PyStr "en";
            PyStr "A test movie."; PyStr "Noneoriginal/abc123.jpg" ]
          "poster_url" = PyStr ("None" +:+ size +:+ "/abc123.jpg")).
Proof.
  apply (missing_image_base_gives_None_urls int_of_decimal (steady_world 1)
           (page_doc 1) _ [sample_movie] sample_genres
           (mkframe COLS _) 0%nat sample_movie _ "/abc123.jpg");
    [reflexivity | reflexivity | by left].
Defined.

Example None_poster_url :
  normalize_to_df [sample_movie] PyNone (PyStr "original") sample_genres
  = Ok (mkframe COLS
          [[ PyInt 1; PyStr "Test Movie"; PyStr "Test Movie OT";
             PyStr "2023-06-15"; PyStr "Action|9999"; PyFloat "7.5";
             PyInt 1000; PyFloat "120.5"; PyStr "en";
             PyStr "A test movie."; PyStr "Noneoriginal/abc123.jpg" ]]).
Proof. vm_compute. reflexivity. Qed.

Lemma genre_fold_snoc (l : list genre_doc) (g : genre_doc) :
  foldl (fun (m : gmap Z string) g => <[g_id g := g_name g]> m) ∅ (l ++ [g])
  = <[g_id g := g_name g]>
      (foldl (fun (m : gmap Z string) g => <[g_id g := g_name g]> m) ∅ l).
Proof. by rewrite foldl_app. Qed.

Lemma genre_fold_lookup (l : list genre_doc) (id : Z) :
  foldl (fun (m : gmap Z string) g => <[g_id g := g_name g]> m) ∅ l !! id
  = g_name <$> last (filter (fun g => g_id g = id) l).
Proof.
  induction l as [| g l IH] using rev_ind; [done |].
  rewrite genre_fold_snoc, filter_app.
  destruct (decide (g_id g = id)) as [<- | Hne].
  - rewrite lookup_insert_eq.
    rewrite filter_cons_True by done. rewrite filter_nil.
    by rewrite last_snoc.
  - rewrite lookup_insert_ne by done.
    rewrite filter_cons_False by done. rewrite filter_nil, app_nil_r.
    exact IH.
Qed.

(** X6.  Once the genre list is fetched, [get_genre_map] returns a map
    in which a code is bound to the name of the LAST genre of the list
    that carries that code, and a code that no genre carries is not
    bound (so that the normalizer writes it as a number). *)
Theorem get_genre_map_last_wins
    (py_int : string -> option Z) (lang : string) (w : world) (j : api_doc)
    (w1 : world) :
  safe_get_default py_int "/genre/movie/list" {[ "language" := PyStr lang ]} w
    = (Ok j, w1) ->
  exists gm,
    get_genre_map py_int lang w = (Ok gm, w1)
    /\ forall id,
         gm !! id
         = g_name <$> last (filter (fun g => g_id g = id)
                              (default [] (doc_genres j))).
Proof.
  intros Hget. unfold get_genre_map. rewrite (bind_ok _ _ _ _ _ Hget).
  eexists. split; [reflexivity |]. intros id. apply genre_fold_lookup.
Qed.

Lemma get_genre_map_last_wins_witness :
  exists gm,
    get_genre_map int_of_decimal "tr-TR" (answering genres_doc)
      = (Ok gm,
         called (BASE +:+ "/genre/movie/list") {[ "language" := PyStr "tr-TR" ]}
           (answering genres_doc))
    /\ forall id,
         gm !! id
         = g_name <$> last (filter (fun g => g_id g = id)
                              (default [] (doc_genres genres_doc))).
Proof.
  apply (get_genre_map_last_wins int_of_decimal "tr-TR" (answering genres_doc)
           genres_doc).
  reflexivity.
Defined.

Example get_genre_map_duplicate_code :
  (fun r => match r with Ok gm => (gm !! 28, gm !! 35, gm !! 99) | Raise _ => (None, None, None) end)
    (get_genre_map int_of_decimal "tr-TR" (answering genres_doc)).1
  = (Some "Aksiyon", Some "Comedy", None).
Proof. reflexivity. Qed.

(** ** Further properties of the checkpoint store *)

(** X7.  A [save_checkpoint] that fails raises [OSError] and leaves the
    committed checkpoint as it was: the checkpoint path holds what it
    held, a later [load_checkpoint] reads what it would have read, and
    no path other than the temporary one has changed.  It fails only on
    a store that cannot be written (the temporary path cannot be
    opened, or a directory sits at the checkpoint path). *)
Theorem save_checkpoint_failure_keeps_checkpoint
    (d : json) (w : world) (e : exn) (w' : world) :
  save_checkpoint d w = (Raise e, w') ->
  e = OSError
  /\ ~ checkpoint_writable (fs w)
  /\ fs w' !! CHECKPOINT_MONTHS = fs w !! CHECKPOINT_MONTHS
  /\ checkpoint_of (fs w') = checkpoint_of (fs w)
  /\ (forall p, p <> TMP -> fs w' !! p = fs w !! p).
Proof.
  intros H.
  assert (~ checkpoint_writable (fs w)) as Hnw.
  { intros Hw. rewrite (save_checkpoint_succeeds d w Hw) in H. discriminate. }
  unfold save_checkpoint in H. fold TMP in H.
  assert (e = OSError /\ forall p, p <> TMP -> fs w' !! p = fs w !! p)
    as [-> Hframe].
  { apply bind_raise_inv in H as [H | ([] & w1 & Hwrite & Hrepl)].
    - unfold write_file, mbind, M_bind, get_fs, put_fs, raise in H.
      simpl in H.
      destruct (fs w !! TMP) as [[] |]; try discriminate;
        by injection H as <- <-.
    - apply write_file_run in Hwrite as [[_ ->] | [? _]]; [| discriminate].
      unfold path_replace, mbind, M_bind, get_fs, put_fs, raise in Hrepl.
      simpl in Hrepl. rewrite lookup_insert_eq in Hrepl.
      destruct (<[TMP:=JsonFile d]> (fs w) !! CHECKPOINT_MONTHS) as [[] |];
        try discriminate; injection Hrepl as <- <-.
      split; [done |]. intros p Hp. simpl. by rewrite lookup_insert_ne. }
  split; [done |]. split; [done |].
  assert (fs w' !! CHECKPOINT_MONTHS = fs w !! CHECKPOINT_MONTHS) as Hcp.
  { apply Hframe. intros E. by apply TMP_neq. }
  split; [done |]. split; [| done].
  unfold checkpoint_of. by rewrite Hcp.
Qed.

Lemma save_checkpoint_failure_keeps_checkpoint_witness :
  OSError = OSError
  /\ ~ checkpoint_writable (fs (world_with_files blocked_files))
  /\ fs (mkworld (fun _ => RequestException) [] [] []
           (<[TMP := JsonFile empty_checkpoint]> blocked_files))
       !! CHECKPOINT_MONTHS
     = fs (world_with_files blocked_files) !! CHECKPOINT_MONTHS
  /\ checkpoint_of
       (fs (mkworld (fun _ => RequestException) [] [] []
              (<[TMP := JsonFile empty_checkpoint]> blocked_files)))
     = checkpoint_of (fs (world_with_files blocked_files))
  /\ (forall p, p <> TMP ->
        fs (mkworld (fun _ => RequestException) [] [] []
              (<[TMP := JsonFile empty_checkpoint]> blocked_files)) !! p
        = fs (world_with_files blocked_files) !! p).
Proof.
  apply (save_checkpoint_failure_keeps_checkpoint empty_checkpoint
           (world_with_files blocked_files) OSError).
  reflexivity.
Defined.

(** X8.  The last save wins: on a store that can be written, saving [X]
    and then [Y] succeeds, leaves the world that saving [Y] alone would
    have left, and a load then returns [Y]. *)
Theorem save_checkpoint_last_wins (X Y : json) (w : world) :
  checkpoint_writable (fs w) ->
  exists w2,
    (save_checkpoint X ≫= fun _ => save_checkpoint Y) w = (Ok tt, w2)
    /\ save_checkpoint Y w = (Ok tt, w2)
    /\ load_checkpoint w2 = (Ok Y, w2)
    /\ checkpoint_writable (fs w2).
Proof.
  intros Hw.
  pose proof (save_checkpoint_succeeds X w Hw) as HX.
  set (w1 := mkworld (net w) (sent w) (slept w) (logged w)
               (<[CHECKPOINT_MONTHS := JsonFile X]> (delete TMP (fs w)))) in *.
  assert (forall Z f, checkpoint_writable f ->
            checkpoint_writable (<[CHECKPOINT_MONTHS := JsonFile Z]> (delete TMP f)))
    as Hkeep.
  { intros Z f _. unfold checkpoint_writable.
    rewrite lookup_insert_ne by (intros E; by apply TMP_neq).
    rewrite lookup_delete_eq, lookup_insert_eq. done. }
  assert (checkpoint_writable (fs w1)) as Hw1 by (by apply Hkeep).
  pose proof (save_checkpoint_succeeds Y w1 Hw1) as HY.
  pose proof (save_checkpoint_succeeds Y w Hw) as HY0.
  eexists. split; [| split; [exact HY0 | split]].
  - rewrite (bind_ok _ _ _ _ _ HX), HY. subst w1. cbn [net sent slept logged fs].
    do 2 f_equal.
    rewrite delete_insert_ne by (intros E; by apply TMP_neq).
    by rewrite delete_delete_eq, insert_insert_eq.
  - apply load_checkpoint_json. cbn [fs]. by rewrite lookup_insert_eq.
  - cbn [fs]. by apply Hkeep.
Qed.

Lemma save_checkpoint_last_wins_witness :
  exists w2,
    (save_checkpoint (JVal JNull) ≫= fun _ => save_checkpoint empty_checkpoint)
      (world_with_files ∅) = (Ok tt, w2)
    /\ save_checkpoint empty_checkpoint (world_with_files ∅) = (Ok tt, w2)
    /\ load_checkpoint w2 = (Ok empty_checkpoint, w2)
    /\ checkpoint_writable (fs w2).
Proof.
  apply (save_checkpoint_last_wins (JVal JNull) empty_checkpoint
           (world_with_files ∅)).
  unfold checkpoint_writable. cbn [fs world_with_files].
  rewrite !lookup_empty. done.
Defined.

(** X9.  A checkpoint file whose bytes are not UTF-8 is not treated as
    corrupted: [load_checkpoint] raises [UnicodeDecodeError] (which its
    [except] clause does not list) instead of starting fresh, logs
    nothing and leaves the files alone. *)
Theorem load_checkpoint_raises_on_undecodable_bytes (w : world) :
  fs w !! CHECKPOINT_MONTHS = Some Garbled ->
  load_checkpoint w = (Raise UnicodeDecodeError, w)
  /\ checkpoint_of (fs w) = Raise UnicodeDecodeError
  /\ done_on_disk (fs w) = Raise UnicodeDecodeError.
Proof.
  intros H. unfold done_on_disk, checkpoint_of, load_checkpoint.
  unfold mbind at 1, M_bind, get_fs. simpl. by rewrite H.
Qed.

Lemma load_checkpoint_raises_on_undecodable_bytes_witness :
  load_checkpoint (world_with_files garbled_files)
    = (Raise UnicodeDecodeError, world_with_files garbled_files)
  /\ checkpoint_of (fs (world_with_files garbled_files))
     = Raise UnicodeDecodeError
  /\ done_on_disk (fs (world_with_files garbled_files))
     = Raise UnicodeDecodeError.
Proof.
  apply (load_checkpoint_raises_on_undecodable_bytes
           (world_with_files garbled_files)).
  reflexivity.
Defined.

(** ** Further properties of the run *)

Lemma master_outputs_after_processing_witness :
  exists df,
    fs two_year_run.2 !! (master_paths "2022-12-01" "2023-01-31").1
      = Some (CsvFile df)
    /\ fs two_year_run.2 !! (master_paths "2022-12-01" "2023-01-31").2
       = Some (ParquetFile df).
Proof.
  apply (master_outputs_after_processing parse_iso int_of_decimal
           "2022-12-01" "2023-01-31" "en-US" 0 None (steady_world 1)
           two_year_run.2
           [("2022-12-01", "2022-12-31"); ("2023-01-01", "2023-01-31")] ∅).
  - apply parse_iso_valid.
  - vm_compute. reflexivity.
  - reflexivity.
  - exists ("2022-12-01", "2022-12-31"). split; [left | set_solver].
  - exact (returned_ok two_year_run tt two_year_run_returns).
Defined.

Lemma keeps_fs_bind {A B : Type} (m : M A) (f : A -> M B) :
  keeps_fs m -> (forall a, keeps_fs (f a)) -> keeps_fs (m ≫= f).
Proof.
  intros Hm Hf w r w'. unfold mbind, M_bind.
  destruct (m w) as [[a | e] w1] eqn:E.
  - intros H. rewrite (Hf a _ _ _ H). by eapply Hm.
  - intros [= <- <-]. by eapply Hm.
Qed.

Lemma keeps_fs_ret {A : Type} (a : A) : keeps_fs (mret a : M A).
Proof. by intros w r w' [= <- <-]. Qed.

Lemma keeps_fs_lift {A : Type} (x : result A) : keeps_fs (lift x).
Proof. by intros w r w' [= <- <-]. Qed.

Lemma keeps_fs_log (x : log_record) : keeps_fs (log x).
Proof. by intros w r w' [= <- <-]. Qed.

Lemma keeps_fs_safe_get py_int path params n base :
  keeps_fs (safe_get py_int path params n base).
Proof. intros w r w' H. by apply safe_get_quiet in H as (_ & ? & _). Qed.

Lemma keeps_fs_load_checkpoint : keeps_fs load_checkpoint.
Proof. intros w r w' H. by apply load_checkpoint_pure in H as (_ & _ & ? & _). Qed.

Lemma keeps_fs_backfill_setup pd_to_datetime py_int start end_ lang mv mp :
  keeps_fs (backfill_setup pd_to_datetime py_int start end_ lang mv mp).
Proof.
  unfold backfill_setup, get_image_base_and_size, get_genre_map, safe_get_default.
  repeat first
    [ apply keeps_fs_safe_get | apply keeps_fs_load_checkpoint
    | apply keeps_fs_ret | apply keeps_fs_lift | apply keeps_fs_log
    | apply keeps_fs_bind; [| intros ?] ].
Qed.

(** X11.  A run does not start on a checkpoint that it cannot read as a
    dictionary of done months (a JSON value that is no object, a
    [done_months] that is no list, bytes that are not UTF-8): it raises
    before any window is taken up, and it has written nothing. *)
Theorem run_needs_usable_checkpoint
    (pd_to_datetime : string -> result date) (py_int : string -> option Z)
    (start end_ lang : string) (mv : Z) (mp : option Z) (w0 : world)
    (e0 : exn) (r : result unit) (w' : world) :
  done_on_disk (fs w0) = Raise e0 ->
  run_monthly_backfill pd_to_datetime py_int start end_ lang mv mp w0 = (r, w') ->
  (exists e, r = Raise e)
  /\ fs w' = fs w0
  /\ exists e,
       backfill_setup pd_to_datetime py_int start end_ lang mv mp w0
       = (Raise e, w').
Proof.
  intros Hdisk Hrun. unfold run_monthly_backfill in Hrun.
  unfold mbind at 1, M_bind at 1 in Hrun.
  destruct (backfill_setup _ _ _ _ _ _ _ w0) as [[[[cfg rg] dn] | e] w1] eqn:Hs.
  - apply backfill_setup_run in Hs as (_ & _ & _ & Hd & _). congruence.
  - injection Hrun as <- <-.
    split; [by exists e |]. split; [| by exists e].
    by apply (keeps_fs_backfill_setup _ _ _ _ _ _ _ _ _ _ Hs).
Qed.

Lemma run_needs_usable_checkpoint_witness :
  let run :=
    run_monthly_backfill parse_iso int_of_decimal "2023-01-01" "2023-01-31"
      "en-US" 0 None (mkworld (steady_net 1) [] [] [] list_checkpoint_files) in
  (exists e, run.1 = Raise e)
  /\ fs run.2 = fs (mkworld (steady_net 1) [] [] [] list_checkpoint_files)
  /\ exists e,
       backfill_setup parse_iso int_of_decimal "2023-01-01" "2023-01-31"
         "en-US" 0 None (mkworld (steady_net 1) [] [] [] list_checkpoint_files)
       = (Raise e, run.2).
Proof.
  apply (run_needs_usable_checkpoint parse_iso int_of_decimal "2023-01-01"
           "2023-01-31" "en-US" 0 None
           (mkworld (steady_net 1) [] [] [] list_checkpoint_files)
           AttributeError);
    [reflexivity | apply surjective_pairing].
Defined.

Example run_on_list_checkpoint :
  (run_monthly_backfill parse_iso int_of_decimal "2023-01-01" "2023-01-31"
     "en-US" 0 None (mkworld (steady_net 1) [] [] [] list_checkpoint_files)).1
  = Raise AttributeError.
Proof. vm_compute. reflexivity. Qed.

Lemma master_paths_not_checkpoint start end_ :
  (master_paths start end_).1 <> CHECKPOINT_MONTHS
  /\ (master_paths start end_).2 <> CHECKPOINT_MONTHS.
Proof.
  unfold master_paths, CHECKPOINT_MONTHS. cbn [fst snd].
  split; simpl; discriminate.
Qed.

(** When every window is in the set of done windows, the loop skips
    them all: it returns the set as it was, logs one skip per window
    and does nothing else. *)
Lemma backfill_loop_skips_all py_int cfg ranges : forall done w,
  (forall x, x ∈ ranges -> key_of x ∈ done) ->
  backfill_loop py_int cfg ranges done w
  = (Ok done,
     mkworld (net w) (sent w) (slept w)
       (logged w ++ map (fun x => LogSkip x.1 x.2) ranges) (fs w)).
Proof.
  induction ranges as [| [a b] rest IH]; intros done w Hall.
  - simpl. rewrite app_nil_r. by destruct w.
  - cbn [backfill_loop].
    rewrite bool_decide_eq_true_2 by (apply (Hall (a, b)); left).
    rewrite (bind_ok _ _ _ _ _ (log_run _ _)).
    rewrite IH by (intros x Hx; apply Hall; by right).
    simpl. by rewrite <- app_assoc.
Qed.

(** X12.  After a run that returned, a second run over the same range
    on the files it left finds every window in the checkpoint: its loop
    skips them all, asks the API for no page, sleeps for nothing,
    writes no file and logs one skip per window. *)
Theorem rerun_fetches_nothing
    (pd_to_datetime : string -> result date) (py_int : string -> option Z)
    (start end_ lang : string) (mv : Z) (mp : option Z) (w0 w' : world)
    (w0r : world) (cfg : run_config) (ranges : list (string * string))
    (done0 : gset string) (w1 : world) :
  (forall str d, pd_to_datetime str = Ok d -> valid_date d /\ year d < MAXYEAR) ->
  run_monthly_backfill pd_to_datetime py_int start end_ lang mv mp w0
    = (Ok tt, w') ->
  fs w0r = fs w' ->
  backfill_setup pd_to_datetime py_int start end_ lang mv mp w0r
    = (Ok (cfg, ranges, done0), w1) ->
  (forall x, x ∈ ranges -> key_of x ∈ done0)
  /\ backfill_loop py_int cfg ranges done0 w1
     = (Ok done0,
        mkworld (net w1) (sent w1) (slept w1)
          (logged w1 ++ map (fun x => LogSkip x.1 x.2) ranges) (fs w1)).
Proof.
  intros Hpd Hrun Hfs Hsetup2.
  unfold run_monthly_backfill in Hrun.
  apply bind_ok_inv in Hrun as ([[cfg1 rg1] dn1] & wa & Hsetup1 & Hrun).
  apply bind_ok_inv in Hrun as (done' & wm & Hloop & Hmerge).
  cbn [fst snd] in Hloop.
  apply backfill_setup_run in Hsetup1 as (Hfa & _ & Hmr1 & Hd1 & _).
  apply backfill_setup_run in Hsetup2 as (_ & _ & Hmr2 & Hd2 & _).
  rewrite Hmr1 in Hmr2. injection Hmr2 as ->.
  pose proof (month_ranges_keys_NoDup _ _ _ _ Hpd Hmr1) as Hnd.
  rewrite <- Hfa in Hd1.
  destruct (backfill_loop_run _ _ _ _ _ _ _ Hd1 Hnd Hloop)
    as (_ & k & lg & _ & _ & _ & _ & -> & Hdm).
  assert (done_on_disk (fs w') = done_on_disk (fs wm)) as Hsame.
  { apply done_on_disk_ext.
    destruct (master_paths_not_checkpoint start end_) as [Hc Hp].
    apply merge_parts_run in Hmerge as [Hnone Hsome].
    destruct (decide (glob_parts (fs wm) = [])) as [E | E].
    - by rewrite (Hnone E).
    - destruct (Hsome E) as (df & ->).
      by rewrite !lookup_insert_ne by done. }
  assert (forall x, x ∈ ranges -> key_of x ∈ done0) as Hall.
  { intros x Hx. rewrite Hfs, Hsame, Hdm in Hd2. injection Hd2 as <-.
    apply elem_of_union_r, elem_of_list_to_set, list_elem_of_fmap.
    by exists x. }
  split; [exact Hall |]. by apply backfill_loop_skips_all.
Qed.

Lemma two_year_rerun_setup :
  (backfill_setup parse_iso int_of_decimal "2022-12-01" "2023-01-31" "en-US" 0
     None two_year_rerun_world).1
  = Ok (mkconfig "en-US" 0 None PyNone (PyStr "original") ∅,
        [("2022-12-01", "2022-12-31"); ("2023-01-01", "2023-01-31")],
        {[ "2022-12-01_2022-12-31"; "2023-01-01_2023-01-31" ]}).
Proof. vm_compute. reflexivity. Qed.

Lemma rerun_fetches_nothing_witness :
  let cfg := mkconfig "en-US" 0 None PyNone (PyStr "original") ∅ in
  let ranges := [("2022-12-01", "2022-12-31"); ("2023-01-01", "2023-01-31")] in
  let done0 : gset string :=
    {[ "2022-12-01_2022-12-31"; "2023-01-01_2023-01-31" ]} in
  let w1 :=
    (backfill_setup parse_iso int_of_decimal "2022-12-01" "2023-01-31" "en-US"
       0 None two_year_rerun_world).2 in
  (forall x, x ∈ ranges -> key_of x ∈ done0)
  /\ backfill_loop int_of_decimal cfg ranges done0 w1
     = (Ok done0,
        mkworld (net w1) (sent w1) (slept w1)
          (logged w1 ++ map (fun x => LogSkip x.1 x.2) ranges) (fs w1)).
Proof.
  exact (rerun_fetches_nothing parse_iso int_of_decimal "2022-12-01"
           "2023-01-31" "en-US" 0 None (steady_world 1) two_year_run.2
           two_year_rerun_world _ _ _ _ parse_iso_valid
           (returned_ok two_year_run tt two_year_run_returns) eq_refl
           (returned_ok _ _ two_year_rerun_setup)).
Defined.

(** *** Tables without duplicates *)




Lemma column_reindex cols df c :
  c ∈ cols -> column (reindex cols df) c = column df c.
Proof.
  intros Hc. unfold column, reindex. simpl. rewrite map_map.
  apply map_ext. intros r. by apply cell_map.
Qed.










Lemma process_repeating_window_returns :
  (process_window int_of_decimal plain_config "2023-01-01" "2023-01-31" ∅
     repeating_world).1 = Ok {[ "2023-01-01_2023-01-31" ]}.
Proof. vm_compute. reflexivity. Qed.


Example repeating_window_part :
  (fun f => match f !! part_filename "2023-01-01" "2023-01-31" with
            | Some (ParquetFile df) => Some (column df "tmdb_id")
            | _ => None
            end)
    (fs (process_window int_of_decimal plain_config "2023-01-01" "2023-01-31" ∅
           repeating_world).2)
  = Some [PyInt 7; PyInt 8].
Proof. vm_compute. reflexivity. Qed.

Lemma Sorted_leb (l : list string) :
  Sorted (fun a b : string => String.leb a b) l ->
  Sorted (fun a b : string => String.leb a b = true) l.
Proof.
  induction 1 as [| x l Hs IH Hhd]; constructor; [done |].
  destruct Hhd as [| y l' Hxy]; constructor. by apply Is_true_true.
Qed.

Lemma sorted_strings_Sorted (X : gset string) :
  Sorted (fun a b : string => String.leb a b = true) (sorted_strings X)
  /\ NoDup (sorted_strings X)
  /\ forall k, k ∈ sorted_strings X <-> k ∈ X.
Proof.
  unfold sorted_strings.
  pose proof (merge_sort_Permutation (fun a b : string => String.leb a b)
                (elements X)) as Hperm.
  split; [| split].
  - apply Sorted_leb, Sorted_merge_sort. intros x y.
    destruct (String.leb_total x y) as [H | H]; [left | right];
      by apply Is_true_true.
  - rewrite Hperm. apply NoDup_elements.
  - intros k. rewrite Hperm. apply elem_of_elements.
Qed.

(** X15.  A window that is processed leaves a checkpoint file in
    canonical form: an object whose [done_months] lists the key of the
    window and the keys done before, each once, in ascending order of
    code points; and no temporary file is left beside it. *)
Theorem process_window_checkpoint
    (py_int : string -> option Z) (cfg : run_config) (a b : string)
    (done : gset string) (w : world) (done' : gset string) (w' : world) :
  process_window py_int cfg a b done w = (Ok done', w') ->
  exists keys,
    fs w' !! CHECKPOINT_MONTHS
      = Some (JsonFile (JObj {[ "done_months" := JStrs keys ]}))
    /\ fs w' !! TMP = None
    /\ Sorted (fun x y : string => String.leb x y = true) keys
    /\ NoDup keys
    /\ (forall k, k ∈ keys <-> k = window_key a b \/ k ∈ done)
    /\ (forall k, k ∈ done' <-> k = window_key a b \/ k ∈ done).
Proof.
  intros H. apply process_window_run in H as (_ & _ & -> & _ & df & ->).
  exists (sorted_strings ({[ window_key a b ]} ∪ done)).
  destruct (sorted_strings_Sorted ({[ window_key a b ]} ∪ done))
    as (Hs & Hnd & Hiff).
  split; [by rewrite lookup_insert_eq |].
  split.
  { rewrite lookup_insert_ne by (intros E; by apply TMP_neq).
    by rewrite lookup_delete_eq. }
  split; [done |]. split; [done |].
  split; intros k; [rewrite Hiff |]; set_solver.
Qed.

Lemma process_window_checkpoint_witness :
  let w' :=
    (process_window int_of_decimal plain_config "2023-01-01" "2023-01-31" ∅
       repeating_world).2 in
  exists keys,
    fs w' !! CHECKPOINT_MONTHS
      = Some (JsonFile (JObj {[ "done_months" := JStrs keys ]}))
    /\ fs w' !! TMP = None
    /\ Sorted (fun x y : string => String.leb x y = true) keys
    /\ NoDup keys
    /\ (forall k, k ∈ keys <->
          k = window_key "2023-01-01" "2023-01-31" \/ k ∈ (∅ : gset string))
    /\ (forall k, k ∈ ({[ "2023-01-01_2023-01-31" ]} : gset string) <->
          k = window_key "2023-01-01" "2023-01-31" \/ k ∈ (∅ : gset string)).
Proof.
  exact (process_window_checkpoint int_of_decimal plain_config "2023-01-01"
           "2023-01-31" ∅ repeating_world _ _
           (returned_ok _ _ process_repeating_window_returns)).
Defined.

(** ** Further properties of the month partitioner *)

Lemma month_first_number d :
  valid_date d -> day d = 1 -> month_first (month_number d) = d.
Proof.
  intros Hv Hd. pose proof (valid_date_bounds _ Hv) as (Hy & Hm & _).
  destruct d as [y m d]. simpl in *. subst d.
  unfold month_first, month_number. simpl.
  assert ((12 * y + (m - 1)) / 12 = y) as -> by (Z.div_mod_to_equations; lia).
  assert ((12 * y + (m - 1)) mod 12 = m - 1) as ->
    by (Z.div_mod_to_equations; lia).
  f_equal. lia.
Qed.

Lemma month_number_first i : month_number (month_first i) = i.
Proof.
  unfold month_number, month_first. simpl. Z.div_mod_to_equations. lia.
Qed.

Lemma month_number_last i : month_number (month_last i) = i.
Proof.
  unfold month_number, month_last. simpl. Z.div_mod_to_equations. lia.
Qed.

(** One turn of the loop, month by number. *)
Lemma month_first_step i :
  valid_date (month_first i) -> i / 12 < MAXYEAR ->
  add_one_month (month_first i) = Ok (month_first (i + 1))
  /\ sub_one_day (month_first (i + 1)) = Ok (month_last i).
Proof.
  intros Hv Hy. pose proof (valid_date_bounds _ Hv) as (Hyr & Hmo & _).
  unfold month_first in *. simpl in *. unfold MAXYEAR in *.
  set (y := i / 12) in *. set (m0 := i mod 12) in *.
  assert (i = 12 * y + m0 /\ 0 <= m0 < 12) as [Hi Hm0].
  { subst y m0. Z.div_mod_to_equations. lia. }
  destruct (decide (m0 = 11)) as [H11 | H11].
  - assert ((i + 1) / 12 = y + 1) as Hd by (Z.div_mod_to_equations; lia).
    assert ((i + 1) mod 12 = 0) as Hr by (Z.div_mod_to_equations; lia).
    unfold month_last. fold y m0. rewrite Hd, Hr, H11. simpl.
    unfold add_one_month, sub_one_day, make_date, valid_dateb, MINYEAR, MAXYEAR.
    simpl.
    replace (y + 1 - 1) with y by lia.
    destruct (Z.leb_spec 1 (y + 1)); [| lia].
    destruct (Z.leb_spec (y + 1) 9999); [| lia].
    destruct (Z.ltb_spec 1 (y + 1)); [| lia].
    done.
  - assert ((i + 1) / 12 = y) as Hd by (Z.div_mod_to_equations; lia).
    assert ((i + 1) mod 12 = m0 + 1) as Hr by (Z.div_mod_to_equations; lia).
    unfold month_last. fold y m0. rewrite Hd, Hr.
    pose proof (days_in_month_pos y (m0 + 1 + 1) ltac:(lia)) as Hdim.
    unfold add_one_month, sub_one_day, make_date, valid_dateb, MINYEAR, MAXYEAR.
    simpl.
    destruct (Z.ltb_spec 12 (m0 + 1 + 1)); [lia |].
    rewrite Z.min_r by lia.
    destruct (Z.leb_spec 1 y); [| lia].
    destruct (Z.leb_spec y 9999); [| lia].
    destruct (Z.leb_spec 1 (m0 + 1 + 1)); [| lia].
    destruct (Z.leb_spec (m0 + 1 + 1) 12); [| lia].
    destruct (Z.leb_spec 1 (days_in_month y (m0 + 1 + 1))); [| lia].
    simpl.
    destruct (Z.ltb_spec 1 (m0 + 1 + 1)); [| lia].
    split; [done |]. do 2 f_equal; [lia | f_equal; lia].
Qed.

Lemma date_leb_month_number cur e :
  valid_date cur -> valid_date e -> day cur = 1 ->
  date_leb cur e = true <-> month_number cur <= month_number e.
Proof.
  intros Hvc Hve Hc.
  pose proof (valid_date_bounds _ Hvc) as (_ & Hmc & _).
  pose proof (valid_date_bounds _ Hve) as (_ & Hme & Hde).
  unfold date_leb, date_ltb, month_number.
  destruct cur as [yc mc dc], e as [ye me de]. simpl in *. subst dc.
  destruct (Z.ltb_spec ye yc), (Z.eqb_spec ye yc), (Z.ltb_spec me mc),
    (Z.eqb_spec me mc), (Z.ltb_spec de 1); simpl; split; intros; try lia; done.
Qed.

Lemma date_min_idemp a b : date_min a (date_min a b) = date_min a b.
Proof.
  unfold date_min. destruct (date_ltb b a) eqn:E; [by rewrite E |].
  by destruct (date_ltb a a).
Qed.

Lemma tiles_nonempty_windows ws : forall lo hi w,
  tiles ws lo hi -> w ∈ ws -> toordinal w.1 <= toordinal w.2.
Proof.
  induction ws as [| w0 rest IH]; intros lo hi w Ht Hw.
  - by apply elem_of_nil in Hw.
  - simpl in Ht. destruct Ht as (Hlo & Hb & Hrest).
    apply elem_of_cons in Hw as [-> | Hw]; [lia | by eapply IH].
Qed.

(** The loop of [month_ranges], started on the first day of a month,
    appends the windows of the months from that one to the month of
    [e], in order. *)
Lemma month_ranges_loop_closed_form e :
  valid_date e -> year e < MAXYEAR ->
  forall (n : nat) cur out,
    loop_measure cur e = n -> valid_date cur -> day cur = 1 ->
    let ws := map (month_window e)
                (seqZ (month_number cur)
                   (month_number e - month_number cur + 1)) in
    month_ranges_loop cur e out = Ok (out ++ map iso_window ws)
    /\ tiles ws (toordinal cur) (toordinal e)
    /\ Forall (fun w => valid_date w.1 /\ valid_date w.2) ws.
Proof.
  intros He Hye n. induction n as [n IH] using lt_wf_ind.
  intros cur out Hn Hv Hd ws.
  pose proof (date_leb_month_number cur e Hv He Hd) as Hnum.
  rewrite month_ranges_loop_eq.
  destruct (date_leb cur e) eqn:Hle.
  - assert (month_number cur <= month_number e) as Hidx by (by apply Hnum).
    pose proof (proj1 (date_leb_spec _ _ Hv He) Hle) as Hord.
    assert (year cur < MAXYEAR) as Hyc.
    { unfold date_leb, date_ltb in Hle. lia. }
    destruct (month_step cur Hv Hd Hyc)
      as (nxt & last & Hadd & Hsub & Hvn & Hdn & Hvl & Hcl & Hnl & Hix & Hyl).
    pose proof (month_first_number cur Hv Hd) as Hcur.
    destruct (month_first_step (month_number cur)) as [Hadd' Hsub'].
    { by rewrite Hcur. }
    { rewrite <- Hcur in Hyc. exact Hyc. }
    rewrite Hcur in Hadd'. rewrite Hadd' in Hadd. injection Hadd as <-.
    rewrite Hsub' in Hsub. injection Hsub as <-.
    rewrite Hadd', Hsub'.
    pose proof (add_one_month_measure cur e _ Hle Hadd') as Hdec.
    destruct (IH (loop_measure (month_first (month_number cur + 1)) e)
                ltac:(lia) (month_first (month_number cur + 1))
                (out ++ [(isoformat cur,
                          isoformat (date_min (month_last (month_number cur)) e))])
                eq_refl Hvn Hdn) as (Hrun & Ht & Hall).
    rewrite month_number_first in Hrun, Ht, Hall.
    subst ws. rewrite seqZ_cons by lia. cbn [map].
    replace (Z.succ (month_number cur)) with (month_number cur + 1) by lia.
    replace (Z.pred (month_number e - month_number cur + 1))
      with (month_number e - (month_number cur + 1) + 1) by lia.
    set (rest := map (month_window e)
                   (seqZ (month_number cur + 1)
                      (month_number e - (month_number cur + 1) + 1))) in *.
    unfold month_window at 1. rewrite Hcur.
    split; [rewrite Hrun; by rewrite <- app_assoc |].
    unfold month_window at 1 2. rewrite Hcur. cbn [tiles fst snd].
    unfold date_min.
    pose proof (date_ltb_spec e _ He Hvl) as Hmin.
    destruct (date_ltb e (month_last (month_number cur))) eqn:Hel.
    + assert (toordinal e < toordinal (month_last (month_number cur)))
        by (by apply Hmin).
      split.
      * split; [done |]. split; [lia |].
        pose proof (tiles_empty _ _ _ Ht ltac:(lia)) as Hnil.
        rewrite Hnil. simpl. lia.
      * constructor; [done |]. exact Hall.
    + assert (~ toordinal e < toordinal (month_last (month_number cur)))
        by (intros X; apply Hmin in X; done).
      split.
      * split; [done |]. split; [lia |]. by rewrite <- Hnl.
      * constructor; [done |]. exact Hall.
  - assert (~ month_number cur <= month_number e) as Hidx
      by (intros X; apply Hnum in X; congruence).
    subst ws. rewrite seqZ_nil by lia. simpl. rewrite app_nil_r.
    split; [done |]. split; [| constructor].
    assert (~ toordinal cur <= toordinal e).
    { intros X. apply (date_leb_spec _ _ Hv He) in X. congruence. }
    lia.
Qed.

(** X16.  For dates [s] and [e] read from the two arguments,
    [month_ranges] returns one window per calendar month from the month
    of [s] to the month of [e], in order and none when the month of [e]
    comes before the month of [s]: the window of a month runs from its
    first day to its last day, or to [e] if that comes first. *)
Theorem month_ranges_closed_form
    (pd_to_datetime : string -> result date) (start end_ : string) (s e : date) :
  pd_to_datetime start = Ok s ->
  pd_to_datetime end_ = Ok e ->
  valid_date s -> valid_date e -> year e < MAXYEAR ->
  let months := seqZ (month_number s) (month_number e - month_number s + 1) in
  month_ranges pd_to_datetime start end_
    = Ok (map (fun i => iso_window (month_window e i)) months)
  /\ length months = Z.to_nat (month_number e - month_number s + 1)
  /\ (month_number e < month_number s ->
        month_ranges pd_to_datetime start end_ = Ok []).
Proof.
  intros Hs He Hvs Hve Hye months.
  assert (month_ranges pd_to_datetime start end_
          = Ok (map (fun i => iso_window (month_window e i)) months)) as Hrun.
  { unfold month_ranges. rewrite Hs, He. simpl.
    assert (valid_date (mkdate (year s) (month s) 1)) as Hcur.
    { pose proof (valid_date_bounds _ Hvs) as (Hy & Hm & Hd).
      pose proof (days_in_month_pos (year s) (month s) Hm).
      unfold valid_date, valid_dateb, MINYEAR, MAXYEAR in *. simpl. lia. }
    unfold make_date. rewrite Hcur. simpl.
    destruct (month_ranges_loop_closed_form e Hve Hye _
                (mkdate (year s) (month s) 1) [] eq_refl Hcur eq_refl)
      as (Hloop & _ & _).
    rewrite Hloop. simpl. by rewrite map_map. }
  split; [exact Hrun |]. split; [apply length_seqZ |].
  intros Hlt. rewrite Hrun. subst months. by rewrite seqZ_nil by lia.
Qed.

Lemma month_ranges_closed_form_witness :
  let s := mkdate 2022 11 15 in
  let e := mkdate 2023 2 10 in
  let months := seqZ (month_number s) (month_number e - month_number s + 1) in
  month_ranges parse_iso "2022-11-15" "2023-02-10"
    = Ok (map (fun i => iso_window (month_window e i)) months)
  /\ length months = Z.to_nat (month_number e - month_number s + 1)
  /\ (month_number e < month_number s ->
        month_ranges parse_iso "2022-11-15" "2023-02-10" = Ok []).
Proof.
  apply (month_ranges_closed_form parse_iso "2022-11-15" "2023-02-10"
           (mkdate 2022 11 15) (mkdate 2023 2 10));
    vm_compute; reflexivity.
Defined.

Example month_ranges_four_months :
  month_ranges parse_iso "2022-11-15" "2023-02-10"
  = Ok [ ("2022-11-01", "2022-11-30"); ("2022-12-01", "2022-12-31");
         ("2023-01-01", "2023-01-31"); ("2023-02-01", "2023-02-10") ].
Proof. vm_compute. reflexivity. Qed.

Example month_ranges_end_before_start :
  month_ranges parse_iso "2023-03-15" "2023-02-28" = Ok [].
Proof. vm_compute. reflexivity. Qed.
Lemma digit_value_digit n : digit_value (digit n) = Some (n mod 10).
Proof.
  unfold digit_value, digit.
  pose proof (Z.mod_pos_bound n 10 ltac:(lia)) as Hb.
  rewrite nat_ascii_embedding by lia.
  rewrite Nat2Z.inj_add, Z2Nat.id by lia. change (Z.of_nat 48) with 48.
  destruct (Z.leb_spec 48 (48 + n mod 10)); [| lia].
  destruct (Z.leb_spec (48 + n mod 10) 57); [| lia].
  simpl. f_equal. lia.
Qed.

(** [parse_iso] reads back the ISO form of the dates that a [Timestamp]
    can hold. *)
Lemma parse_iso_isoformat d :
  valid_date d ->
  date_leb (mkdate 1677 9 22) d = true -> date_leb d (mkdate 2262 4 11) = true ->
  parse_iso (isoformat d) = Ok d.
Proof.
  intros Hv Hlo Hhi. pose proof (valid_date_bounds _ Hv) as (Hy & Hm & Hd).
  pose proof (days_in_month_pos (year d) (month d) Hm) as Hdim.
  destruct d as [y m dd]. cbn [year month day] in *.
  change (isoformat (mkdate y m dd))
    with (String (digit (y / 1000)) (String (digit (y / 100))
           (String (digit (y / 10)) (String (digit y)
             (String "-" (String (digit (m / 10)) (String (digit m)
               (String "-" (String (digit (dd / 10))
                  (String (digit dd) EmptyString)))))))))).
  unfold parse_iso. rewrite !digit_value_digit. simpl Ascii.eqb. cbn [andb].
  assert (1000 * ((y / 1000) mod 10) + 100 * ((y / 100) mod 10)
          + 10 * ((y / 10) mod 10) + y mod 10 = y) as ->
    by (Z.div_mod_to_equations; lia).
  assert (10 * ((m / 10) mod 10) + m mod 10 = m) as ->
    by (Z.div_mod_to_equations; lia).
  assert (10 * ((dd / 10) mod 10) + dd mod 10 = dd) as ->
    by (Z.div_mod_to_equations; lia).
  unfold make_date. rewrite Hv. simpl. by rewrite Hlo, Hhi.
Qed.

Lemma month_last_valid i :
  valid_date (month_first i) -> valid_date (month_last i).
Proof.
  unfold valid_date, valid_dateb, month_first, month_last. simpl.
  intros H.
  assert (1 <= i mod 12 + 1 <= 12) as Hm by (Z.div_mod_to_equations; lia).
  pose proof (days_in_month_pos (i / 12) (i mod 12 + 1) Hm). lia.
Qed.

Lemma month_number_date_min i e :
  valid_date e -> valid_date (month_first i) -> i <= month_number e ->
  month_number (date_min (month_last i) e) = i.
Proof.
  intros He Hf Hi. unfold date_min.
  destruct (date_ltb e (month_last i)) eqn:E; [| apply month_number_last].
  pose proof (valid_date_bounds _ He) as (_ & Hm & _).
  assert (0 <= i mod 12 < 12) as Hr by (Z.div_mod_to_equations; lia).
  assert (i = 12 * (i / 12) + i mod 12) as Hdm by (Z.div_mod_to_equations; lia).
  unfold date_ltb, month_last, month_number in *. simpl in *.
  destruct e as [ye me de]. simpl in *.
  destruct (Z.ltb_spec ye (i / 12)), (Z.eqb_spec ye (i / 12)),
    (Z.ltb_spec me (i mod 12 + 1)), (Z.eqb_spec me (i mod 12 + 1));
    simpl in E; try discriminate; lia.
Qed.

(** X17.  Each window that [month_ranges] returns is a range that
    [month_ranges] leaves whole: called on the two dates of the window
    it returns that window and no other (given that, as
    [pandas.to_datetime] does, the parser reads back the ISO form of
    the days of the range). *)
Theorem month_ranges_window_is_fixed_point
    (pd_to_datetime : string -> result date) (start end_ : string) (s e : date)
    (ranges : list (string * string)) (a b : string) :
  pd_to_datetime start = Ok s ->
  pd_to_datetime end_ = Ok e ->
  valid_date s -> valid_date e -> year e < MAXYEAR ->
  (forall d, valid_date d ->
     toordinal (mkdate (year s) (month s) 1) <= toordinal d <= toordinal e ->
     pd_to_datetime (isoformat d) = Ok d) ->
  month_ranges pd_to_datetime start end_ = Ok ranges ->
  (a, b) ∈ ranges ->
  month_ranges pd_to_datetime a b = Ok [(a, b)].
Proof.
  intros Hs He Hvs Hve Hye Hback Hrun Hin.
  assert (valid_date (mkdate (year s) (month s) 1)) as Hcur.
  { pose proof (valid_date_bounds _ Hvs) as (Hy & Hm & Hd).
    pose proof (days_in_month_pos (year s) (month s) Hm).
    unfold valid_date, valid_dateb, MINYEAR, MAXYEAR in *. simpl. lia. }
  destruct (month_ranges_loop_closed_form e Hve Hye _
              (mkdate (year s) (month s) 1) [] eq_refl Hcur eq_refl)
    as (Hloop & Ht & Hall).
  unfold month_ranges in Hrun. rewrite Hs, He in Hrun. simpl in Hrun.
  unfold make_date in Hrun. rewrite Hcur in Hrun. simpl in Hrun.
  rewrite Hloop in Hrun. injection Hrun as <-. simpl in Hin.
  apply list_elem_of_fmap in Hin as (w & Hab & Hw).
  pose proof (tiles_lower _ _ _ _ Ht Hw) as [Hlo Hhi].
  pose proof (tiles_nonempty_windows _ _ _ _ Ht Hw) as Hne.
  pose proof (proj1 (Forall_forall _ _) Hall _ Hw) as [Hv1 Hv2].
  apply list_elem_of_fmap in Hw as (i & -> & Hi).
  apply elem_of_seqZ in Hi.
  change (month_number (mkdate (year s) (month s) 1)) with (month_number s) in Hi.
  unfold iso_window, month_window in Hab.
  cbn [fst snd month_window] in Hab, Hlo, Hhi, Hne, Hv1, Hv2.
  injection Hab as -> ->.
  set (d2 := date_min (month_last i) e) in *.
  assert (month_number d2 = i) as Hn2.
  { apply month_number_date_min; [done | done | lia]. }
  assert (year d2 < MAXYEAR) as Hy2.
  { subst d2. unfold date_min. destruct (date_ltb e (month_last i)); [done |].
    unfold month_last. simpl. unfold month_number in Hi.
    pose proof (valid_date_bounds _ Hve) as (_ & Hm & _).
    unfold MAXYEAR in *. Z.div_mod_to_equations. lia. }
  unfold month_ranges.
  rewrite (Hback (month_first i) Hv1) by lia.
  rewrite (Hback d2 Hv2) by lia. simpl.
  unfold make_date.
  change (mkdate (i / 12) (i mod 12 + 1) 1) with (month_first i).
  rewrite Hv1. simpl.
  destruct (month_ranges_loop_closed_form d2 Hv2 Hy2 _ (month_first i) []
              eq_refl Hv1 eq_refl) as (Hloop2 & _ & _).
  rewrite Hloop2, month_number_first, Hn2. simpl.
  replace (i - i + 1) with 1 by lia.
  change (seqZ i 1) with [i]. simpl.
  unfold iso_window, month_window. simpl. subst d2.
  by rewrite date_min_idemp.
Qed.

Lemma month_ranges_window_is_fixed_point_witness :
  month_ranges parse_iso "2023-02-01" "2023-02-10"
  = Ok [("2023-02-01", "2023-02-10")].
Proof.
  apply (month_ranges_window_is_fixed_point parse_iso "2022-11-15" "2023-02-10"
           (mkdate 2022 11 15) (mkdate 2023 2 10)
           [ ("2022-11-01", "2022-11-30"); ("2022-12-01", "2022-12-31");
             ("2023-01-01", "2023-01-31"); ("2023-02-01", "2023-02-10") ]
           "2023-02-01" "2023-02-10").
  - vm_compute. reflexivity.
  - vm_compute. reflexivity.
  - vm_compute. reflexivity.
  - vm_compute. reflexivity.
  - vm_compute. reflexivity.
  - intros d Hv [Hlo Hhi]. apply parse_iso_isoformat; [done | |].
    + apply date_leb_spec; [vm_compute; reflexivity | done |].
      etrans; [| exact Hlo]. vm_compute. discriminate.
    + apply date_leb_spec; [done | vm_compute; reflexivity |].
      etrans; [exact Hhi |]. vm_compute. discriminate.
  - vm_compute. reflexivity.
  - set_solver.
Defined.

(** ** Further properties of the retrying fetcher *)

(** The loop after [k] attempts that were all retried. *)
Lemma loop_skip_retried py_int url params max_retries base (k : nat) :
  py_int "" = None ->
  forall attempt rest w,
    (forall i, (i < k)%nat ->
       retried py_int base (attempt + Z.of_nat i) (event_at w i)) ->
    safe_get_loop py_int url params max_retries base
      (seqZ attempt (Z.of_nat k) ++ rest) w
    = safe_get_loop py_int url params max_retries base rest
        (after_retries py_int url params max_retries base k attempt w).
Proof.
  intros Hempty. induction k as [| k IH]; intros attempt rest w Htried; [done |].
  rewrite seqZ_succ. cbn [app after_retries].
  rewrite (loop_retried py_int Hempty).
  2: { specialize (Htried 0%nat ltac:(lia)). by rewrite Z.add_0_r in Htried. }
  apply IH. intros i Hi. rewrite after_retry_event.
  specialize (Htried (S i) ltac:(lia)).
  by replace (attempt + 1 + Z.of_nat i) with (attempt + Z.of_nat (S i)) by lia.
Qed.

Lemma safe_get_after_retries py_int path params max_retries base w (k : nat) :
  py_int "" = None ->
  (k < Z.to_nat max_retries)%nat ->
  (forall i, (i < k)%nat -> retried py_int base (Z.of_nat i) (event_at w i)) ->
  exists rest,
    safe_get py_int path params max_retries base w
    = safe_get_loop py_int (BASE +:+ path) params max_retries base
        (Z.of_nat k :: rest)
        (after_retries py_int (BASE +:+ path) params max_retries base k 0 w).
Proof.
  intros Hempty Hk Htried. unfold safe_get.
  assert (seqZ 0 max_retries
          = seqZ 0 (Z.of_nat k)
            ++ Z.of_nat k :: seqZ (Z.succ (Z.of_nat k))
                               (Z.pred (max_retries - Z.of_nat k))) as ->.
  { pose proof (seqZ_app 0 (Z.of_nat k) (max_retries - Z.of_nat k)
                  ltac:(lia) ltac:(lia)) as Happ.
    replace (Z.of_nat k + (max_retries - Z.of_nat k)) with max_retries
      in Happ by lia.
    rewrite Happ, Z.add_0_l. f_equal. apply seqZ_cons. lia. }
  rewrite (loop_skip_retried _ _ _ _ _ k Hempty) by done.
  by eexists.
Qed.

(** X18.  Besides its two [RuntimeError]s, [safe_get] lets two
    exceptions through, at the first attempt that is not retried: the
    exception of the JSON decoder, when that attempt yields a 200 whose
    body does not parse, and the [ValueError] of [time.sleep], when the
    wait before the next attempt is negative (a 429 with a negative
    [Retry-After], or a negative [backoff_base]).  In both cases no
    further request is sent. *)
Theorem safe_get_other_exceptions
    (py_int : string -> option Z) (path : string) (params : gmap string pyval)
    (max_retries : Z) (backoff_base : Q) (w : world) (k : nat) :
  py_int "" = None ->
  (k < Z.to_nat max_retries)%nat ->
  (forall i, (i < k)%nat ->
     retried py_int backoff_base (Z.of_nat i) (event_at w i)) ->
  let run := safe_get py_int path params max_retries backoff_base w in
  (forall resp e,
     event_at w k = Reply resp -> status_code resp = 200 ->
     body resp = Raise e ->
     run.1 = Raise e /\ length (sent run.2) = (length (sent w) + k + 1)%nat)
  /\ (retryable (event_at w k) = true ->
      Qle_bool 0 (retry_wait py_int backoff_base (Z.of_nat k) (event_at w k))
        = false ->
      run.1 = Raise ValueError
      /\ length (sent run.2) = (length (sent w) + k + 1)%nat
      /\ length (slept run.2) = (length (slept w) + k)%nat).
Proof.
  intros Hempty Hk Htried run.
  destruct (safe_get_after_retries py_int path params max_retries backoff_base
              w k Hempty Hk Htried) as [rest Hrun].
  subst run. rewrite Hrun. clear Hrun.
  set (w1 := after_retries py_int (BASE +:+ path) params max_retries
               backoff_base k 0 w).
  assert (event_at w1 0 = event_at w k) as Hev.
  { subst w1. rewrite retries_event. f_equal. lia. }
  assert (length (sent w1) = (length (sent w) + k)%nat) as Hsent.
  { subst w1. by rewrite retries_sent, length_app, length_replicate. }
  assert (length (slept w1) = (length (slept w) + k)%nat) as Hslept.
  { subst w1. by rewrite retries_slept, length_app, length_map, length_seq. }
  split.
  - intros resp e Hresp H200 Hbody.
    rewrite (loop_success _ _ _ _ _ _ _ _ resp) by congruence.
    rewrite Hbody. simpl. split; [done |].
    rewrite length_app, Hsent. simpl. lia.
  - intros Hretry Hneg.
    rewrite (loop_sleep_refused py_int Hempty) by (by rewrite Hev).
    simpl. split; [done |]. split; [| done].
    rewrite length_app, Hsent. simpl. lia.
Qed.

Lemma safe_get_other_exceptions_witness :
  let run := safe_get int_of_decimal "/configuration" ∅ 6 1%Q hostile_world in
  (forall resp e,
     event_at hostile_world 0 = Reply resp -> status_code resp = 200 ->
     body resp = Raise e ->
     run.1 = Raise e
     /\ length (sent run.2) = (length (sent hostile_world) + 0 + 1)%nat)
  /\ (retryable (event_at hostile_world 0) = true ->
      Qle_bool 0 (retry_wait int_of_decimal 1%Q (Z.of_nat 0)
                    (event_at hostile_world 0)) = false ->
      run.1 = Raise ValueError
      /\ length (sent run.2) = (length (sent hostile_world) + 0 + 1)%nat
      /\ length (slept run.2) = (length (slept hostile_world) + 0)%nat).
Proof.
  apply (safe_get_other_exceptions int_of_decimal "/configuration" ∅ 6 1%Q
           hostile_world 0%nat).
  - reflexivity.
  - vm_compute. lia.
  - intros i Hi. lia.
Defined.

Example safe_get_negative_retry_after :
  (safe_get int_of_decimal "/configuration" ∅ 6 1%Q hostile_world).1
  = Raise ValueError.
Proof. reflexivity. Qed.

Example safe_get_body_not_json :
  (safe_get int_of_decimal "/configuration" ∅ 6 1%Q html_world).1
  = Raise JSONDecodeError.
Proof. reflexivity. Qed.

Lemma total_wait_app (a b : list Q) :
  (total_wait (a ++ b) == total_wait a + total_wait b)%Q.
Proof.
  unfold total_wait. induction a as [| x a IH]; simpl.
  - by rewrite Qplus_0_l.
  - rewrite IH. by rewrite Qplus_assoc.
Qed.

Lemma total_backoff (base : Q) (n : nat) :
  (total_wait (map (fun i => backoff base (Z.of_nat i)) (seq 0 n))
   == base * inject_Z (2 ^ Z.of_nat n - 1))%Q.
Proof.
  induction n as [| n IH].
  - simpl. unfold total_wait. simpl. by rewrite Qmult_0_r.
  - rewrite seq_S, map_app, total_wait_app, IH. simpl.
    unfold total_wait, backoff. simpl fold_right.
    rewrite Qplus_0_r.
    rewrite Nat2Z.inj_succ, Z.pow_succ_r by lia.
    rewrite <- Qmult_plus_distr_r. apply Qmult_comp; [reflexivity |].
    rewrite <- inject_Z_plus. apply inject_Z_injective. lia.
Qed.

Lemma backoff_nonneg (base : Q) (attempt : Z) :
  Qle_bool 0 base = true -> 0 <= attempt ->
  Qle_bool 0 (backoff base attempt) = true.
Proof.
  intros Hb Ha. apply Qle_bool_iff. apply Qle_bool_iff in Hb.
  unfold backoff. apply Qmult_le_0_compat; [done |].
  change 0%Q with (inject_Z 0). rewrite <- Zle_Qle. by apply Z.pow_nonneg.
Qed.

(** X19.  When every one of the [max_retries] attempts fails in
    transport or with a 5xx, [safe_get] has sent [max_retries]
    requests and has slept after each of them, the last one included:
    [base * 2^i] seconds after attempt [i], [base * (2^max_retries - 1)]
    seconds in all (63 seconds with the defaults), before it raises
    "Max retries exceeded".  With a [max_retries] of 0 or less it
    raises at once, without any request. *)
Theorem safe_get_gives_up
    (py_int : string -> option Z) (path : string) (params : gmap string pyval)
    (max_retries : Z) (backoff_base : Q) (w : world) :
  py_int "" = None ->
  Qle_bool 0 backoff_base = true ->
  let n := Z.to_nat max_retries in
  (forall i, (i < n)%nat ->
     event_at w i = RequestException
     \/ exists resp, event_at w i = Reply resp
          /\ 500 <= status_code resp < 600) ->
  let run := safe_get py_int path params max_retries backoff_base w in
  run.1 = Raise (RuntimeError ("Max retries exceeded for " +:+ BASE +:+ path))
  /\ sent run.2 = sent w ++ replicate n (mkreq (BASE +:+ path) params)
  /\ slept run.2
     = slept w ++ map (fun i => backoff backoff_base (Z.of_nat i)) (seq 0 n)
  /\ (total_wait (map (fun i => backoff backoff_base (Z.of_nat i)) (seq 0 n))
      == backoff_base * inject_Z (2 ^ Z.of_nat n - 1))%Q
  /\ fs run.2 = fs w.
Proof.
  intros Hempty Hbase n Hfail run.
  assert (forall i, (i < n)%nat ->
            retryable (event_at w i) = true
            /\ retry_wait py_int backoff_base (Z.of_nat i) (event_at w i)
               = backoff backoff_base (Z.of_nat i)) as Hev.
  { intros i Hi. destruct (Hfail i Hi) as [-> | (resp & -> & Hs)]; [done |].
    unfold retryable, retry_wait.
    destruct (Z.eqb_spec (status_code resp) 429) as [E | _]; [lia |].
    split; [| done]. simpl.
    destruct (Z.leb_spec 500 (status_code resp)); [| lia].
    destruct (Z.ltb_spec (status_code resp) 600); [done | lia]. }
  assert (run = (Raise (RuntimeError ("Max retries exceeded for " +:+ BASE +:+ path)),
                 after_retries py_int (BASE +:+ path) params max_retries
                   backoff_base n 0 w)) as ->.
  { subst run. unfold safe_get. rewrite seqZ_to_nat. fold n.
    rewrite <- (app_nil_r (seqZ 0 (Z.of_nat n))).
    rewrite (loop_skip_retried _ _ _ _ _ n Hempty); [done |].
    intros i Hi. destruct (Hev i Hi) as [Hr Hw]. split; [done |].
    rewrite Z.add_0_l, Hw. apply backoff_nonneg; [done | lia]. }
  cbn [fst snd]. split; [done |].
  split; [apply retries_sent |]. split; [| split].
  - rewrite retries_slept. f_equal. apply map_ext_in. intros i Hi.
    apply in_seq in Hi. rewrite Z.add_0_l. by apply Hev; lia.
  - apply total_backoff.
  - apply retries_fs.
Qed.

Lemma safe_get_gives_up_witness :
  let n := Z.to_nat 6 in
  let run := safe_get int_of_decimal "/configuration" ∅ 6 1%Q dead_world in
  run.1 = Raise (RuntimeError ("Max retries exceeded for " +:+ BASE
                               +:+ "/configuration"))
  /\ sent run.2
     = sent dead_world ++ replicate n (mkreq (BASE +:+ "/configuration") ∅)
  /\ slept run.2
     = slept dead_world ++ map (fun i => backoff 1%Q (Z.of_nat i)) (seq 0 n)
  /\ (total_wait (map (fun i => backoff 1%Q (Z.of_nat i)) (seq 0 n))
      == 1 * inject_Z (2 ^ Z.of_nat n - 1))%Q
  /\ fs run.2 = fs dead_world.
Proof.
  apply (safe_get_gives_up int_of_decimal "/configuration" ∅ 6 1%Q dead_world).
  - reflexivity.
  - reflexivity.
  - intros i Hi. by left.
Defined.

Example safe_get_default_gives_up_after_63_seconds :
  total_wait
    (slept (safe_get int_of_decimal "/configuration" ∅ 6 1%Q dead_world).2)
  = 63%Q
  /\ (safe_get int_of_decimal "/configuration" ∅ 0 1%Q dead_world)
     = (Raise (RuntimeError
                 "Max retries exceeded for https://api.themoviedb.org/3/configuration"),
        dead_world).
Proof. split; vm_compute; reflexivity. Qed.

(** ** Further properties of the paginator *)

Lemma safe_get_default_answered py_int path params w doc :
  answers w 0 doc ->
  safe_get_default py_int path params w
  = (Ok doc, called (BASE +:+ path) params w).
Proof.
  intros (resp & Hev & H200 & Hbody).
  unfold safe_get_default, safe_get.
  change (seqZ 0 6) with (0 :: seqZ 1 5).
  rewrite (loop_success _ _ _ _ _ _ _ _ resp Hev H200). by rewrite Hbody.
Qed.

Lemma answers_shift w w' (k : nat) :
  net w' = net w -> length (sent w') = (length (sent w) + k)%nat ->
  forall i doc, answers w (k + i) doc -> answers w' i doc.
Proof.
  intros Hnet Hlen i doc (resp & Hev & H). exists resp. split; [| done].
  unfold event_at in *. rewrite Hnet, Hlen, <- Hev. f_equal. lia.
Qed.

(** The loop over the later pages on a network that answers each call:
    one request and one sleep per page, the records appended in the
    order of the pages. *)
Lemma discover_pages_answered py_int polite_sleep (doc : nat -> api_doc) :
  Qle_bool 0 polite_sleep = true ->
  forall pages params movies w,
    (forall i, (i < length pages)%nat -> answers w i (doc i)) ->
    discover_pages py_int params polite_sleep pages movies w
    = (Ok (movies ++ concat (map (fun i => results_of (doc i))
                               (seq 0 (length pages)))),
       mkworld (net w) (sent w ++ map (page_request params) pages)
         (slept w ++ replicate (length pages) polite_sleep) (logged w) (fs w)).
Proof.
  intros Hsleep. intros pages. revert doc.
  induction pages as [| p rest IH]; intros doc params movies w Hans.
  - simpl. rewrite !app_nil_r. by destruct w.
  - cbn [discover_pages].
    rewrite (bind_ok _ _ _ _ _
               (safe_get_default_answered py_int "/discover/movie" _ w (doc 0%nat)
                  (Hans 0%nat ltac:(simpl; lia)))).
    unfold time_sleep at 1. unfold mbind at 1, M_bind at 1. rewrite Hsleep.
    set (w1 := mkworld _ _ _ _ _).
    rewrite (IH (fun i => doc (S i)) _ _ w1).
    2: { intros i Hi. apply (answers_shift w w1 1); [done | | ].
         - subst w1. simpl. rewrite length_app. simpl. lia.
         - apply (Hans (S i)). simpl. lia. }
    subst w1. cbn [net sent slept logged fs called length replicate map].
    f_equal.
    + f_equal. rewrite <- app_assoc. f_equal.
      cbn [seq map concat]. unfold results_of at 2. f_equal.
      rewrite <- seq_shift, map_map. reflexivity.
    + f_equal.
      * rewrite <- app_assoc. f_equal. simpl. f_equal.
        apply map_ext. intros q. unfold page_request.
        by rewrite insert_insert_eq.
      * by rewrite <- app_assoc.
Qed.

(** X20.  On a network that answers every call, [discover_all] sends
    one request per page, for the pages 1 to N in order and with the
    other parameters unchanged, sleeps [polite_sleep] after each page
    from the second on, and returns the records of the pages in the
    order of the pages; N is the number of pages that the first page
    reports, capped at 500 and at a [max_pages] that is not 0, and at
    least 1.  It logs nothing but the warning about the cap. *)
Theorem discover_all_collects_pages
    (py_int : string -> option Z) (date_from date_to language : string)
    (min_votes : Z) (max_pages : option Z) (polite_sleep : Q) (w : world)
    (doc : nat -> api_doc) :
  Qle_bool 0 polite_sleep = true ->
  let params := discover_params date_from date_to language min_votes in
  let total_pages := default 1 (doc_total_pages (doc 0%nat)) in
  let N := Z.to_nat (effective_pages total_pages max_pages) in
  (forall i, (i < N)%nat -> answers w i (doc i)) ->
  discover_all py_int date_from date_to language min_votes max_pages
    polite_sleep w
  = (Ok (concat (map (fun i => results_of (doc i)) (seq 0 N))),
     mkworld (net w)
       (sent w ++ map (page_request params) (seqZ 1 (Z.of_nat N)))
       (slept w ++ replicate (N - 1) polite_sleep)
       (logged w
        ++ (if TMDB_MAX_PAGES <? total_pages
            then [LogPageCap total_pages date_from date_to TMDB_MAX_PAGES
                    ((total_pages - TMDB_MAX_PAGES) * 20)]
            else []))
       (fs w)).
Proof.
  intros Hsleep params total_pages N Hans.
  assert (1 <= effective_pages total_pages max_pages) as HN
    by (unfold effective_pages; lia).
  unfold discover_all. fold params.
  rewrite (bind_ok _ _ _ _ _
             (safe_get_default_answered py_int "/discover/movie" params w
                (doc 0%nat) (Hans 0%nat ltac:(lia)))).
  fold total_pages.
  set (w1 := called (BASE +:+ "/discover/movie") params w).
  set (lg := if TMDB_MAX_PAGES <? total_pages
             then [LogPageCap total_pages date_from date_to TMDB_MAX_PAGES
                     ((total_pages - TMDB_MAX_PAGES) * 20)]
             else []).
  set (w2 := mkworld (net w1) (sent w1) (slept w1) (logged w1 ++ lg) (fs w1)).
  set (capped := Z.min total_pages TMDB_MAX_PAGES).
  assert (forall (k : Z -> M (list (gmap string pyval))),
            ((if TMDB_MAX_PAGES <? total_pages
              then log (LogPageCap total_pages date_from date_to TMDB_MAX_PAGES
                          ((total_pages - TMDB_MAX_PAGES) * 20));;
                   mret TMDB_MAX_PAGES
              else mret total_pages) ≫= k) w1 = k capped w2) as Hcap.
  { intros k. subst w2 lg capped.
    destruct (Z.ltb_spec TMDB_MAX_PAGES total_pages) as [Hlt | Hge].
    - rewrite Z.min_r by lia. reflexivity.
    - rewrite Z.min_l by lia. unfold mbind, M_bind, mret, M_ret. simpl.
      rewrite app_nil_r. by destruct w. }
  rewrite Hcap. clear Hcap.
  assert (Z.max 1 (apply_max_pages capped max_pages)
          = effective_pages total_pages max_pages) as Heff
    by apply apply_max_pages_effective.
  assert (params !! "page" = Some (PyInt 1)) as Hpage
    by (unfold params, discover_params; apply lookup_insert_eq).
  assert (page_request params 1 = mkreq (BASE +:+ "/discover/movie") params)
    as Hfirst.
  { unfold page_request. by rewrite insert_id. }
  destruct (Z.leb_spec 2 (apply_max_pages capped max_pages)) as [H2 | H1].
  - assert (Z.of_nat N = apply_max_pages capped max_pages) as HNeq by lia.
    rewrite (discover_pages_answered py_int polite_sleep (fun i => doc (S i))
               Hsleep).
    2: { intros i Hi. rewrite length_seqZ in Hi.
         apply (answers_shift w w2 1); [done | | ].
         - subst w2 w1. simpl. rewrite length_app. simpl. lia.
         - apply Hans. lia. }
    rewrite length_seqZ.
    replace (Z.to_nat (apply_max_pages capped max_pages - 1)) with (N - 1)%nat
      by lia.
    subst w2 w1. cbn [net sent slept logged fs called].
    f_equal.
    + f_equal. destruct N as [| N']; [lia |].
      cbn [seq map concat]. f_equal. simpl.
      rewrite Nat.sub_0_r, <- seq_shift, map_map. reflexivity.
    + f_equal. rewrite <- app_assoc. f_equal.
      rewrite (seqZ_cons 1 (Z.of_nat N)) by lia. cbn [map].
      rewrite Hfirst. simpl. do 2 f_equal. rewrite HNeq. f_equal; lia.
  - assert (N = 1%nat) as -> by lia.
    subst w2 w1. cbn [net sent slept logged fs called].
    change (seqZ 1 (Z.of_nat 1)) with [1]. cbn [map seq concat replicate Nat.sub].
    rewrite Hfirst, !app_nil_r. reflexivity.
Qed.

Lemma discover_all_collects_pages_witness :
  let params := discover_params "2023-01-01" "2023-01-31" "en-US" 0 in
  let total_pages := default 1 (doc_total_pages (catalogue_page 0)) in
  let N := Z.to_nat (effective_pages total_pages None) in
  discover_all int_of_decimal "2023-01-01" "2023-01-31" "en-US" 0 None
    (8 # 100)%Q catalogue_world
  = (Ok (concat (map (fun i => results_of (catalogue_page i)) (seq 0 N))),
     mkworld (net catalogue_world)
       (sent catalogue_world
        ++ map (page_request params) (seqZ 1 (Z.of_nat N)))
       (slept catalogue_world ++ replicate (N - 1) (8 # 100)%Q)
       (logged catalogue_world
        ++ (if TMDB_MAX_PAGES <? total_pages
            then [LogPageCap total_pages "2023-01-01" "2023-01-31"
                    TMDB_MAX_PAGES ((total_pages - TMDB_MAX_PAGES) * 20)]
            else []))
       (fs catalogue_world)).
Proof.
  apply (discover_all_collects_pages int_of_decimal "2023-01-01" "2023-01-31"
           "en-US" 0 None (8 # 100)%Q catalogue_world catalogue_page).
  - reflexivity.
  - intros i _. eexists. split; [reflexivity |]. split; reflexivity.
Defined.

Example discover_all_three_pages :
  raw_ids
    (match (discover_all int_of_decimal "2023-01-01" "2023-01-31" "en-US" 0
              None (8 # 100)%Q catalogue_world).1 with
     | Ok movies => movies
     | Raise _ => []
     end)
  = [PyInt 1; PyInt 2; PyInt 3].
Proof. vm_compute. reflexivity. Qed.

(** ** Further properties of the file names *)

Lemma string_app_length (s t : string) :
  String.length (s +:+ t) = (String.length s + String.length t)%nat.
Proof.
  induction s as [| c s IH]; [done |].
  change (String c s +:+ t) with (String c (s +:+ t)). simpl. by rewrite IH.
Qed.

(** Two strings cut after prefixes of one length are equal part by
    part. *)
Lemma string_app_inj_length (s1 s2 t1 t2 : string) :
  String.length s1 = String.length s2 ->
  s1 +:+ t1 = s2 +:+ t2 -> s1 = s2 /\ t1 = t2.
Proof.
  revert s2. induction s1 as [| c s1 IH]; intros [| c2 s2] Hlen H;
    try discriminate.
  - done.
  - change (String c (s1 +:+ t1) = String c2 (s2 +:+ t2)) in H.
    injection H as -> H. simpl in Hlen.
    destruct (IH s2 ltac:(lia) H) as [-> ->]. done.
Qed.

Lemma string_app_inj_r (s1 s2 t : string) : s1 +:+ t = s2 +:+ t -> s1 = s2.
Proof.
  intros H. apply (string_app_inj_length s1 s2 t t); [| done].
  apply (f_equal String.length) in H. rewrite !string_app_length in H. lia.
Qed.



Lemma pad4_length y : String.length (pad4 y) = 4%nat.
Proof. reflexivity. Qed.

(** X22.  Two ranges of ISO dates have the same master files exactly
    when they begin in the same year and end in the same year: a run
    over such a range overwrites the master files of the other, and no
    other run does. *)
Theorem master_paths_same_iff_same_years (s e s' e' : date) :
  valid_date s -> valid_date e -> valid_date s' -> valid_date e' ->
  master_paths (isoformat s) (isoformat e)
    = master_paths (isoformat s') (isoformat e')
  <-> year s = year s' /\ year e = year e'.
Proof.
  intros Hs He Hs' He'.
  pose proof (valid_date_bounds _ Hs) as (Hys & _).
  pose proof (valid_date_bounds _ He) as (Hye & _).
  pose proof (valid_date_bounds _ Hs') as (Hys' & _).
  pose proof (valid_date_bounds _ He') as (Hye' & _).
  unfold master_paths. rewrite !year_prefix.
  set (ys := pad4 (year s)). set (ye := pad4 (year e)).
  set (ys' := pad4 (year s')). set (ye' := pad4 (year e')).
  assert (String.length ys = 4%nat /\ String.length ye = 4%nat
          /\ String.length ys' = 4%nat /\ String.length ye' = 4%nat)
    as (L1 & L2 & L3 & L4) by done.
  assert (ys = ys' -> year s = year s') as I1
    by (intros H; apply pad4_inj in H; lia).
  assert (ye = ye' -> year e = year e') as I2
    by (intros H; apply pad4_inj in H; lia).
  assert (ys = ye -> year s = year e) as I3
    by (intros H; apply pad4_inj in H; lia).
  assert (ys' = ye' -> year s' = year e') as I4
    by (intros H; apply pad4_inj in H; lia).
  assert (year s = year s' -> ys = ys') as J1
    by (intros H; subst ys ys'; by rewrite H).
  assert (year e = year e' -> ye = ye') as J2
    by (intros H; subst ye ye'; by rewrite H).
  clearbody ys ye ys' ye'.
  split.
  - intros H. apply (f_equal fst) in H. cbn [fst] in H.
    apply (string_app_inj_length "tmdb_movies_" "tmdb_movies_" _ _ eq_refl)
      in H as [_ H].
    apply string_app_inj_r in H.
    destruct (String.eqb_spec ys ye) as [E | E],
      (String.eqb_spec ys' ye') as [E' | E'].
    + subst ye ye'. split; [by apply I1 | by apply I2].
    + apply (f_equal String.length) in H.
      rewrite !string_app_length, L1, L3, L4 in H. simpl in H. lia.
    + apply (f_equal String.length) in H.
      rewrite !string_app_length, L1, L2, L3 in H. simpl in H. lia.
    + apply (string_app_inj_length ys ys' _ _ ltac:(congruence)) in H as [H1 H2].
      apply (string_app_inj_length "-" "-" _ _ eq_refl) in H2 as [_ H2].
      split; [by apply I1 | by apply I2].
  - intros [H1 H2]. by rewrite (J1 H1), (J2 H2).
Qed.

Lemma master_paths_same_iff_same_years_witness :
  master_paths (isoformat (mkdate 2021 1 1)) (isoformat (mkdate 2023 12 31))
    = master_paths (isoformat (mkdate 2021 6 15)) (isoformat (mkdate 2023 2 1))
  <-> year (mkdate 2021 1 1) = year (mkdate 2021 6 15)
      /\ year (mkdate 2023 12 31) = year (mkdate 2023 2 1).
Proof.
  apply (master_paths_same_iff_same_years (mkdate 2021 1 1) (mkdate 2023 12 31)
           (mkdate 2021 6 15) (mkdate 2023 2 1));
    vm_compute; reflexivity.
Defined.



(** ** Further properties of the run: the files it touches *)

Lemma touches_weaken {A : Type} (S T : string -> Prop) (m : M A) :
  (forall p, S p -> T p) -> touches S m -> touches T m.
Proof. intros HST Hm w r w' H p Hp. apply (Hm w r w' H). intros X. by apply Hp, HST. Qed.

Lemma touches_bind {A B : Type} (S : string -> Prop) (m : M A) (f : A -> M B) :
  touches S m -> (forall a, touches S (f a)) -> touches S (m ≫= f).
Proof.
  intros Hm Hf w r w'. unfold mbind, M_bind.
  destruct (m w) as [[a | e] w1] eqn:E.
  - intros H p Hp. rewrite (Hf a _ _ _ H p Hp). by eapply Hm.
  - intros [= <- <-] p Hp. by eapply Hm.
Qed.

Lemma keeps_fs_touches {A : Type} (S : string -> Prop) (m : M A) :
  keeps_fs m -> touches S m.
Proof. intros Hm w r w' H p _. by rewrite (Hm w r w' H). Qed.

Lemma touches_write_file (S : string -> Prop) path n :
  S path -> touches S (write_file path n).
Proof.
  intros HS w r w' H p Hp.
  apply write_file_run in H as [[_ ->] | [_ ->]]; [| done].
  simpl. apply lookup_insert_ne. by intros ->.
Qed.

Lemma touches_path_replace (S : string -> Prop) src dst :
  S src -> S dst -> touches S (path_replace src dst).
Proof.
  intros Hs Hd w r w' H p Hp.
  unfold path_replace, mbind, M_bind, get_fs, put_fs, raise in H. simpl in H.
  destruct (fs w !! src) as [n |]; [| by injection H as _ <-].
  destruct (fs w !! dst) as [[] |]; injection H as _ <-; try done;
    simpl; (rewrite lookup_insert_ne by (by intros ->));
    by rewrite lookup_delete_ne by (by intros ->).
Qed.

Lemma touches_save_checkpoint (S : string -> Prop) d :
  S CHECKPOINT_MONTHS -> S TMP -> touches S (save_checkpoint d).
Proof.
  intros Hc Ht. unfold save_checkpoint. fold TMP.
  apply touches_bind; [by apply touches_write_file |].
  intros _. by apply touches_path_replace.
Qed.

Lemma keeps_fs_discover_all py_int a b lang mv mp q :
  keeps_fs (discover_all py_int a b lang mv mp q).
Proof. intros w r w' H. by apply discover_all_quiet in H as (_ & ? & _). Qed.

Lemma touches_process_window (S : string -> Prop) py_int cfg a b done :
  S CHECKPOINT_MONTHS -> S TMP -> S (part_filename a b) ->
  touches S (process_window py_int cfg a b done).
Proof.
  intros Hc Ht Hp. unfold process_window, to_parquet.
  apply touches_bind; [apply keeps_fs_touches, keeps_fs_discover_all |].
  intros raw.
  apply touches_bind; [apply keeps_fs_touches, keeps_fs_log |]. intros _.
  apply touches_bind.
  { apply keeps_fs_touches. destruct raw.
    - apply keeps_fs_ret.
    - apply keeps_fs_bind; [apply keeps_fs_lift |]. intros ?. apply keeps_fs_lift. }
  intros df.
  apply touches_bind; [by apply touches_write_file |]. intros _.
  apply touches_bind; [apply keeps_fs_touches, keeps_fs_log |]. intros _.
  apply touches_bind; [by apply touches_save_checkpoint |]. intros _.
  apply keeps_fs_touches, keeps_fs_ret.
Qed.

Lemma touches_on_exception {A : Type} (S : string -> Prop) (m : M A) r :
  touches S m -> touches S (on_exception m (log r)).
Proof.
  intros Hm w x w' H p Hp. rewrite on_exception_run in H.
  destruct (m w) as [[a | e] w1] eqn:E; injection H as _ <-;
    by rewrite <- (Hm w _ w1 E p Hp).
Qed.

Lemma touches_backfill_loop (S : string -> Prop) py_int cfg ranges :
  S CHECKPOINT_MONTHS -> S TMP ->
  (forall x, x ∈ ranges -> S (part_filename x.1 x.2)) ->
  forall done, touches S (backfill_loop py_int cfg ranges done).
Proof.
  intros Hc Ht. induction ranges as [| [a b] rest IH]; intros Hparts done.
  - apply keeps_fs_touches, keeps_fs_ret.
  - cbn [backfill_loop]. destruct (bool_decide _).
    + apply touches_bind; [apply keeps_fs_touches, keeps_fs_log |]. intros _.
      apply IH. intros x Hx. apply Hparts. by right.
    + apply touches_bind; [apply keeps_fs_touches, keeps_fs_log |]. intros _.
      apply touches_bind.
      * apply touches_on_exception, touches_process_window; try done.
        apply (Hparts (a, b)). left.
      * intros done1. apply IH. intros x Hx. apply Hparts. by right.
Qed.

Lemma touches_merge_parts (S : string -> Prop) csv parquet :
  S csv -> S parquet -> touches S (merge_parts csv parquet).
Proof.
  intros Hc Hp. unfold merge_parts, to_csv, to_parquet.
  apply touches_bind; [apply keeps_fs_touches, keeps_fs_log |]. intros _.
  apply touches_bind; [by apply keeps_fs_touches; intros w r w' [= _ <-] |].
  intros f. destruct (merge_sort _ _); [apply keeps_fs_touches, keeps_fs_log |].
  apply touches_bind.
  { apply keeps_fs_touches. intros w r w' H. by apply read_all_pure in H as ->. }
  intros dfs.
  apply touches_bind; [apply keeps_fs_touches, keeps_fs_lift |]. intros df.
  apply touches_bind; [apply keeps_fs_touches, keeps_fs_log |]. intros _.
  apply touches_bind; [by apply touches_write_file |]. intros _.
  apply touches_bind; [by apply touches_write_file |]. intros _.
  apply keeps_fs_touches, keeps_fs_log.
Qed.

(** X24.  Whatever a run comes to (it returns, or raises at any point),
    it has changed no path but its own: the checkpoint and its
    temporary file, the two master files of the range, and the parts of
    the windows of the range.  Every other file, the parts of other
    ranges included, holds what it held. *)
Theorem run_touches_only_its_files
    (pd_to_datetime : string -> result date) (py_int : string -> option Z)
    (start end_ lang : string) (mv : Z) (mp : option Z) (w0 : world)
    (r : result unit) (w' : world) (p : string) :
  run_monthly_backfill pd_to_datetime py_int start end_ lang mv mp w0 = (r, w') ->
  (forall ranges, month_ranges pd_to_datetime start end_ = Ok ranges ->
     ~ run_paths ranges (master_paths start end_).1 (master_paths start end_).2 p) ->
  fs w' !! p = fs w0 !! p.
Proof.
  intros Hrun Hp. unfold run_monthly_backfill in Hrun.
  unfold mbind at 1, M_bind at 1 in Hrun.
  destruct (backfill_setup _ _ _ _ _ _ _ w0) as [[[[cfg rg] dn] | e] w1] eqn:Hs.
  - pose proof (keeps_fs_backfill_setup _ _ _ _ _ _ _ _ _ _ Hs) as Hfs.
    apply backfill_setup_run in Hs as (_ & _ & Hmr & _).
    specialize (Hp rg Hmr). rewrite <- Hfs.
    cbn [fst snd] in Hrun.
    assert (touches (run_paths rg (master_paths start end_).1
                       (master_paths start end_).2)
              (backfill_loop py_int cfg rg dn ≫= fun _ =>
                 merge_parts (master_paths start end_).1
                   (master_paths start end_).2)) as Ht.
    { apply touches_bind.
      - apply touches_backfill_loop; unfold run_paths; [tauto | tauto |].
        intros x Hx. do 4 right. by exists x.
      - intros _. apply touches_merge_parts; unfold run_paths; tauto. }
    exact (Ht w1 r w' Hrun p Hp).
  - injection Hrun as _ <-.
    by rewrite (keeps_fs_backfill_setup _ _ _ _ _ _ _ _ _ _ Hs).
Qed.

Lemma run_touches_only_its_files_witness :
  let w0 := mkworld (steady_net 1) [] [] [] notes_files in
  fs (run_monthly_backfill parse_iso int_of_decimal "2022-12-01" "2023-01-31"
        "en-US" 0 None w0).2 !! "notes.txt"
  = fs w0 !! "notes.txt".
Proof.
  apply (run_touches_only_its_files parse_iso int_of_decimal "2022-12-01"
           "2023-01-31" "en-US" 0 None
           (mkworld (steady_net 1) [] [] [] notes_files)
           (run_monthly_backfill parse_iso int_of_decimal "2022-12-01"
              "2023-01-31" "en-US" 0 None
              (mkworld (steady_net 1) [] [] [] notes_files)).1).
  - apply surjective_pairing.
  - intros ranges Hr.
    assert (ranges = [("2022-12-01", "2022-12-31"); ("2023-01-01", "2023-01-31")])
      as -> by (vm_compute in Hr; by injection Hr as <-).
    unfold run_paths. intros [H | [H | [H | [H | (x & Hx & H)]]]];
      discriminate H.
Defined.

(** *** The parts of the windows that were processed *)

Lemma process_window_keeps_tables py_int cfg a b done w done' w' :
  process_window py_int cfg a b done w = (Ok done', w') ->
  holds_table (fs w') (part_filename a b)
  /\ forall a' b', holds_table (fs w) (part_filename a' b') ->
       holds_table (fs w') (part_filename a' b').
Proof.
  intros H. apply process_window_run in H as (_ & _ & _ & _ & df & ->).
  assert (forall a' b' (n : node) (f : gmap string node),
            (<[CHECKPOINT_MONTHS := n]> (delete TMP f)) !! part_filename a' b'
            = f !! part_filename a' b') as Hlook.
  { intros a' b' n f.
    rewrite lookup_insert_ne by (intros E; by apply (part_filename_not_checkpoint a' b')).
    by rewrite lookup_delete_ne by (intros E; by apply (part_filename_not_tmp a' b')). }
  split.
  - exists df. by rewrite Hlook, lookup_insert_eq.
  - intros a' b' [df' Hdf']. unfold holds_table. rewrite Hlook.
    destruct (decide (part_filename a b = part_filename a' b')) as [<- | Hne].
    + exists df. by rewrite lookup_insert_eq.
    + exists df'. by rewrite lookup_insert_ne.
Qed.

Lemma backfill_loop_keeps_tables py_int cfg ranges : forall done w done' w',
  NoDup (map key_of ranges) ->
  backfill_loop py_int cfg ranges done w = (Ok done', w') ->
  (forall a' b', holds_table (fs w) (part_filename a' b') ->
     holds_table (fs w') (part_filename a' b'))
  /\ forall x, x ∈ ranges -> key_of x ∉ done ->
       holds_table (fs w') (part_filename x.1 x.2).
Proof.
  induction ranges as [| [a b] rest IH]; intros done w done' w' Hnd Hrun.
  - simpl in Hrun. injection Hrun as _ <-. split; [done |].
    by intros x ?%elem_of_nil.
  - simpl in Hnd. apply NoDup_cons in Hnd as [Hfresh Hnd].
    cbn [backfill_loop] in Hrun.
    destruct (decide (window_key a b ∈ done)) as [Hin | Hout].
    + rewrite bool_decide_eq_true_2 in Hrun by done.
      rewrite (bind_ok _ _ _ _ _ (log_run _ _)) in Hrun.
      destruct (IH _ _ _ _ Hnd Hrun) as [Hkeep Hnew].
      split; [exact Hkeep |]. intros x Hx Hk.
      apply elem_of_cons in Hx as [-> | Hx]; [done | by apply Hnew].
    + rewrite bool_decide_eq_false_2 in Hrun by done.
      rewrite (bind_ok _ _ _ _ _ (log_run _ _)) in Hrun.
      apply bind_ok_inv in Hrun as (d1 & w1 & Hpw & Hrest).
      rewrite on_exception_run in Hpw.
      destruct (process_window _ _ _ _ _ _) as [[d | e] wp] eqn:Hp;
        [| discriminate].
      injection Hpw as -> ->.
      pose proof (process_window_run _ _ _ _ _ _ _ _ Hp) as (_ & _ & Hd1 & _).
      destruct (process_window_keeps_tables _ _ _ _ _ _ _ _ Hp) as [Hmine Hkeep1].
      destruct (IH _ _ _ _ Hnd Hrest) as [Hkeep Hnew].
      split; [intros a' b' H; by apply Hkeep, Hkeep1 |].
      intros x Hx Hk. apply elem_of_cons in Hx as [-> | Hx].
      * by apply Hkeep.
      * apply Hnew; [done |]. rewrite Hd1. intros Hk'.
        apply elem_of_union in Hk' as [Hk' | Hk']; [| done].
        apply elem_of_singleton in Hk'. apply Hfresh.
        apply list_elem_of_fmap. exists x. split; [| done].
        unfold key_of. simpl. by rewrite <- Hk'.
Qed.

(** X25.  When a run returns, the part of every window of the range
    that was not in the checkpoint at the start is on disk, as a table:
    no later window and no merge has removed or replaced it by
    something else. *)
Theorem run_leaves_part_of_each_window
    (pd_to_datetime : string -> result date) (py_int : string -> option Z)
    (start end_ lang : string) (mv : Z) (mp : option Z) (w0 w' : world)
    (ranges : list (string * string)) (done0 : gset string)
    (x : string * string) :
  (forall str d, pd_to_datetime str = Ok d -> valid_date d /\ year d < MAXYEAR) ->
  run_monthly_backfill pd_to_datetime py_int start end_ lang mv mp w0
    = (Ok tt, w') ->
  month_ranges pd_to_datetime start end_ = Ok ranges ->
  done_on_disk (fs w0) = Ok done0 ->
  x ∈ ranges -> key_of x ∉ done0 ->
  holds_table (fs w') (part_filename x.1 x.2).
Proof.
  intros Hpd Hrun Hmr Hdisk Hx Hk.
  unfold run_monthly_backfill in Hrun.
  apply bind_ok_inv in Hrun as ([[cfg rg] dn] & w1 & Hsetup & Hrun).
  apply bind_ok_inv in Hrun as (done' & wm & Hloop & Hmerge).
  apply backfill_setup_run in Hsetup as (_ & _ & Hmr' & Hdisk' & _).
  rewrite Hmr in Hmr'. injection Hmr' as <-.
  rewrite Hdisk in Hdisk'. injection Hdisk' as <-.
  cbn [fst snd] in Hloop.
  pose proof (month_ranges_keys_NoDup _ _ _ _ Hpd Hmr) as Hnd.
  destruct (backfill_loop_keeps_tables _ _ _ _ _ _ _ Hnd Hloop) as [_ Hnew].
  destruct (Hnew x Hx Hk) as [df Hdf].
  exists df. rewrite <- Hdf.
  apply (touches_merge_parts
           (fun p => p = (master_paths start end_).1
                     \/ p = (master_paths start end_).2)
           _ _ ltac:(by left) ltac:(by right) wm (Ok tt) w' Hmerge).
  unfold master_paths, part_filename, OUT_DIR. cbn [fst snd].
  intros [H | H]; discriminate H.
Qed.

Lemma run_leaves_part_of_each_window_witness :
  holds_table (fs two_year_run.2) (part_filename "2022-12-01" "2022-12-31").
Proof.
  apply (run_leaves_part_of_each_window parse_iso int_of_decimal "2022-12-01"
           "2023-01-31" "en-US" 0 None (steady_world 1) two_year_run.2
           [("2022-12-01", "2022-12-31"); ("2023-01-01", "2023-01-31")] ∅
           ("2022-12-01", "2022-12-31")).
  - apply parse_iso_valid.
  - exact (returned_ok two_year_run tt two_year_run_returns).
  - vm_compute. reflexivity.
  - reflexivity.
  - left.
  - set_solver.
Defined.

(** ** Properties of the [.env] loader and of the configuration *)

Lemma find_ext_in {A : Type} (P Q : A -> bool) (l : list A) :
  (forall x, x ∈ l -> P x = Q x) -> find P l = find Q l.
Proof.
  induction l as [| x l IH]; intros H; simpl; [done |].
  rewrite (H x) by left. destruct (Q x); [done |].
  apply IH. intros y Hy. apply H. by right.
Qed.

(** Skipping the candidates already seen does not change which
    candidate is found first. *)
Lemma find_first_seen (P : string -> bool) (l : list string) : forall seen,
  find P (first_seen seen l)
  = find (fun c => P c && negb (bool_decide (c ∈ seen))) l.
Proof.
  induction l as [| k rest IH]; intros seen; simpl; [done |].
  destruct (decide (k ∈ seen)) as [Hin | Hout].
  - rewrite !bool_decide_eq_true_2 by done. rewrite andb_false_r. apply IH.
  - rewrite !bool_decide_eq_false_2 by done. rewrite andb_true_r. simpl.
    destruct (P k) eqn:HP; [done |].
    rewrite IH. apply find_ext_in. intros c _.
    destruct (decide (c = k)) as [-> | Hne].
    + by rewrite HP.
    + f_equal. f_equal. apply bool_decide_ext. set_solver.
Qed.

(** X26.  [load_project_dotenv] loads the first path that exists among
    the candidates in the order in which they are appended (the [.env]
    of the project root, of the script directory, of the directory of
    [argv[0]], of the working directory): removing the duplicates does
    not change which one that is.  Only when none exists does it fall
    back on what [find_dotenv] finds, and it returns [None] exactly when
    that finds nothing either. *)
Theorem load_project_dotenv_first_existing
    (resolve parent : string -> string) (child : string -> string -> string)
    (pr : process) :
  let cand := cand_paths resolve parent child pr in
  let loaded := (load_project_dotenv resolve parent child pr).1 in
  (forall c, find (path_exists pr) cand = Some c -> loaded = Some c)
  /\ (find (path_exists pr) cand = None ->
      loaded = if String.eqb (found_dotenv pr) "" then None
               else Some (found_dotenv pr))
  /\ (loaded = None <->
      Forall (fun c => path_exists pr c = false) cand /\ found_dotenv pr = "").
Proof.
  intros cand loaded. subst loaded. unfold load_project_dotenv. fold cand.
  rewrite (find_first_seen (path_exists pr) cand []).
  rewrite (find_ext_in
             (fun c => path_exists pr c && negb (bool_decide (c ∈ [])))
             (path_exists pr) cand)
    by (intros c _; rewrite bool_decide_eq_false_2 by (apply not_elem_of_nil);
        apply andb_true_r).
  destruct (find (path_exists pr) cand) as [c |] eqn:Hfind.
  - split; [by intros ? [= ->] |]. split; [done |].
    simpl. split; [done |]. intros [Hall _].
    apply find_some in Hfind as [Hin Hex].
    apply list_elem_of_In in Hin.
    rewrite Forall_forall in Hall. rewrite (Hall c Hin) in Hex. done.
  - split; [done |]. split.
    + intros _. by destruct (String.eqb _ _).
    + assert (Forall (fun c => path_exists pr c = false) cand) as Hall.
      { apply Forall_forall. intros c Hc. apply list_elem_of_In in Hc.
        by apply (find_none _ _ Hfind). }
      destruct (String.eqb_spec (found_dotenv pr) "") as [E | E]; simpl.
      * done.
      * split; [done | by intros [_ ?]].
Qed.

(** What the loader leaves in the environment, variable by variable. *)
Lemma load_project_dotenv_environ
    (resolve parent : string -> string) (child : string -> string -> string)
    (pr : process) (k : string) :
  let run := load_project_dotenv resolve parent child pr in
  (forall v, environ pr !! k = Some v -> run.2 !! k = Some v)
  /\ (environ pr !! k = None ->
      run.2 !! k
      = match run.1 with
        | Some c =>
            match disk pr !! c with
            | Some (EnvFile vars) => vars !! k ≫= id
            | _ => None
            end
        | None => None
        end).
Proof.
  intros run.
  assert (forall c,
            (forall v, environ pr !! k = Some v -> load_dotenv c pr !! k = Some v)
            /\ (environ pr !! k = None ->
                load_dotenv c pr !! k
                = match disk pr !! c with
                  | Some (EnvFile vars) => vars !! k ≫= id
                  | _ => None
                  end)) as Hload.
  { intros c. unfold load_dotenv.
    destruct (disk pr !! c) as [[| vars] |]; try (split; [done | done]).
    split.
    - intros v Hv. by apply lookup_union_Some_l.
    - intros Hnone. rewrite lookup_union_r by done. by rewrite lookup_omap. }
  subst run. unfold load_project_dotenv.
  destruct (find _ _) as [c |]; [apply Hload |].
  destruct (String.eqb _ _); [| apply Hload]. done.
Qed.

(** X27.  The loader never overrides the environment: a variable that
    is set when the module is imported keeps its value, also an empty
    one; a variable that is not set gets the value that the loaded file
    gives it, if the file gives it one. *)
Theorem load_project_dotenv_keeps_environment
    (resolve parent : string -> string) (child : string -> string -> string)
    (pr : process) (k : string) :
  let run := load_project_dotenv resolve parent child pr in
  (forall v, environ pr !! k = Some v -> run.2 !! k = Some v)
  /\ (environ pr !! k = None ->
      run.2 !! k
      = match run.1 with
        | Some c =>
            match disk pr !! c with
            | Some (EnvFile vars) => vars !! k ≫= id
            | _ => None
            end
        | None => None
        end).
Proof. apply load_project_dotenv_environ. Qed.

(** X28.  The import succeeds exactly when, after the loader has run,
    [TMDB_BEARER] is set and not empty, and [HEADERS] then carries it as
    the bearer token.  The environment comes first: a token set there is
    the one used whatever the [.env] files say, and an empty
    [TMDB_BEARER] in the environment makes the import fail even when a
    [.env] file has a token. *)
Theorem module_config_token
    (resolve parent : string -> string) (child : string -> string -> string)
    (pr : process) :
  let failure :=
    Raise (RuntimeError "Set TMDB_BEARER env var first (v4 read access token).") in
  let headers (token : string) : gmap string string :=
    {[ "Authorization" := "Bearer " +:+ token; "Accept" := "application/json" ]} in
  (forall token,
     environ pr !! "TMDB_BEARER" = Some token ->
     module_config resolve parent child pr
     = if String.eqb token "" then failure else Ok (headers token))
  /\ (forall h,
        module_config resolve parent child pr = Ok h <->
        exists token,
          (load_project_dotenv resolve parent child pr).2 !! "TMDB_BEARER"
            = Some token
          /\ token <> "" /\ h = headers token).
Proof.
  intros failure headers. split.
  - intros token Henv. unfold module_config.
    destruct (load_project_dotenv_environ resolve parent child pr
                "TMDB_BEARER") as [Hkeep _].
    by rewrite (Hkeep token Henv).
  - intros h. unfold module_config.
    destruct (_ !! "TMDB_BEARER") as [token |]; [| split; [done | by intros (? & ? & _)]].
    destruct (String.eqb_spec token "") as [-> | Hne].
    + split; [done |]. by intros (t & [= <-] & Ht & _).
    + split.
      * intros [= <-]. by exists token.
      * by intros (t & [= <-] & _ & ->).
Qed.

Example checkout_project_root_wins :
  load_project_dotenv id posix_parent posix_child (checkout ∅)
  = (Some "/repo/.env",
     {[ "TMDB_BEARER" := "root-token"; "LANGUAGE" := "tr-TR" ]}).
Proof. vm_compute. reflexivity. Qed.

Example checkout_environment_wins :
  module_config id posix_parent posix_child
    (checkout {[ "TMDB_BEARER" := "env-token" ]})
  = Ok {[ "Authorization" := "Bearer env-token"; "Accept" := "application/json" ]}.
Proof. vm_compute. reflexivity. Qed.

Example checkout_empty_token_blocks :
  module_config id posix_parent posix_child (checkout {[ "TMDB_BEARER" := "" ]})
  = Raise (RuntimeError "Set TMDB_BEARER env var first (v4 read access token).").
Proof. vm_compute. reflexivity. Qed.

(** ** The older script against the newer one *)

Lemma same_traffic_refl w : same_traffic w w.
Proof. repeat split. Qed.

Lemma agree_bind {A B : Type} (m1 m2 : M A) (f1 f2 : A -> M B) :
  agree m1 m2 -> (forall a, agree (f1 a) (f2 a)) -> agree (m1 ≫= f1) (m2 ≫= f2).
Proof.
  intros Hm Hf w1 w2 Hw. destruct (Hm w1 w2 Hw) as [Hr Hw'].
  unfold mbind, M_bind.
  destruct (m1 w1) as [[a1 | e1] w1'], (m2 w2) as [[a2 | e2] w2'];
    simpl in *; try discriminate.
  - injection Hr as ->. by apply Hf.
  - injection Hr as ->. split; [reflexivity | assumption].
Qed.

Lemma agree_log_l {A : Type} (r : log_record) (m1 m2 : M A) :
  agree m1 m2 -> agree (log r ≫= fun _ => m1) m2.
Proof.
  intros Hm w1 w2 Hw. unfold mbind, M_bind, log.
  apply Hm. destruct Hw as (? & ? & ? & ?). repeat split; assumption.
Qed.

Lemma agree_log {A : Type} (r1 r2 : log_record) (m1 m2 : M A) :
  agree m1 m2 -> agree (log r1 ≫= fun _ => m1) (log r2 ≫= fun _ => m2).
Proof.
  intros Hm w1 w2 Hw. unfold mbind, M_bind, log.
  apply Hm. destruct Hw as (? & ? & ? & ?). repeat split; assumption.
Qed.

Lemma agree_session_get url params :
  agree (session_get url params) (session_get url params).
Proof.
  intros w1 w2 (Hn & Hs & Hsl & Hf). unfold session_get, same_traffic. simpl.
  rewrite Hn, Hs. repeat split; simpl; congruence.
Qed.

Lemma agree_time_sleep q : agree (time_sleep q) (time_sleep q).
Proof.
  intros w1 w2 (Hn & Hs & Hsl & Hf). unfold time_sleep, same_traffic.
  destruct (Qle_bool 0 q); simpl; repeat split; simpl; congruence.
Qed.

Lemma agree_same {A : Type} (x : result A) : agree (lift x) (lift x).
Proof. intros w1 w2 Hw. split; [reflexivity | exact Hw]. Qed.

Lemma agree_raise {A : Type} (e : exn) : agree (raise e : M A) (raise e).
Proof. intros w1 w2 Hw. split; [reflexivity | exact Hw]. Qed.

Lemma agree_ret {A : Type} (a : A) : agree (mret a : M A) (mret a).
Proof. intros w1 w2 Hw. split; [reflexivity | exact Hw]. Qed.

Lemma agree_safe_get_loop py_int url params max_retries base attempts :
  agree (safe_get_loop py_int url params max_retries base attempts)
        (Legacy.safe_get_loop py_int url params max_retries base attempts).
Proof.
  induction attempts as [| attempt rest IH]; [apply agree_raise |].
  cbn [safe_get_loop Legacy.safe_get_loop].
  apply agree_bind; [apply agree_session_get |]. intros [| resp].
  - apply agree_log_l. apply agree_bind; [apply agree_time_sleep | done].
  - destruct (status_code resp =? 200); [apply agree_same |].
    destruct (status_code resp =? 429).
    { apply agree_log. apply agree_bind; [apply agree_time_sleep | done]. }
    destruct (_ && _); [| apply agree_raise].
    apply agree_log. apply agree_bind; [apply agree_time_sleep | done].
Qed.

Lemma agree_safe_get_default py_int path params :
  agree (safe_get_default py_int path params)
        (Legacy.safe_get_default py_int path params).
Proof. apply agree_safe_get_loop. Qed.

Lemma agree_discover_pages py_int polite_sleep pages : forall params movies,
  agree (discover_pages py_int params polite_sleep pages movies)
        (Legacy.discover_pages py_int params polite_sleep pages movies).
Proof.
  induction pages as [| p rest IH]; intros params movies; [apply agree_ret |].
  cbn [discover_pages Legacy.discover_pages].
  apply agree_bind; [apply agree_safe_get_default |]. intros j.
  apply agree_bind; [apply agree_time_sleep |]. intros _. apply IH.
Qed.

(** The older [discover_all] is the newer one without its cap. *)
Lemma agree_discover_all_uncapped py_int date_from date_to language min_votes
    max_pages polite_sleep :
  agree
    (first ← safe_get_default py_int "/discover/movie"
               (discover_params date_from date_to language min_votes);
     fetch_rest py_int (discover_params date_from date_to language min_votes)
       polite_sleep first
       (apply_max_pages (default 1 (doc_total_pages first)) max_pages))
    (Legacy.discover_all py_int date_from date_to language min_votes max_pages
       polite_sleep).
Proof.
  unfold Legacy.discover_all.
  apply agree_bind; [apply agree_safe_get_default |]. intros first.
  unfold fetch_rest. destruct (2 <=? _); [| apply agree_ret].
  apply agree_discover_pages.
Qed.

(** X29.  Where the first page reports no more than 500 pages, the two
    scripts fetch alike: from the same world, the [discover_all] of the
    older script and that of the newer one return the same (the same
    records, or the same exception) after the same requests and the
    same sleeps, and neither touches a file. *)
Theorem legacy_discover_all_agrees
    (py_int : string -> option Z) (date_from date_to language : string)
    (min_votes : Z) (max_pages : option Z) (polite_sleep : Q) (w : world) :
  (forall first w1,
     safe_get_default py_int "/discover/movie"
       (discover_params date_from date_to language min_votes) w = (Ok first, w1) ->
     default 1 (doc_total_pages first) <= TMDB_MAX_PAGES) ->
  let old :=
    Legacy.discover_all py_int date_from date_to language min_votes max_pages
      polite_sleep w in
  let new :=
    discover_all py_int date_from date_to language min_votes max_pages
      polite_sleep w in
  new.1 = old.1 /\ same_traffic new.2 old.2.
Proof.
  intros Hsmall old new.
  assert (new =
          (first ← safe_get_default py_int "/discover/movie"
                     (discover_params date_from date_to language min_votes);
           fetch_rest py_int
             (discover_params date_from date_to language min_votes)
             polite_sleep first
             (apply_max_pages (default 1 (doc_total_pages first)) max_pages)) w)
    as ->.
  { subst new. unfold discover_all, mbind at 1 4, M_bind at 1 4.
    destruct (safe_get_default _ _ _ w) as [[first | e] w1] eqn:Hfirst; [| done].
    specialize (Hsmall first w1 eq_refl).
    destruct (Z.ltb_spec TMDB_MAX_PAGES (default 1 (doc_total_pages first)));
      [lia |].
    reflexivity. }
  apply agree_discover_all_uncapped, same_traffic_refl.
Qed.

Lemma legacy_discover_all_agrees_witness :
  let old :=
    Legacy.discover_all int_of_decimal "2023-01-01" "2023-01-31" "en-US" 0 None
      (8 # 100)%Q catalogue_world in
  let new :=
    discover_all int_of_decimal "2023-01-01" "2023-01-31" "en-US" 0 None
      (8 # 100)%Q catalogue_world in
  new.1 = old.1 /\ same_traffic new.2 old.2.
Proof.
  apply (legacy_discover_all_agrees int_of_decimal "2023-01-01" "2023-01-31"
           "en-US" 0 None (8 # 100)%Q catalogue_world).
  intros first w1 H. vm_compute in H. injection H as <- _. vm_compute.
  discriminate.
Defined.

(** X30.  The older script knows no cap: on a network that answers
    every call, its [discover_all] asks for the pages 1 to N with
    N = max(1, min(total_pages, max_pages when not 0)), also beyond page
    500, and returns the records of all of them in the order of the
    pages. *)
Theorem legacy_discover_all_has_no_cap
    (py_int : string -> option Z) (date_from date_to language : string)
    (min_votes : Z) (max_pages : option Z) (polite_sleep : Q) (w : world)
    (doc : nat -> api_doc) :
  Qle_bool 0 polite_sleep = true ->
  let params := discover_params date_from date_to language min_votes in
  let total_pages := default 1 (doc_total_pages (doc 0%nat)) in
  let N := Z.to_nat (legacy_pages total_pages max_pages) in
  (forall i, (i < N)%nat -> answers w i (doc i)) ->
  let old :=
    Legacy.discover_all py_int date_from date_to language min_votes max_pages
      polite_sleep w in
  old.1 = Ok (concat (map (fun i => results_of (doc i)) (seq 0 N)))
  /\ sent old.2 = sent w ++ map (page_request params) (seqZ 1 (Z.of_nat N))
  /\ slept old.2 = slept w ++ replicate (N - 1) polite_sleep
  /\ fs old.2 = fs w.
Proof.
  intros Hsleep params total_pages N Hans old.
  assert (1 <= legacy_pages total_pages max_pages) as HN
    by (unfold legacy_pages; lia).
  destruct (agree_discover_all_uncapped py_int date_from date_to language
              min_votes max_pages polite_sleep w w (same_traffic_refl w))
    as [Hres (_ & Hsent & Hslept & Hfs)].
  fold old in Hres, Hsent, Hslept, Hfs. fold params in Hres, Hsent, Hslept, Hfs.
  rewrite <- Hres, <- Hsent, <- Hslept, <- Hfs. clear Hres Hsent Hslept Hfs.
  rewrite (bind_ok _ _ _ _ _
             (safe_get_default_answered py_int "/discover/movie" params w
                (doc 0%nat) (Hans 0%nat ltac:(lia)))).
  fold total_pages. unfold fetch_rest.
  set (w1 := called (BASE +:+ "/discover/movie") params w).
  assert (params !! "page" = Some (PyInt 1)) as Hpage
    by (unfold params, discover_params; apply lookup_insert_eq).
  assert (page_request params 1 = mkreq (BASE +:+ "/discover/movie") params)
    as Hfirst by (unfold page_request; by rewrite insert_id).
  unfold legacy_pages in *.
  destruct (Z.leb_spec 2 (apply_max_pages total_pages max_pages)) as [H2 | H1].
  - assert (Z.of_nat N = apply_max_pages total_pages max_pages) as HNeq by lia.
    rewrite (discover_pages_answered py_int polite_sleep (fun i => doc (S i))
               Hsleep).
    2: { intros i Hi. rewrite length_seqZ in Hi.
         apply (answers_shift w w1 1); [done | | ].
         - subst w1. simpl. rewrite length_app. simpl. lia.
         - apply Hans. lia. }
    rewrite length_seqZ.
    replace (Z.to_nat (apply_max_pages total_pages max_pages - 1))
      with (N - 1)%nat by lia.
    subst w1. cbn [fst snd net sent slept logged fs called].
    split; [| split; [| done]].
    + f_equal. destruct N as [| N']; [lia |].
      cbn [seq map concat]. f_equal. simpl.
      rewrite Nat.sub_0_r, <- seq_shift, map_map. reflexivity.
    + rewrite <- app_assoc. f_equal.
      rewrite (seqZ_cons 1 (Z.of_nat N)) by lia. cbn [map].
      rewrite Hfirst. simpl. do 2 f_equal. rewrite HNeq. f_equal; lia.
  - assert (N = 1%nat) as -> by lia.
    subst w1. cbn [fst snd net sent slept logged fs called].
    change (seqZ 1 (Z.of_nat 1)) with [1].
    cbn [map seq concat replicate Nat.sub].
    rewrite Hfirst, !app_nil_r. done.
Qed.

Lemma legacy_discover_all_has_no_cap_witness :
  let params := discover_params "2023-01-01" "2023-01-31" "en-US" 0 in
  let total_pages := default 1 (doc_total_pages (long_catalogue_page 0)) in
  let N := Z.to_nat (legacy_pages total_pages None) in
  let old :=
    Legacy.discover_all int_of_decimal "2023-01-01" "2023-01-31" "en-US" 0 None
      (8 # 100)%Q long_catalogue_world in
  old.1 = Ok (concat (map (fun i => results_of (long_catalogue_page i)) (seq 0 N)))
  /\ sent old.2
     = sent long_catalogue_world
       ++ map (page_request params) (seqZ 1 (Z.of_nat N))
  /\ slept old.2 = slept long_catalogue_world ++ replicate (N - 1) (8 # 100)%Q
  /\ fs old.2 = fs long_catalogue_world.
Proof.
  apply (legacy_discover_all_has_no_cap int_of_decimal "2023-01-01"
           "2023-01-31" "en-US" 0 None (8 # 100)%Q long_catalogue_world
           long_catalogue_page).
  - reflexivity.
  - intros i _. eexists. split; [reflexivity |]. split; reflexivity.
Defined.

Example legacy_pages_beyond_the_cap :
  legacy_pages 502 None = 502 /\ effective_pages 502 None = 500.
Proof. split; reflexivity. Qed.
